(** * Form validation for Webflow forms: a shallow embedding

    The program is [src/utils/validateForm.ts].  Three revisions of it are
    in the repository: the two documents of [src/utils/validateForm.ts]
    (embedded at top level and in [Variant2]) and one older, unnamed
    revision (embedded in [Part000]).

    The embedding has three layers:
    - [JS]: the JavaScript values the code computes with (strings as lists
      of UTF-16 code units, [trim], [parseInt], numbers with [NaN], regular
      expressions with [test]);
    - [Dom]: the document tree, [querySelector], class lists and attributes,
      with in-place mutation written as state passing addressed by paths;
    - the validation functions themselves, one definition per source
      function, with the source's names. *)

From Stdlib Require Import ZArith NArith List Bool Ascii String Lia.
From stdpp Require Import base list strings gmap.

Open Scope string_scope.
Open Scope list_scope.

(** ** JavaScript values *)

Module JS.

(** A JavaScript string is a sequence of UTF-16 code units: [list N]
    throughout.  [length] is then the [length] property. *)

(** String literals of the source, as code units; the literals the
    validator uses are all ASCII, one code unit per character. *)
Definition js (s : string) : list N :=
  map (fun a => N_of_ascii a) (list_ascii_of_string s).

(** [WhiteSpace] and [LineTerminator] of ECMAScript: the code units
    removed by [String.prototype.trim], skipped by [parseInt] and matched
    by the regular-expression class [\s]. *)
Definition isWhiteSpace (c : N) : bool :=
  ((9 <=? c) && (c <=? 13)            (* TAB LF VT FF CR *)
   || (c =? 32)                       (* SP *)
   || (c =? 160)                      (* NBSP *)
   || (c =? 5760)                     (* U+1680 *)
   || ((8192 <=? c) && (c <=? 8202))  (* U+2000..U+200A *)
   || (c =? 8232) || (c =? 8233)      (* LS PS *)
   || (c =? 8239) || (c =? 8287)      (* U+202F U+205F *)
   || (c =? 12288)                    (* U+3000 *)
   || (c =? 65279))%N.                (* U+FEFF *)

(** The class [\d] (without the [u] and [i] flags): [0-9]. *)
Definition isDigit (c : N) : bool := ((48 <=? c) && (c <=? 57))%N.

Fixpoint dropWhile (p : N -> bool) (s : list N) : list N :=
  match s with
  | [] => []
  | c :: r => if p c then dropWhile p r else s
  end.

Fixpoint takeWhile (p : N -> bool) (s : list N) : list N :=
  match s with
  | [] => []
  | c :: r => if p c then c :: takeWhile p r else []
  end.

Definition trimStart (s : list N) : list N := dropWhile isWhiteSpace s.
Definition trimEnd (s : list N) : list N := rev (dropWhile isWhiteSpace (rev s)).

(** [String.prototype.trim]. *)
Definition trim (s : list N) : list N := trimEnd (trimStart s).

(** ASCII lower-casing, as the DOM applies it to the [type] attribute. *)
Definition toAsciiLower (s : list N) : list N :=
  map (fun c => if ((65 <=? c) && (c <=? 90))%N then (c + 32)%N else c) s.

(** A Number, as far as this program produces them: the result of
    [parseInt] is an integer or [NaN]. *)
Inductive Number : Type :=
| NaN : Number
| Int : Z -> Number.

(** The mathematical value of a string of decimal digits. *)
Definition digitsValue (ds : list N) : Z :=
  fold_left (fun acc c => (10 * acc + Z.of_N (c - 48))%Z) ds 0%Z.

(** [parseInt(s, 10)]: leading white space is skipped, one sign is read,
    then the longest prefix of decimal digits; without a digit the result
    is [NaN].  With radix 10 a "0x" prefix is not stripped. *)
Definition parseInt10 (s : list N) : Number :=
  let s1 := trimStart s in
  let '(sign, s2) :=
    match s1 with
    | c :: r => if (c =? 45)%N then ((-1)%Z, r)
                else if (c =? 43)%N then (1%Z, r)
                else (1%Z, s1)
    | [] => (1%Z, s1)
    end in
  match takeWhile isDigit s2 with
  | [] => NaN
  | ds => Int (sign * digitsValue ds)
  end.

(** [n > m] and [n >= m] for a string length [n] and a Number [m]:
    every comparison with [NaN] is false.  (A length is below 2^53, so
    rounding [m] to a double does not change the outcome.) *)
Definition gt (n : nat) (m : Number) : bool :=
  match m with NaN => false | Int z => (z <? Z.of_nat n)%Z end.
Definition ge (n : nat) (m : Number) : bool :=
  match m with NaN => false | Int z => (z <=? Z.of_nat n)%Z end.

(** [x || d] for [x] a string or [null]: [null] and the empty string are
    falsy. *)
Definition truthy (x : option (list N)) : bool :=
  match x with Some (_ :: _) => true | _ => false end.
Definition orDefault (x : option (list N)) (d : list N) : list N :=
  match x with Some (c :: r) => c :: r | _ => d end.

(** [s.replace(/C/g, '')] for a one-character class [C]: the code units
    matching the class are removed. *)
Definition removeAll (cls : N -> bool) (s : list N) : list N :=
  filter (fun c => negb (cls c) = true) s.

(** Regular expressions, as far as the source uses them: classes of code
    units, concatenation, alternation and repetition.  The source's
    patterns are all anchored ([^...$]) and have no flags, so [test] is
    membership of the whole string in the language of the pattern. *)
Inductive RegExp : Type :=
| Void : RegExp
| Eps : RegExp
| Class : (N -> bool) -> RegExp
| Cat : RegExp -> RegExp -> RegExp
| Alt : RegExp -> RegExp -> RegExp
| Star : RegExp -> RegExp.

Definition Chr (c : N) : RegExp := Class (N.eqb c).
Definition Opt (r : RegExp) : RegExp := Alt Eps r.          (* r? *)
Definition Plus (r : RegExp) : RegExp := Cat r (Star r).    (* r+ *)
Fixpoint Rep (n : nat) (r : RegExp) : RegExp :=             (* r{n} *)
  match n with O => Eps | S k => Cat r (Rep k r) end.
Fixpoint RepUpTo (n : nat) (r : RegExp) : RegExp :=         (* r{0,n} *)
  match n with O => Eps | S k => Opt (Cat r (RepUpTo k r)) end.
Definition RepRange (lo hi : nat) (r : RegExp) : RegExp :=  (* r{lo,hi} *)
  Cat (Rep lo r) (RepUpTo (hi - lo) r).

Fixpoint nullable (r : RegExp) : bool :=
  match r with
  | Void => false
  | Eps => true
  | Class _ => false
  | Cat a b => nullable a && nullable b
  | Alt a b => nullable a || nullable b
  | Star _ => true
  end.

Fixpoint deriv (c : N) (r : RegExp) : RegExp :=
  match r with
  | Void => Void
  | Eps => Void
  | Class p => if p c then Eps else Void
  | Cat a b =>
      if nullable a then Alt (Cat (deriv c a) b) (deriv c b)
      else Cat (deriv c a) b
  | Alt a b => Alt (deriv c a) (deriv c b)
  | Star a => Cat (deriv c a) (Star a)
  end.

(** [/^r$/.test(s)]. *)
Definition test (r : RegExp) (s : list N) : bool :=
  nullable (fold_left (fun r c => deriv c r) s r).

End JS.

(** ** The document tree *)

Module Dom.
Import JS.

(** What the program reads and writes of one element.  [tagName] is the
    local name (lower case in an HTML document); [attributes] are the
    attributes other than [class], which is kept as [classList]; [value]
    is the property of an input or textarea and [checked] that of an
    input, [false] in an element that has no such property, where reading
    it gives [undefined]; [text] is the text given to the element by an
    assignment to [textContent].  Text nodes are not elements and are left
    out of the tree. *)
Record Data : Type := mkData {
  tagName : string;
  attributes : gmap string (list N);
  classList : list string;
  value : list N;
  checked : bool;
  text : list N
}.

(** An element with its children in document order.  A child removed from
    its parent (by an assignment to the parent's [textContent]) stays in
    the list, marked [removed]: references to it remain valid, as they do
    in the DOM, but queries from its former ancestors no longer see it. *)
Unset Elimination Schemes.
Inductive Element : Type :=
| Node (d : Data) (removed : bool) (children : list Element).
Set Elimination Schemes.

(** Induction over the tree, with the hypothesis for every child. *)
Section Induction.
Variable P : Element -> Prop.
Hypothesis step : forall d r cs, Forall P cs -> P (Node d r cs).

Fixpoint Element_ind (e : Element) : P e :=
  match e with
  | Node d r cs =>
      step d r cs
        ((fix all (l : list Element) : Forall P l :=
            match l with
            | [] => List.Forall_nil P
            | c :: l' => @List.Forall_cons _ P c l' (Element_ind c) (all l')
            end) cs)
  end.
End Induction.

Definition data (e : Element) : Data := match e with Node d _ _ => d end.
Definition removed (e : Element) : bool := match e with Node _ r _ => r end.
Definition children (e : Element) : list Element := match e with Node _ _ cs => cs end.

(** A reference to an element below a root: the child indices leading to
    it.  Children are never inserted or reordered, so a reference stays
    valid across every mutation the program performs. *)
Definition Ref : Type := list nat.

Fixpoint deref (p : Ref) (root : Element) : option Element :=
  match p with
  | [] => Some root
  | i :: q =>
      match children root !! i with
      | Some c => deref q c
      | None => None
      end
  end.

(** In-place mutation of the referenced element. *)
Fixpoint mutate (f : Element -> Element) (p : Ref) (root : Element) : Element :=
  match p with
  | [] => f root
  | i :: q =>
      match children root !! i with
      | Some c => Node (data root) (removed root) (<[i := mutate f q c]> (children root))
      | None => root
      end
  end.

Definition onData (g : Data -> Data) (e : Element) : Element :=
  Node (g (data e)) (removed e) (children e).

(** *** Attributes and classes *)

Definition hasAttribute (a : string) (d : Data) : bool :=
  bool_decide (is_Some (attributes d !! a)).

Definition getAttribute (a : string) (d : Data) : option (list N) :=
  attributes d !! a.

Definition setAttribute (a : string) (v : list N) (d : Data) : Data :=
  mkData (tagName d) (<[a := v]> (attributes d)) (classList d) (value d) (checked d) (text d).

Definition contains (c : string) (d : Data) : bool :=
  bool_decide (c ∈ classList d).

(** [classList.add]: a token already present is not added again. *)
Definition classAdd (c : string) (d : Data) : Data :=
  mkData (tagName d) (attributes d)
    (if bool_decide (c ∈ classList d) then classList d else classList d ++ [c])
    (value d) (checked d) (text d).

(** [classList.remove]. *)
Definition classRemove (c : string) (d : Data) : Data :=
  mkData (tagName d) (attributes d)
    (filter (fun x => x ≠ c) (classList d))
    (value d) (checked d) (text d).

Definition setValue (v : list N) (d : Data) : Data :=
  mkData (tagName d) (attributes d) (classList d) v (checked d) (text d).

(** The [type] property of an input or textarea: the [type] attribute in
    ASCII lower case when it is one of the input types, otherwise "text";
    a textarea answers "textarea". *)
Definition inputTypes : list string :=
  ["hidden"; "text"; "search"; "tel"; "url"; "email"; "password"; "date";
   "month"; "week"; "time"; "datetime-local"; "number"; "range"; "color";
   "checkbox"; "radio"; "file"; "submit"; "image"; "reset"; "button"].

Definition type (d : Data) : list N :=
  if bool_decide (tagName d = "textarea") then js "textarea"
  else match attributes d !! "type" with
       | Some v =>
           let l := toAsciiLower v in
           if bool_decide (l ∈ map js inputTypes) then l else js "text"
       | None => js "text"
       end.

(** [element.checked]: a property of input elements.  Read from any other
    element, a textarea included, it is [undefined]. *)
Definition checkedProperty (d : Data) : option bool :=
  if bool_decide (tagName d = "input") then Some (checked d) else None.

(** The modes of the [value] property of an input element, by input
    type. *)
Inductive ValueMode : Type := ModeValue | ModeDefault | ModeDefaultOn | ModeFilename.

Definition valueMode (t : list N) : ValueMode :=
  if bool_decide (t ∈ map js ["hidden"; "submit"; "image"; "reset"; "button"]) then ModeDefault
  else if bool_decide (t ∈ map js ["checkbox"; "radio"]) then ModeDefaultOn
  else if bool_decide (t = js "file") then ModeFilename
  else ModeValue.

(** The value a textarea answers after an assignment: CR LF and CR have
    become LF. *)
Fixpoint normalizeNewlines (s : list N) : list N :=
  match s with
  | [] => []
  | c :: r =>
      if (c =? 13)%N then
        10%N :: match r with
                | c' :: r' => if (c' =? 10)%N then normalizeNewlines r' else normalizeNewlines r
                | [] => []
                end
      else c :: normalizeNewlines r
  end.

(** An assignment [element.value = s]; [None] when it throws.  A textarea
    stores [s] and answers it with the line breaks normalised.  An input
    in the mode [value] stores what the value sanitization algorithm of its
    type makes of [s]; that algorithm is a parameter, [sanitize], given the
    element and [s].  In the modes [default] and [default/on] the
    assignment sets the attribute [value], which is what the property then
    answers.  A file input accepts the empty string only.  On any other
    element [value] is an ordinary property. *)
Definition assignValue (sanitize : Data -> list N -> list N) (s : list N) (d : Data)
    : option Data :=
  if bool_decide (tagName d = "textarea") then Some (setValue (normalizeNewlines s) d)
  else if bool_decide (tagName d = "input") then
    match valueMode (type d) with
    | ModeValue => Some (setValue (sanitize d s) d)
    | ModeDefault | ModeDefaultOn => Some (setValue s (setAttribute "value" s d))
    | ModeFilename => if bool_decide (s = []) then Some (setValue [] d) else None
    end
  else Some (setValue s d).

(** An assignment to [textContent]: every child is removed and the text
    becomes the element's only content. *)
Definition markRemoved (e : Element) : Element :=
  Node (data e) true (children e).

Definition setTextContent (s : list N) (e : Element) : Element :=
  match e with
  | Node d r cs =>
      Node (mkData (tagName d) (attributes d) (classList d) (value d) (checked d) s)
           r (map markRemoved cs)
  end.

(** *** Selectors *)

(** The selectors of the source: a comma-separated list of compounds, each
    a conjunction of a tag name, classes and attribute tests. *)
Inductive Simple : Type :=
| Tag (t : string)                     (* input *)
| HasClass (c : string)                (* .is-error *)
| HasAttr (a : string)                 (* [input-error-text] *)
| AttrIs (a : string) (v : list N).    (* [type="submit"] *)

Definition Selector : Type := list (list Simple).

(** [type] is one of the attributes whose selector value HTML compares
    without regard to ASCII case; it is the only attribute the source
    tests for a value. *)
Definition matchesSimple (d : Data) (s : Simple) : bool :=
  match s with
  | Tag t => bool_decide (tagName d = t)
  | HasClass c => contains c d
  | HasAttr a => hasAttribute a d
  | AttrIs a v =>
      match attributes d !! a with
      | Some x => bool_decide (toAsciiLower x = toAsciiLower v)
      | None => false
      end
  end.

Definition matches (sel : Selector) (d : Data) : bool :=
  existsb (forallb (matchesSimple d)) sel.

(** The descendants of an element still attached to it, in document
    order (pre-order), each with its reference from that element. *)
Fixpoint descendants (e : Element) : list (Ref * Element) :=
  match e with
  | Node _ _ cs =>
      (fix go (i : nat) (l : list Element) {struct l} : list (Ref * Element) :=
         match l with
         | [] => []
         | c :: r =>
             (if removed c then []
              else ([i], c) :: map (fun '(p, x) => (i :: p, x)) (descendants c))
             ++ go (S i) r
         end) 0 cs
  end.

(** The children's part of [descendants], from child index [i] on. *)
Fixpoint below (i : nat) (l : list Element) : list (Ref * Element) :=
  match l with
  | [] => []
  | c :: r =>
      (if removed c then []
       else ([i], c) :: map (fun '(p, x) => (i :: p, x)) (descendants c))
      ++ below (S i) r
  end.

Definition querySelectorAll (sel : Selector) (e : Element) : list Ref :=
  map fst (filter (fun '(_, x) => matches sel (data x) = true) (descendants e)).

Definition querySelector (sel : Selector) (e : Element) : option Ref :=
  head (querySelectorAll sel e).

(** [outer.querySelector(sel)] for an element [outer] referenced below a
    root: the reference found is again one from the root. *)
Definition querySelectorAt (sel : Selector) (outer : Ref) (root : Element) : option Ref :=
  match deref outer root with
  | Some e => option_map (app outer) (querySelector sel e)
  | None => None
  end.

Definition querySelectorAllAt (sel : Selector) (outer : Ref) (root : Element) : list Ref :=
  match deref outer root with
  | Some e => map (app outer) (querySelectorAll sel e)
  | None => []
  end.

(** [p.closest(sel)] below a root: the nearest of the element and its
    ancestors that matches, walking up as long as the element is attached
    to its parent, at most to the root. *)
Fixpoint closestFrom (sel : Selector) (n : nat) (p : Ref) (root : Element) : option Ref :=
  match deref (take n p) root with
  | None => None
  | Some e =>
      if matches sel (data e) then Some (take n p)
      else match n with
           | O => None
           | S k => if removed e then None else closestFrom sel k p root
           end
  end.

Definition closest (sel : Selector) (p : Ref) (root : Element) : option Ref :=
  closestFrom sel (length p) p root.

(** The data of a referenced element.  A reference obtained from a query
    on the same tree always leads to an element; the default is the
    element without attributes, classes or value. *)
Definition noData : Data := mkData "" ∅ [] [] false [].
Definition the (p : Ref) (root : Element) : Data :=
  match deref p root with Some e => data e | None => noData end.

(** A call [f(x)] on a referenced element [x] that may mutate [x] and
    what is below it: the result is written back in place. *)
Definition call {A : Type} (f : Element -> A * Element) (dflt : A)
    (p : Ref) (root : Element) : A * Element :=
  match deref p root with
  | Some e => let '(a, e') := f e in (a, mutate (fun _ => e') p root)
  | None => (dflt, root)
  end.

End Dom.
Import JS Dom.

(** ** src/utils/validateForm.ts (first document) *)

(** The selectors of the source. *)
Definition sel_input : Selector := [[Tag "input"]; [Tag "textarea"]].      (* 'input, textarea' *)
Definition sel_checkbox : Selector := [[HasClass "w-checkbox-input"]].      (* '.w-checkbox-input' *)
Definition sel_errorLabel : Selector := [[HasClass "input-error-label"]].   (* '.input-error-label' *)
Definition sel_errorText : Selector := [[HasAttr "input-error-text"]].      (* '[input-error-text]' *)
Definition sel_wrapper : Selector := [[HasClass "input-wrapper"]].          (* '.input-wrapper' *)
Definition sel_isError : Selector := [[HasClass "is-error"]].               (* '.is-error' *)
Definition sel_wForm : Selector := [[HasClass "w-form"]].                   (* '.w-form' *)
Definition sel_form : Selector := [[Tag "form"]].                           (* 'form' *)
Definition sel_submit : Selector :=                 (* 'input[type="submit"], button[type="submit"]' *)
  [[Tag "input"; AttrIs "type" (js "submit")]; [Tag "button"; AttrIs "type" (js "submit")]].

(** [input.value.trim().length > minLength] *)
Definition validateLength (input : Data) (minLength : Number) : bool :=
  gt (length (trim (value input))) minLength.

(** [phoneDigits = input.value.replace(/\D/g, ''); phoneDigits.length >= 10] *)
Definition validatePhone (input : Data) : bool :=
  let phoneDigits := removeAll (fun c => negb (isDigit c)) (value input) in
  (10 <=? length phoneDigits)%nat.

(** The class [[^\s@]]. *)
Definition notSpaceNorAt (c : N) : bool := negb (isWhiteSpace c || (c =? 64)%N).

(** [/^[^\s@]+@[^\s@]+\.[^\s@]+$/] *)
Definition emailRegex : RegExp :=
  Cat (Plus (Class notSpaceNorAt))
   (Cat (Chr 64)
     (Cat (Plus (Class notSpaceNorAt))
       (Cat (Chr 46)
         (Plus (Class notSpaceNorAt))))).

Definition validateEmail (input : Data) : bool :=
  test emailRegex (trim (value input)).

Definition validateCheckbox (input : Data) : bool := checked input.

Definition showError (wrapper : Element) (input : Ref) : Element :=
  let wrapper := mutate (onData (classAdd "is-error")) input wrapper in
  match querySelector sel_errorLabel wrapper with
  | Some errorLabel =>
      let wrapper :=
        match querySelectorAt sel_errorText errorLabel wrapper with
        | Some errorTextElement =>
            let customErrorText :=
              getAttribute "input-error-text" (the errorTextElement wrapper) in
            if truthy customErrorText
            then mutate (setTextContent (orDefault customErrorText [])) errorTextElement wrapper
            else wrapper
        | None => wrapper
        end in
      mutate (onData (setAttribute "style" (js "display: flex;"))) errorLabel wrapper
  | None => wrapper
  end.

Definition hideError (wrapper : Element) (input : Ref) : Element :=
  let wrapper := mutate (onData (classRemove "is-error")) input wrapper in
  match querySelector sel_errorLabel wrapper with
  | Some errorLabel =>
      mutate (onData (setAttribute "style" (js "display: none;"))) errorLabel wrapper
  | None => wrapper
  end.

(** The rule part of [validateInput]: the four [if]s that assign [isValid],
    in the order of the source. *)
Definition ruleVerdict (input : Data) : bool :=
  let isValid := true in
  let isValid :=
    if hasAttribute "input-validation-length" input then
      let minLength :=
        parseInt10 (orDefault (getAttribute "input-validation-length" input) (js "0")) in
      validateLength input minLength
    else isValid in
  let isValid :=
    if hasAttribute "input-validation-phone" input then validatePhone input else isValid in
  let isValid :=
    if bool_decide (type input = js "email") then validateEmail input else isValid in
  let isValid :=
    if hasAttribute "input-validation-checkbox" input then validateCheckbox input else isValid in
  isValid.

Definition validateInput (wrapper : Element) (showErrors forceShowErrors : bool)
    : bool * Element :=
  let checkbox := querySelector sel_checkbox wrapper in
  match querySelector sel_input wrapper with
  | None => (true, wrapper)
  | Some input =>
      let isValid := ruleVerdict (the input wrapper) in
      (* the class of the checkbox box, inside the checkbox [if] *)
      let wrapper :=
        if hasAttribute "input-validation-checkbox" (the input wrapper) then
          match checkbox with
          | Some box =>
              if showErrors
                 && (hasAttribute "data-touched" (the input wrapper) || forceShowErrors)
                 && negb isValid
              then mutate (onData (classAdd "is-error")) box wrapper
              else mutate (onData (classRemove "is-error")) box wrapper
          | None => wrapper
          end
        else wrapper in
      let wrapper :=
        if showErrors && (hasAttribute "data-touched" (the input wrapper) || forceShowErrors)
        then
          if negb isValid then
            if bool_decide (type (the input wrapper) = js "checkbox")
            then showError wrapper (default input checkbox)
            else showError wrapper input
          else
            if bool_decide (type (the input wrapper) = js "checkbox")
            then hideError wrapper (default input checkbox)
            else hideError wrapper input
        else wrapper in
      (isValid, wrapper)
  end.

Definition validateForm (form : Element) (showErrors forceShowErrors : bool)
    : bool * Element :=
  let inputWrappers := querySelectorAll sel_wrapper form in
  let '(isFormValid, form) :=
    fold_left
      (fun '(isFormValid, form) wrapper =>
         let '(inputValid, form) :=
           call (fun w => validateInput w showErrors forceShowErrors) true wrapper form in
         (if negb inputValid then false else isFormValid, form))
      inputWrappers (true, form) in
  match querySelector sel_submit form with
  | Some submitButton =>
      (isFormValid,
       mutate (onData (if isFormValid then classRemove "is-disabled"
                       else classAdd "is-disabled")) submitButton form)
  | None => (isFormValid, form)
  end.

(** *** Events

    What a listener does besides mutating the document: the calls on the
    event object and the scroll request. *)
Record Effects : Type := mkEffects {
  defaultPrevented : bool;       (* e.preventDefault() was called *)
  propagationStopped : bool;     (* e.stopPropagation() was called *)
  scrolledIntoView : option Ref  (* firstError.scrollIntoView(...) *)
}.

Definition noEffects : Effects := mkEffects false false None.

(** The [focus] listener of an input. *)
Definition onFocus (input : Element) : Element :=
  onData (setAttribute "data-touched" (js "true")) input.

(** The class [[^\d+\-()\s.]] of the phone input filter. *)
Definition notPhoneChar (c : N) : bool :=
  negb (isDigit c || (c =? 43)%N || (c =? 45)%N || (c =? 40)%N || (c =? 41)%N
        || isWhiteSpace c || (c =? 46)%N).

(** The [input] and [blur] listeners of an input that is not a phone field;
    [wrapper] is a reference from the form. *)
Definition onInput (wrapper : Ref) (form : Element) : Element :=
  let '(_, form) := call (fun w => validateInput w true false) true wrapper form in
  snd (validateForm form true false).

(** The [input] listener of a phone field; [input] is a reference from the
    wrapper, and the event's target is that input.  When the assignment to
    [target.value] throws, the listener ends there. *)
Definition onInputPhone (sanitize : Data -> list N -> list N) (wrapper input : Ref)
    (form : Element) : Element :=
  let target := wrapper ++ input in
  match assignValue sanitize (removeAll notPhoneChar (value (the target form)))
                    (the target form) with
  | None => form
  | Some stored =>
      let form := mutate (onData (fun _ => stored)) target form in
      let '(_, form) := call (fun w => validateInput w true false) true wrapper form in
      snd (validateForm form true false)
  end.

(** The [submit] listener of a form. *)
Definition onSubmit (form : Element) : Effects * Element :=
  let '(isValid, form) := validateForm form true true in
  if negb isValid then
    let firstError := querySelector sel_isError form in
    (mkEffects true true firstError, form)
  else (noEffects, form).

(** A registered listener: its target (a reference from the document), the
    event type and the closure, given by the references it captured. *)
Inductive Handler : Type :=
| MarkTouched                                  (* focus *)
| SanitizePhone (form wrapper input : Ref)     (* input, phone field *)
| Revalidate (form wrapper : Ref)              (* input, blur *)
| GuardSubmit.                                 (* submit *)

Record Listener : Type := mkListener {
  target : Ref;
  eventType : string;
  handler : Handler
}.

(** Running a listener on the document. *)
Definition dispatch (sanitize : Data -> list N -> list N) (l : Listener)
    (document : Element) : Effects * Element :=
  match handler l with
  | MarkTouched => (noEffects, mutate onFocus (target l) document)
  | SanitizePhone form wrapper input =>
      call (fun f => (noEffects, onInputPhone sanitize wrapper input f)) noEffects
           form document
  | Revalidate form wrapper =>
      call (fun f => (noEffects, onInput wrapper f)) noEffects form document
  | GuardSubmit =>
      let '(effects, document) := call onSubmit noEffects (target l) document in
      (mkEffects (defaultPrevented effects) (propagationStopped effects)
                 (option_map (app (target l)) (scrolledIntoView effects)),
       document)
  end.

(** The listeners [validateForms] attaches for one wrapper of a form. *)
Definition wrapperListeners (form wrapper : Ref) (document : Element) : list Listener :=
  match querySelectorAt sel_input (form ++ wrapper) document with
  | None => []
  | Some input =>
      [mkListener input "focus" MarkTouched;
       (if hasAttribute "input-validation-phone" (the input document)
        then mkListener input "input" (SanitizePhone form wrapper (drop (length (form ++ wrapper)) input))
        else mkListener input "input" (Revalidate form wrapper));
       mkListener input "blur" (Revalidate form wrapper)]
  end.

(** [validateForms]: for every form of the page, hide all error labels,
    remove the error classes, validate once without showing errors, and
    attach the listeners. *)
Definition validateForms (document : Element) : Element * list Listener :=
  let formSections := querySelectorAll sel_wForm document in
  fold_left
    (fun '(document, listeners) section =>
       match querySelectorAt sel_form section document with
       | None => (document, listeners)
       | Some form =>
           let errorLabels := querySelectorAllAt sel_errorLabel form document in
           let document :=
             fold_left
               (fun document label =>
                  mutate (onData (setAttribute "style" (js "display: none;"))) label document)
               errorLabels document in
           let errorInputs := querySelectorAllAt sel_isError form document in
           let document :=
             fold_left
               (fun document input => mutate (onData (classRemove "is-error")) input document)
               errorInputs document in
           let '(_, document) :=
             call (fun f => validateForm f false false) true form document in
           let inputWrappers :=
             match deref form document with
             | Some f => querySelectorAll sel_wrapper f
             | None => []
             end in
           let listeners :=
             listeners
             ++ flat_map (fun wrapper => wrapperListeners form wrapper document) inputWrappers
             ++ [mkListener form "submit" GuardSubmit] in
           (document, listeners)
       end)
    formSections (document, []).


(** ** The older, unnamed revision

    It differs from the first document in the length and phone rules and
    in [validateInput], which has no [forceShowErrors] parameter and does
    not look at [data-touched].  Its [validateEmail], [validateCheckbox],
    [showError] and [hideError] are, word for word, those above. *)

Module Part000.

(** [input.value.trim().length >= minLength] *)
Definition validateLength (input : Data) (minLength : Number) : bool :=
  ge (length (trim (value input))) minLength.

(** The class [[-\s.]]. *)
Definition separator (c : N) : bool := (c =? 45)%N || isWhiteSpace c || (c =? 46)%N.

(** [/^[+]?[(]?[0-9]{3}[)]?[-\s.]?[0-9]{3}[-\s.]?[0-9]{4,6}$/] *)
Definition phoneRegex : RegExp :=
  Cat (Opt (Chr 43))
   (Cat (Opt (Chr 40))
     (Cat (Rep 3 (Class isDigit))
       (Cat (Opt (Chr 41))
         (Cat (Opt (Class separator))
           (Cat (Rep 3 (Class isDigit))
             (Cat (Opt (Class separator))
               (RepRange 4 6 (Class isDigit)))))))).

Definition validatePhone (input : Data) : bool :=
  test phoneRegex (trim (value input)).

Definition ruleVerdict (input : Data) : bool :=
  let isValid := true in
  let isValid :=
    if hasAttribute "input-validation-length" input then
      let minLength :=
        parseInt10 (orDefault (getAttribute "input-validation-length" input) (js "0")) in
      validateLength input minLength
    else isValid in
  let isValid :=
    if hasAttribute "input-validation-phone" input then validatePhone input else isValid in
  let isValid :=
    if bool_decide (type input = js "email") then validateEmail input else isValid in
  let isValid :=
    if hasAttribute "input-validation-checkbox" input then validateCheckbox input else isValid in
  isValid.

Definition validateInput (wrapper : Element) (showErrors : bool) : bool * Element :=
  let checkbox := querySelector sel_checkbox wrapper in
  match querySelector sel_input wrapper with
  | None => (true, wrapper)
  | Some input =>
      let isValid := ruleVerdict (the input wrapper) in
      let wrapper :=
        if hasAttribute "input-validation-checkbox" (the input wrapper) then
          match checkbox with
          | Some box =>
              if showErrors && negb isValid
              then mutate (onData (classAdd "is-error")) box wrapper
              else mutate (onData (classRemove "is-error")) box wrapper
          | None => wrapper
          end
        else wrapper in
      let wrapper :=
        if showErrors then
          if negb isValid then
            if bool_decide (type (the input wrapper) = js "checkbox")
            then showError wrapper (default input checkbox)
            else showError wrapper input
          else
            if bool_decide (type (the input wrapper) = js "checkbox")
            then hideError wrapper (default input checkbox)
            else hideError wrapper input
        else wrapper in
      (isValid, wrapper)
  end.

Definition validateForm (form : Element) (showErrors : bool) : bool * Element :=
  let inputWrappers := querySelectorAll sel_wrapper form in
  let '(isFormValid, form) :=
    fold_left
      (fun '(isFormValid, form) wrapper =>
         let '(inputValid, form) :=
           call (fun w => validateInput w showErrors) true wrapper form in
         (if negb inputValid then false else isFormValid, form))
      inputWrappers (true, form) in
  match querySelector sel_submit form with
  | Some submitButton =>
      (isFormValid,
       mutate (onData (if isFormValid then classRemove "is-disabled"
                       else classAdd "is-disabled")) submitButton form)
  | None => (isFormValid, form)
  end.

(** The [submit] listener. *)
Definition onSubmit (form : Element) : Effects * Element :=
  let '(isValid, form) := validateForm form true in
  if negb isValid then
    let firstError := querySelector sel_isError form in
    (mkEffects true true firstError, form)
  else (noEffects, form).

(** The verdict of the field of a wrapper under the rules of this
    revision: pass when the wrapper has no field. *)
Definition wrapperVerdict (wrapper : Element) : bool :=
  match querySelector sel_input wrapper with
  | None => true
  | Some input => ruleVerdict (the input wrapper)
  end.

(** The [input] and [blur] listeners of an input; [wrapper] is a reference
    from the form. *)
Definition onInput (wrapper : Ref) (form : Element) : Element :=
  let '(_, form) := call (fun w => validateInput w true) true wrapper form in
  snd (validateForm form true).

Inductive Handler : Type :=
| Revalidate (form wrapper : Ref)     (* input, blur *)
| GuardSubmit.                        (* submit *)

Record Listener : Type := mkListener {
  target : Ref;
  eventType : string;
  handler : Handler
}.

Definition dispatch (l : Listener) (document : Element) : Effects * Element :=
  match handler l with
  | Revalidate form wrapper =>
      call (fun f => (noEffects, onInput wrapper f)) noEffects form document
  | GuardSubmit =>
      let '(effects, document) := call onSubmit noEffects (target l) document in
      (mkEffects (defaultPrevented effects) (propagationStopped effects)
                 (option_map (app (target l)) (scrolledIntoView effects)),
       document)
  end.

Definition wrapperListeners (form wrapper : Ref) (document : Element) : list Listener :=
  match querySelectorAt sel_input (form ++ wrapper) document with
  | None => []
  | Some input =>
      [mkListener input "input" (Revalidate form wrapper);
       mkListener input "blur" (Revalidate form wrapper)]
  end.

Definition validateForms (document : Element) : Element * list Listener :=
  let formSections := querySelectorAll sel_wForm document in
  fold_left
    (fun '(document, listeners) section =>
       match querySelectorAt sel_form section document with
       | None => (document, listeners)
       | Some form =>
           let errorLabels := querySelectorAllAt sel_errorLabel form document in
           let document :=
             fold_left
               (fun document label =>
                  mutate (onData (setAttribute "style" (js "display: none;"))) label document)
               errorLabels document in
           let errorInputs := querySelectorAllAt sel_isError form document in
           let document :=
             fold_left
               (fun document input => mutate (onData (classRemove "is-error")) input document)
               errorInputs document in
           let '(_, document) :=
             call (fun f => validateForm f false) true form document in
           let inputWrappers :=
             match deref form document with
             | Some f => querySelectorAll sel_wrapper f
             | None => []
             end in
           let listeners :=
             listeners
             ++ flat_map (fun wrapper => wrapperListeners form wrapper document) inputWrappers
             ++ [mkListener form "submit" GuardSubmit] in
           (document, listeners)
       end)
    formSections (document, []).

End Part000.

(** ** src/utils/validateForm.ts (second document)

    The variant with the mirrored checkbox state.  [validateEmail], the
    [focus] listener and the filter of the phone listener are those above;
    the calls of [console.log] are left out.

    [validateCheckbox] throws a [TypeError] when its argument has no
    [checked] property.  A function that may throw returns an [option]
    beside the document: [None] when it has thrown, with the document as
    it is at that moment. *)

Module Variant2.

Definition sel_checkboxInput : Selector :=        (* 'input[type="checkbox"]' *)
  [[Tag "input"; AttrIs "type" (js "checkbox")]].
Definition sel_checkboxBox : Selector :=          (* '.w-checkbox-input.checkbox' *)
  [[HasClass "w-checkbox-input"; HasClass "checkbox"]].

(** [input.value.trim().length > minLength] *)
Definition validateLength (input : Data) (minLength : Number) : bool :=
  gt (length (trim (value input))) minLength.

(** [phoneDigits.length >= 5] *)
Definition validatePhone (input : Data) : bool :=
  let phoneDigits := removeAll (fun c => negb (isDigit c)) (value input) in
  (5 <=? length phoneDigits)%nat.

Definition updateCheckboxClasses (root : Element) (input checkbox : Ref) : Element :=
  let isChecked :=
    bool_decide (getAttribute "data-checked" (the input root) = Some (js "true")) in
  if isChecked
  then mutate (onData (classAdd "w--redirected-checked")) checkbox root
  else mutate (onData (classRemove "w--redirected-checked")) checkbox root.

(** [validateCheckbox(input)], for an input referenced below [root]; the
    callers pass inputs found below an [.input-wrapper], which is then
    where [closest] stops at the latest.  When [input.checked] is
    [undefined], [isValid.toString()] throws, before anything is written. *)
Definition validateCheckbox (root : Element) (input : Ref) : option bool * Element :=
  match checkedProperty (the input root) with
  | None => (None, root)
  | Some isValid =>
      let root :=
        mutate (onData (setAttribute "data-checked" (js (if isValid then "true" else "false"))))
               input root in
      match closest sel_wrapper input root with
      | Some wrapper =>
          match querySelectorAt sel_checkbox wrapper root with
          | Some checkbox => (Some isValid, updateCheckboxClasses root input checkbox)
          | None => (Some isValid, root)
          end
      | None => (Some isValid, root)
      end
  end.

Definition showError (wrapper : Element) (input : Ref) : Element :=
  let wrapper :=
    match querySelector sel_checkboxInput wrapper with
    | Some _ =>
        match querySelector sel_checkboxBox wrapper with
        | Some checkbox => mutate (onData (classAdd "is-error")) checkbox wrapper
        | None => wrapper
        end
    | None => mutate (onData (classAdd "is-error")) input wrapper
    end in
  match querySelector sel_errorLabel wrapper with
  | Some errorLabel =>
      let wrapper :=
        match querySelectorAt sel_errorText errorLabel wrapper with
        | Some errorTextElement =>
            let customErrorText :=
              getAttribute "input-error-text" (the errorTextElement wrapper) in
            if truthy customErrorText
            then mutate (setTextContent (orDefault customErrorText [])) errorTextElement wrapper
            else wrapper
        | None => wrapper
        end in
      mutate (onData (setAttribute "style" (js "display: flex;"))) errorLabel wrapper
  | None => wrapper
  end.

Definition hideError (wrapper : Element) (input : Ref) : Element :=
  let wrapper :=
    match querySelector sel_checkboxInput wrapper with
    | Some _ =>
        match querySelector sel_checkboxBox wrapper with
        | Some checkbox => mutate (onData (classRemove "is-error")) checkbox wrapper
        | None => wrapper
        end
    | None => mutate (onData (classRemove "is-error")) input wrapper
    end in
  match querySelector sel_errorLabel wrapper with
  | Some errorLabel =>
      mutate (onData (setAttribute "style" (js "display: none;"))) errorLabel wrapper
  | None => wrapper
  end.

(** The three [if]s before the checkbox [if]. *)
Definition textVerdict (input : Data) : bool :=
  let isValid := true in
  let isValid :=
    if hasAttribute "input-validation-length" input then
      let minLength :=
        parseInt10 (orDefault (getAttribute "input-validation-length" input) (js "0")) in
      validateLength input minLength
    else isValid in
  let isValid :=
    if hasAttribute "input-validation-phone" input then validatePhone input else isValid in
  let isValid :=
    if bool_decide (type input = js "email") then validateEmail input else isValid in
  isValid.

Definition validateInput (wrapper : Element) (showErrors forceShowErrors : bool)
    : option bool * Element :=
  let checkbox := querySelector sel_checkboxBox wrapper in
  match querySelector sel_input wrapper with
  | None => (Some true, wrapper)
  | Some input =>
      let isValid := textVerdict (the input wrapper) in
      if hasAttribute "input-validation-checkbox" (the input wrapper) then
        match validateCheckbox wrapper input with
        | (None, wrapper) => (None, wrapper)
        | (Some isValid, wrapper) =>
            let wrapper :=
              if showErrors
                 && (hasAttribute "data-touched" (the input wrapper) || forceShowErrors)
              then
                if negb isValid then showError wrapper (default input checkbox)
                else hideError wrapper (default input checkbox)
              else wrapper in
            (Some isValid, wrapper)
        end
      else
        let wrapper :=
          if showErrors
             && (hasAttribute "data-touched" (the input wrapper) || forceShowErrors)
          then
            if negb isValid then showError wrapper input
            else hideError wrapper input
          else wrapper in
        (Some isValid, wrapper)
  end.

(** An exception in a call of [validateInput] ends the loop over the
    wrappers and [validateForm] with it: the submit control is not
    reached. *)
Definition validateForm (form : Element) (showErrors forceShowErrors : bool)
    : option bool * Element :=
  let inputWrappers := querySelectorAll sel_wrapper form in
  let '(isFormValid, form) :=
    fold_left
      (fun '(isFormValid, form) wrapper =>
         match isFormValid with
         | None => (None, form)
         | Some isFormValid =>
             match call (fun w => validateInput w showErrors forceShowErrors)
                        (Some true) wrapper form with
             | (None, form) => (None, form)
             | (Some inputValid, form) =>
                 (Some (if negb inputValid then false else isFormValid), form)
             end
         end)
      inputWrappers (Some true, form) in
  match isFormValid with
  | None => (None, form)
  | Some isFormValid =>
      match querySelector sel_submit form with
      | Some submitButton =>
          (Some isFormValid,
           mutate (onData (if isFormValid then classRemove "is-disabled"
                           else classAdd "is-disabled")) submitButton form)
      | None => (Some isFormValid, form)
      end
  end.

(** The verdict of the field of a wrapper under the rules of this
    variant: pass when the wrapper has no field. *)
Definition wrapperVerdict (wrapper : Element) : bool :=
  match querySelector sel_input wrapper with
  | None => true
  | Some input =>
      if hasAttribute "input-validation-checkbox" (the input wrapper)
      then checked (the input wrapper)
      else textVerdict (the input wrapper)
  end.

(** The field of the wrapper is one on which [validateCheckbox] throws:
    it declares the checkbox rule and has no [checked] property. *)
Definition throws (wrapper : Element) : bool :=
  match querySelector sel_input wrapper with
  | None => false
  | Some input =>
      hasAttribute "input-validation-checkbox" (the input wrapper)
      && negb (bool_decide (tagName (the input wrapper) = "input"))
  end.

Definition sel_checkboxLabel : Selector := [[HasClass "w-checkbox"]].   (* '.w-checkbox' *)

(** The [input], [blur] and [change] listeners, and the callback the
    [click] listener defers; [wrapper] is a reference from the form.  An
    exception ends the listener; the document stays as it is then. *)
Definition onInput (wrapper : Ref) (form : Element) : Element :=
  match call (fun w => validateInput w true false) (Some true) wrapper form with
  | (None, form) => form
  | (Some _, form) => snd (validateForm form true false)
  end.

(** The [input] listener of a phone field. *)
Definition onInputPhone (sanitize : Data -> list N -> list N) (wrapper input : Ref)
    (form : Element) : Element :=
  let target := wrapper ++ input in
  match assignValue sanitize (removeAll notPhoneChar (value (the target form)))
                    (the target form) with
  | None => form
  | Some stored =>
      let form := mutate (onData (fun _ => stored)) target form in
      onInput wrapper form
  end.

(** The [submit] listener of a form.  When [validateForm] throws, the
    listener has called nothing on the event. *)
Definition onSubmit (form : Element) : Effects * Element :=
  match validateForm form true true with
  | (None, form) => (noEffects, form)
  | (Some isValid, form) =>
      if negb isValid then
        let firstError := querySelector sel_isError form in
        (mkEffects true true firstError, form)
      else (noEffects, form)
  end.

Inductive Handler : Type :=
| MarkTouched                                  (* focus *)
| SanitizePhone (form wrapper input : Ref)     (* input, phone field *)
| Revalidate (form wrapper : Ref)              (* input, blur, change *)
| RevalidateLater (form wrapper : Ref)         (* click: setTimeout(..., 0) *)
| GuardSubmit.                                 (* submit *)

Record Listener : Type := mkListener {
  target : Ref;
  eventType : string;
  handler : Handler
}.

(** A callback handed to [setTimeout]: it runs as a task of its own, after
    the listener and everything else that is already queued. *)
Inductive Task : Type :=
| RevalidateTask (form wrapper : Ref).

Definition run (task : Task) (document : Element) : Element :=
  match task with
  | RevalidateTask form wrapper =>
      snd (call (fun f => (tt, onInput wrapper f)) tt form document)
  end.

(** Running a listener on the document: its effects on the event, the
    document afterwards and the callbacks it has deferred. *)
Definition dispatch (sanitize : Data -> list N -> list N) (l : Listener)
    (document : Element) : Effects * Element * list Task :=
  match handler l with
  | MarkTouched => (noEffects, mutate onFocus (target l) document, [])
  | SanitizePhone form wrapper input =>
      (call (fun f => (noEffects, onInputPhone sanitize wrapper input f)) noEffects
            form document, [])
  | Revalidate form wrapper =>
      (call (fun f => (noEffects, onInput wrapper f)) noEffects form document, [])
  | RevalidateLater form wrapper =>
      (noEffects, document, [RevalidateTask form wrapper])
  | GuardSubmit =>
      let '(effects, document) := call onSubmit noEffects (target l) document in
      (mkEffects (defaultPrevented effects) (propagationStopped effects)
                 (option_map (app (target l)) (scrolledIntoView effects)),
       document, [])
  end.

(** What [validateForms] does for one wrapper of a form: for a checkbox
    field it mirrors a checked state and listens to [click] on the
    checkbox label and to [change]; for any other field it attaches the
    listeners of the first document. *)
Definition initWrapper (form wrapper : Ref) (document : Element) : Element * list Listener :=
  match querySelectorAt sel_input (form ++ wrapper) document with
  | None => (document, [])
  | Some input =>
      if hasAttribute "input-validation-checkbox" (the input document) then
        let clickListeners :=
          match querySelectorAt sel_checkboxLabel (form ++ wrapper) document with
          | Some checkboxLabel =>
              [mkListener checkboxLabel "click" (RevalidateLater form wrapper)]
          | None => []
          end in
        let document :=
          if default false (checkedProperty (the input document)) then
            let document :=
              mutate (onData (setAttribute "data-checked" (js "true"))) input document in
            match querySelectorAt sel_checkbox (form ++ wrapper) document with
            | Some checkbox =>
                mutate (onData (classAdd "w--redirected-checked")) checkbox document
            | None => document
            end
          else document in
        (document, clickListeners ++ [mkListener input "change" (Revalidate form wrapper)])
      else
        (document,
         [mkListener input "focus" MarkTouched;
          (if hasAttribute "input-validation-phone" (the input document)
           then mkListener input "input"
                  (SanitizePhone form wrapper (drop (length (form ++ wrapper)) input))
           else mkListener input "input" (Revalidate form wrapper));
          mkListener input "blur" (Revalidate form wrapper)])
  end.

(** What [validateForms] does for one form section.  An exception in
    [validateForm] leaves the function: the listeners of this form and
    everything for the sections after it are not reached. *)
Definition initSection (section : Ref) (document : Element) (listeners : list Listener)
    : option unit * (Element * list Listener) :=
  match querySelectorAt sel_form section document with
  | None => (Some tt, (document, listeners))
  | Some form =>
      let errorLabels := querySelectorAllAt sel_errorLabel form document in
      let document :=
        fold_left
          (fun document label =>
             mutate (onData (setAttribute "style" (js "display: none;"))) label document)
          errorLabels document in
      let errorInputs := querySelectorAllAt sel_isError form document in
      let document :=
        fold_left
          (fun document input => mutate (onData (classRemove "is-error")) input document)
          errorInputs document in
      match call (fun f => validateForm f false false) (Some true) form document with
      | (None, document) => (None, (document, listeners))
      | (Some _, document) =>
          let inputWrappers :=
            match deref form document with
            | Some f => querySelectorAll sel_wrapper f
            | None => []
            end in
          let '(document, listeners) :=
            fold_left
              (fun '(document, listeners) wrapper =>
                 let '(document, added) := initWrapper form wrapper document in
                 (document, listeners ++ added))
              inputWrappers (document, listeners) in
          (Some tt, (document, listeners ++ [mkListener form "submit" GuardSubmit]))
      end
  end.

Definition validateForms (document : Element) : option unit * (Element * list Listener) :=
  let formSections := querySelectorAll sel_wForm document in
  fold_left
    (fun '(completion, (document, listeners)) section =>
       match completion with
       | None => (None, (document, listeners))
       | Some _ => initSection section document listeners
       end)
    formSections (Some tt, (document, [])).

End Variant2.

(** ** Vocabulary of the properties *)

(** *** What the validator writes and what it reads

    The validator writes presentation state only: the classes [is-error]
    and [is-disabled], the [style] attribute and the text of the error
    label, and in the second document also the mirror of the checkbox
    state (the attribute [data-checked] and the class
    [w--redirected-checked]).  [erase] forgets exactly that; what remains
    is what the rules and the queries of the validator read. *)
Definition writtenClass (c : string) : Prop :=
  c = "is-error" ∨ c = "is-disabled" ∨ c = "w--redirected-checked".

Definition writtenAttr (a : string) : Prop := a = "style" ∨ a = "data-checked".

Definition eraseData (d : Data) : Data :=
  mkData (tagName d) (delete "style" (delete "data-checked" (attributes d)))
         (filter (fun c => ¬ writtenClass c) (classList d))
         (value d) (checked d) [].

Fixpoint erase (e : Element) : Element :=
  match e with
  | Node d r cs => Node (eraseData d) r (map erase cs)
  end.

(** Selectors that do not look at presentation state. *)
Definition stableSimple (s : Simple) : bool :=
  match s with
  | Tag _ => true
  | HasClass c => bool_decide (¬ writtenClass c)
  | HasAttr a => bool_decide (¬ writtenAttr a)
  | AttrIs a _ => bool_decide (¬ writtenAttr a)
  end.

Definition stable (sel : Selector) : bool := forallb (forallb stableSimple) sel.

Definition read (p : Ref) (root : Element) : option Data := data <$> deref p root.

(** A mutation [f] that acts on the data of its target as [g] does and
    leaves the data of everything below the target alone. *)
Definition actsAs (f : Element -> Element) (g : Data -> Data) : Prop :=
  (forall e, data (f e) = g (data e)) ∧
  (forall e i r, read (i :: r) (f e) = read (i :: r) e).

Definition withText (s : list N) (d : Data) : Data :=
  mkData (tagName d) (attributes d) (classList d) (value d) (checked d) s.

(** [p] is the first attached element below [t], in document order, whose
    data satisfies [P]. *)
Definition firstWhere (P : Data -> bool) (p : Ref) (t : Element) : Prop :=
  exists before x after,
    descendants t = before ++ (p, x) :: after
    ∧ P (data x) = true
    ∧ Forall (fun '(_, y) => P (data y) = false) before.

(** *** The markup the page builder produces

    The element that holds a custom error text has no child elements, and
    field wrappers are not nested in each other. *)
Fixpoint leafTexts (e : Element) : bool :=
  match e with
  | Node d _ cs =>
      (if truthy (getAttribute "input-error-text" d) then forallb removed cs else true)
      && forallb leafTexts cs
  end.

Fixpoint pairwiseApart (ws : list Ref) : bool :=
  match ws with
  | [] => true
  | w :: r =>
      forallb (fun w' => negb (bool_decide (w `prefix_of` w'))
                         && negb (bool_decide (w' `prefix_of` w))) r
      && pairwiseApart r
  end.

Definition wellFormed (form : Element) : bool :=
  leafTexts form && pairwiseApart (querySelectorAll sel_wrapper form).

(** *** The rules, as the specification names them *)

Inductive Rule : Type := LengthRule | PhoneRule | EmailRule | CheckboxRule.

(** The constraint a field declares for a rule: an attribute, or the input
    type for the email rule. *)
Definition declares (input : Data) (r : Rule) : bool :=
  match r with
  | LengthRule => hasAttribute "input-validation-length" input
  | PhoneRule => hasAttribute "input-validation-phone" input
  | EmailRule => bool_decide (type input = js "email")
  | CheckboxRule => hasAttribute "input-validation-checkbox" input
  end.

(** The verdict of a rule, for the length and phone rules of a revision. *)
Definition applyRuleWith (lengthRule : Data -> Number -> bool) (phoneRule : Data -> bool)
    (r : Rule) (input : Data) : bool :=
  match r with
  | LengthRule =>
      lengthRule input
        (parseInt10 (orDefault (getAttribute "input-validation-length" input) (js "0")))
  | PhoneRule => phoneRule input
  | EmailRule => validateEmail input
  | CheckboxRule => checked input
  end.

Definition applyRule : Rule -> Data -> bool := applyRuleWith validateLength validatePhone.

(** The one rule that applies: of the declared ones, the last in the order
    length, phone, email, checkbox. *)
Definition selectedRule (input : Data) : option Rule :=
  last (filter (fun r => declares input r = true)
               [LengthRule; PhoneRule; EmailRule; CheckboxRule]).

(** The number of decimal digits in a value. *)
Fixpoint digitCount (s : list N) : nat :=
  match s with
  | [] => 0
  | c :: r => (if isDigit c then 1 else 0) + digitCount r
  end.

(** *** The aggregation, for any validation pass

    The first document and the older revision have the same
    [validateForm] and the same submit listener, up to the [validateInput]
    they call.  [pass] stands for that call with its display flags,
    [verdict] for the verdict of a wrapper. *)

(** The end of [validateForm]: the class of the submit control. *)
Definition toggleSubmit (st : bool * Element) : bool * Element :=
  match querySelector sel_submit (snd st) with
  | Some submitButton =>
      (fst st,
       mutate (onData (if fst st then classRemove "is-disabled"
                       else classAdd "is-disabled")) submitButton (snd st))
  | None => st
  end.

Section Aggregation.
Variable verdict : Element -> bool.
Variable pass : Element -> bool * Element.

Definition fieldVerdictOf (form : Element) (wrapper : Ref) : bool :=
  match deref wrapper form with
  | Some w => verdict w
  | None => true
  end.

(** The conjunction of the verdicts of all fields of a form. *)
Definition formVerdictOf (form : Element) : bool :=
  forallb (fieldVerdictOf form) (querySelectorAll sel_wrapper form).

(** The loop of [validateForm] over the wrappers. *)
Definition forEachWrapper (ws : list Ref) (st : bool * Element) : bool * Element :=
  fold_left
    (fun '(isFormValid, form) wrapper =>
       let '(inputValid, form) := call pass true wrapper form in
       (if negb inputValid then false else isFormValid, form))
    ws st.

Definition aggregate (form : Element) : bool * Element :=
  toggleSubmit (forEachWrapper (querySelectorAll sel_wrapper form) (true, form)).

Definition guardSubmit (form : Element) : Effects * Element :=
  let '(isValid, form) := aggregate form in
  if negb isValid then
    let firstError := querySelector sel_isError form in
    (mkEffects true true firstError, form)
  else (noEffects, form).
End Aggregation.

(** *** The aggregation of a pass that may throw

    The second document has that [validateForm] too, but its
    [validateInput] may throw: [pass] returns [None] beside the document
    when it has thrown. *)
Section Throwing.
Variable pass : Element -> option bool * Element.

(** The pass as far as the document goes, with the verdict [true] where
    it throws. *)
Definition returning (w : Element) : bool * Element :=
  (default true (fst (pass w)), snd (pass w)).

(** The loop of [validateForm] over the wrappers, left by the first
    exception. *)
Definition forEachWrapperOrThrow (ws : list Ref) (st : option bool * Element)
    : option bool * Element :=
  fold_left
    (fun '(isFormValid, form) wrapper =>
       match isFormValid with
       | None => (None, form)
       | Some isFormValid =>
           match call pass (Some true) wrapper form with
           | (None, form) => (None, form)
           | (Some inputValid, form) =>
               (Some (if negb inputValid then false else isFormValid), form)
           end
       end)
    ws st.

Definition aggregateOrThrow (form : Element) : option bool * Element :=
  match forEachWrapperOrThrow (querySelectorAll sel_wrapper form) (Some true, form) with
  | (None, form) => (None, form)
  | (Some isFormValid, form) => (Some isFormValid, snd (toggleSubmit (isFormValid, form)))
  end.
End Throwing.

(** No textarea declares the checkbox rule, attached or not: the markup
    on which [validateCheckbox] of the second document does not throw. *)
Fixpoint noCheckboxTextarea (e : Element) : bool :=
  match e with
  | Node d _ cs =>
      negb (bool_decide (tagName d = "textarea")
            && hasAttribute "input-validation-checkbox" d)
      && forallb noCheckboxTextarea cs
  end.

(** *** Verdicts and the error display in the first document *)

(** The verdict of the field of a wrapper: that of its rule, and pass when
    the wrapper has no field. *)
Definition wrapperVerdict (wrapper : Element) : bool :=
  match querySelector sel_input wrapper with
  | None => true
  | Some input => ruleVerdict (the input wrapper)
  end.

Definition formVerdict (form : Element) : bool := formVerdictOf wrapperVerdict form.

Definition touched (wrapper : Element) : bool :=
  match querySelector sel_input wrapper with
  | Some input => hasAttribute "data-touched" (the input wrapper)
  | None => false
  end.

(** The gate of [validateInput] in front of [showError] and [hideError]. *)
Definition gateOpen (wrapper : Element) (showErrors forceShowErrors : bool) : bool :=
  showErrors && (touched wrapper || forceShowErrors).

(** The element that carries the error class of the field: the field
    itself, or the checkbox box of a checkbox input when there is one. *)
Definition errorTarget (wrapper : Element) : option Ref :=
  match querySelector sel_input wrapper with
  | Some input =>
      Some (if bool_decide (type (the input wrapper) = js "checkbox")
            then default input (querySelector sel_checkbox wrapper)
            else input)
  | None => None
  end.

Definition hasErrorClass (p : Ref) (wrapper : Element) : bool :=
  contains "is-error" (the p wrapper).

Definition labelStyle (label : Ref) (wrapper : Element) : option (list N) :=
  getAttribute "style" (the label wrapper).

(** The error display is visible: the class is on the field and the label
    is displayed. *)
Definition errorVisibleAt (target label : Ref) (wrapper : Element) : bool :=
  hasErrorClass target wrapper
  && bool_decide (labelStyle label wrapper = Some (js "display: flex;")).

Definition errorVisible (wrapper : Element) : bool :=
  match errorTarget wrapper, querySelector sel_errorLabel wrapper with
  | Some target, Some label => errorVisibleAt target label wrapper
  | _, _ => false
  end.

(** The disabled look of the submit control of a form, when it has one. *)
Definition submitDisabled (form : Element) : option bool :=
  match querySelector sel_submit form with
  | Some submitButton => Some (contains "is-disabled" (the submitButton form))
  | None => None
  end.

(** The checkbox [if] of [validateInput], for a gate [g] and a verdict
    [v]: the class of the checkbox box. *)
Definition boxStep (w : Element) (input : Ref) (g v : bool) : Element :=
  if hasAttribute "input-validation-checkbox" (the input w) then
    match querySelector sel_checkbox w with
    | Some box =>
        if g && negb v
        then mutate (onData (classAdd "is-error")) box w
        else mutate (onData (classRemove "is-error")) box w
    | None => w
    end
  else w.

(** What [validateInput] does to the document, for a gate [g] and a
    verdict [v]. *)
Definition present (w : Element) (input target : Ref) (g v : bool) : Element :=
  if g then
    if v then hideError (boxStep w input g v) target
    else showError (boxStep w input g v) target
  else boxStep w input g v.

(** ** The meaning of the JavaScript values *)

(** The language of a regular expression. *)
Inductive Matches : RegExp -> list N -> Prop :=
| MEps : Matches Eps []
| MClass p c : p c = true -> Matches (Class p) [c]
| MCat a b s t : Matches a s -> Matches b t -> Matches (Cat a b) (s ++ t)
| MAltL a b s : Matches a s -> Matches (Alt a b) s
| MAltR a b s : Matches b s -> Matches (Alt a b) s
| MStarNil a : Matches (Star a) []
| MStarApp a s t : Matches a s -> Matches (Star a) t -> Matches (Star a) (s ++ t).

(** A string of the shape [local@domain.tld]: three non-empty parts free of
    white space and of "@", separated by "@" and by ".". *)
Definition emailShaped (s : list N) : Prop :=
  exists loc dom tld,
    s = loc ++ [64%N] ++ dom ++ [46%N] ++ tld
    ∧ loc ≠ [] ∧ dom ≠ [] ∧ tld ≠ []
    ∧ Forall (fun c => notSpaceNorAt c = true) (loc ++ dom ++ tld).

(** ** Example documents *)

Definition element (tag : string) (attrs : list (string * string))
    (classes : list string) (children : list Element) : Element :=
  Node (mkData tag (list_to_map (map (fun '(k, v) => (k, js v)) attrs)) classes [] false [])
       false children.

Definition field (tag : string) (attrs : list (string * string))
    (classes : list string) (val : string) (isChecked : bool) : Element :=
  Node (mkData tag (list_to_map (map (fun '(k, v) => (k, js v)) attrs)) classes
               (js val) isChecked [])
       false [].

Definition errorLabel (shown : option string) : Element :=
  element "div" (match shown with Some s => [("style", s)] | None => [] end)
          ["input-error-label"]
          [element "span" [("input-error-text", "Too short")] [] []].

(** A text field that must be longer than 3, holding "ab". *)
Definition shortField (attrs : list (string * string)) : Element :=
  element "div" [] ["input-wrapper"]
    [field "input" ([("type", "text"); ("input-validation-length", "3")] ++ attrs) [] "ab" false;
     errorLabel None].

Definition untouchedShort : Element := shortField [].
Definition touchedShort : Element := shortField [("data-touched", "true")].

(** A field whose minimum length is not a number, holding "hello". *)
Definition badMinimum : Data :=
  data (field "input" [("type", "text"); ("input-validation-length", "abc")] [] "hello" false).

(** A phone field holding [val]. *)
Definition phoneField (val : string) : Data :=
  data (field "input" [("type", "tel"); ("input-validation-phone", "")] [] val false).

(** A wrapper without a field, and the short field without its label. *)
Definition noField : Element :=
  element "div" [] ["input-wrapper"] [errorLabel None].
Definition noLabel : Element :=
  element "div" [] ["input-wrapper"]
    [field "input" [("type", "text"); ("input-validation-length", "3")] [] "ab" false].

(** A checked checkbox that also declares a minimum length it does not
    meet. *)
Definition checkedBox : Data :=
  data (field "input" [("type", "checkbox"); ("input-validation-length", "3");
                       ("input-validation-checkbox", "")] [] "" true).

(** A form with a short text field, a valid email field and a submit
    button. *)
Definition demoForm : Element :=
  element "form" [] []
    [untouchedShort;
     element "div" [] ["input-wrapper"]
       [field "input" [("type", "email")] [] "a@b.co" false; errorLabel None];
     field "input" [("type", "submit")] [] "Send" false].

(** A page with one form of two short fields, both untouched. *)
Definition twoFieldPage : Element :=
  element "body" [] []
    [element "div" [] ["w-form"]
       [element "form" [] []
          [untouchedShort; untouchedShort;
           field "input" [("type", "submit")] [] "Send" false]]].

(** A form in which the first error label of an outer wrapper lies in a
    wrapper nested in it: the outer field is an unchecked checkbox, the
    inner one a checked checkbox behind the only checkbox box. *)
Definition nestedBoxes : Element :=
  element "form" [] []
    [element "div" [] ["input-wrapper"]
       [field "input" [("type", "checkbox"); ("input-validation-checkbox", "")] [] "" false;
        element "div" [] ["input-wrapper"]
          [element "div" [] ["w-checkbox-input"] [];
           field "input" [("type", "checkbox"); ("input-validation-checkbox", "")] [] "" true]];
     field "input" [("type", "submit")] [] "Send" false].

(** A form whose short field lies inside the element that holds the custom
    error text. *)
Definition fieldInErrorText : Element :=
  element "form" [] []
    [element "div" [] ["input-wrapper"]
       [element "div" [] ["input-error-label"]
          [element "span" [("input-error-text", "Too short")] []
             [field "input" [("type", "text"); ("input-validation-length", "3")] [] "ab"
                    false]]];
     field "input" [("type", "submit")] [] "Send" false].

(** A form of the second document: the error label of its first wrapper
    lies in a second wrapper nested in it, around a textarea that declares
    the checkbox rule. *)
Definition textareaInErrorText : Element :=
  element "form" [] []
    [element "div" [] ["input-wrapper"]
       [field "input" [("type", "text"); ("input-validation-length", "3")] [] "ab" false;
        element "div" [] ["input-wrapper"]
          [element "div" [] ["input-error-label"]
             [element "span" [("input-error-text", "Too short")] []
                [field "textarea" [("input-validation-checkbox", "")] [] "" false]]]]].

(** The event that runs the [n]-th registered listener. *)
Definition fire (sanitize : Data -> list N -> list N) (n : nat) (listeners : list Listener)
    (document : Element) : Element :=
  match listeners !! n with
  | Some l => snd (dispatch sanitize l document)
  | None => document
  end.

(** ** Vocabulary of the further properties *)

(** A field whose value has [before] in front and [after] behind. *)
Definition padded (before after : list N) (input : Data) : Data :=
  setValue (before ++ value input ++ after) input.

(** The field with its value filtered as the phone [input] listener
    filters it. *)
Definition filtered (input : Data) : Data :=
  setValue (removeAll notPhoneChar (value input)) input.


(** The characters the filter keeps: the digits, "+", "-", "(", ")", "."
    and white space. *)
Definition phoneCharacter (c : N) : Prop :=
  isDigit c = true ∨ c ∈ [43; 45; 40; 41; 46]%N ∨ isWhiteSpace c = true.

#[global] Instance phoneCharacter_dec (c : N) : Decision (phoneCharacter c).
Proof. unfold phoneCharacter. apply _. Defined.

(** A phone field whose value holds every kind of character the filter
    keeps. *)
Definition writtenPhone : Data := phoneField "+1 (234) 567-89.00".

(** Fields whose minimum length is "5px", and empty. *)
Definition looseMinimum : Data :=
  data (field "input" [("type", "text"); ("input-validation-length", "5px")] [] "hello!" false).
Definition emptyMinimum : Data :=
  data (field "input" [("type", "text"); ("input-validation-length", "")] [] " " false).

(** *** What a pass leaves alone *)

(** The trees [t] and [t'] have the same elements, and [R] relates the data
    of every element of [t] to the data it has in [t']. *)
Definition pointwise (R : Data -> Data -> Prop) (t t' : Element) : Prop :=
  forall q, option_Forall2 R (read q t) (read q t').

(** The data [d'] differs from [d] at most in the classes [C], the
    attributes [A] and the text. *)
Definition sameContent (C A : list string) (d d' : Data) : Prop :=
  tagName d' = tagName d
  ∧ value d' = value d
  ∧ checked d' = checked d
  ∧ (forall a, a ∉ A -> getAttribute a d' = getAttribute a d)
  ∧ (forall c, c ∉ C -> contains c d' = contains c d).



(** A wrapper whose error label holds a custom text with markup inside. *)
Definition richLabel : Element :=
  element "div" [] ["input-wrapper"]
    [field "input" [("type", "text"); ("input-validation-length", "3")] [] "ab" false;
     element "div" [] ["input-error-label"]
       [element "span" [("input-error-text", "Too short")] [] [element "b" [] [] []]]].

(** *** The page after [validateForms] *)

(** The data [d'] shows no error that [d] does not show: it has the error
    class only if [d] has it, and its style is that of [d] or hides the
    element. *)
Definition calmer (d d' : Data) : Prop :=
  (contains "is-error" d' = true -> contains "is-error" d = true)
  ∧ (getAttribute "style" d' = getAttribute "style" d
     ∨ getAttribute "style" d' = Some (js "display: none;")).

(** No element of the form carries the error class, and every error label
    of the form is hidden. *)
Definition quietAt (form : Ref) (document : Element) : Prop :=
  querySelectorAllAt sel_isError form document = []
  ∧ forall l, l ∈ querySelectorAllAt sel_errorLabel form document ->
              labelStyle l document = Some (js "display: none;").

(** [p] refers to an element of the form [form] that is attached to it. *)
Definition inForm (form : Ref) (document : Element) (p : Ref) : Prop :=
  exists e r x, deref form document = Some e ∧ p = form ++ r ∧ (r, x) ∈ descendants e.

(** A page whose markup shows an error from the start. *)
Definition noisyPage : Element :=
  element "body" [] []
    [element "div" [] ["w-form"]
       [element "form" [] []
          [element "div" [] ["input-wrapper"]
             [field "input" [("type", "text"); ("input-validation-length", "3")]
                    ["is-error"] "ab" false;
              errorLabel (Some "display: flex;")];
           field "input" [("type", "submit")] [] "Send" false]]].

(** A page of two forms: the first holds a textarea that declares the
    checkbox rule, the second shows an error from the start. *)
Definition brokenPage : Element :=
  element "body" [] []
    [element "div" [] ["w-form"]
       [element "form" [] []
          [element "div" [] ["input-wrapper"]
             [field "textarea" [("input-validation-checkbox", "")] [] "" false]]];
     element "div" [] ["w-form"]
       [element "form" [] []
          [element "div" [] ["input-wrapper"]
             [field "input" [("type", "text"); ("input-validation-length", "3")]
                    ["is-error"] "ab" false;
              errorLabel (Some "display: flex;")]]]].

(** A form of the second document with a short field and a textarea that
    declares the checkbox rule. *)
Definition brokenForm : Element :=
  element "form" [] []
    [untouchedShort;
     element "div" [] ["input-wrapper"]
       [field "textarea" [("input-validation-checkbox", "")] [] "" false]].

(** *** The listeners *)

(** The [input] and [blur] listeners of the first document and of the
    older revision, up to the [validateInput] they call:
    [validateInput(wrapper, true)], then [validateForm(form, true)]. *)
Definition revalidate (pass : Element -> bool * Element) (wrapper : Ref) (form : Element)
    : Element :=
  let '(_, form) := call pass true wrapper form in
  snd (aggregate pass form).

(** A form with a touched and an untouched field, both too short. *)
Definition mixedForm : Element :=
  element "form" [] []
    [touchedShort; untouchedShort; field "input" [("type", "submit")] [] "Send" false].

(** A checkbox field with its box and label; [shown] says whether the
    markup shows the error. *)
Definition checkboxWrapper (isChecked shown : bool) : Element :=
  element "div" [] ["input-wrapper"]
    [element "label" [] ["w-checkbox"]
       [element "div" [] (["w-checkbox-input"; "checkbox"] ++ if shown then ["is-error"] else [])
                [];
        field "input" [("type", "checkbox"); ("input-validation-checkbox", "")] [] "" isChecked];
     errorLabel (if shown then Some "display: flex;" else None)].

(** A form whose checkbox is checked and still shows the error of an
    earlier submission attempt. *)
Definition staleForm : Element :=
  element "form" [] []
    [checkboxWrapper true true; field "input" [("type", "submit")] [] "Send" false].

(** What the listeners other than [focus] leave alone of an element,
    besides its content: whether it shows an error. *)
Definition unshown (d d' : Data) : Prop :=
  getAttribute "data-touched" d' = getAttribute "data-touched" d
  ∧ contains "is-error" d' = contains "is-error" d
  ∧ getAttribute "style" d' = getAttribute "style" d.

(** A checkbox field whose box lacks the class [checkbox]. *)
Definition plainBox : Element :=
  element "div" [] ["input-wrapper"]
    [element "div" [] ["w-checkbox-input"] [];
     field "input" [("type", "checkbox"); ("input-validation-checkbox", "")] [] "" false;
     errorLabel None].

(** The form [f'] has the markup conditions of [f]: its custom error texts
    are leaves, and its field wrappers are those of [f]. *)
Definition sameMarkup (f f' : Element) : Prop :=
  leafTexts f' = true
  ∧ querySelectorAll sel_wrapper f' = querySelectorAll sel_wrapper f
  ∧ wellFormed f' = wellFormed f.



(** A form of the second document with an unchecked checkbox field and a
    short text field. *)
Definition checkboxForm : Element :=
  element "form" [] []
    [checkboxWrapper false false; untouchedShort;
     field "input" [("type", "submit")] [] "Send" false].

(** *** The second document when a pass throws *)

(** The verdict with which [returning] leaves a wrapper of the second
    document: that of the field, and [true] where the pass throws. *)
Definition unfailed (wrapper : Element) : bool :=
  Variant2.throws wrapper || Variant2.wrapperVerdict wrapper.

(** The [input], [blur] and [change] listeners of the second document, up
    to the [validateInput] they call. *)
Definition revalidateOrThrow (pass : Element -> option bool * Element) (wrapper : Ref)
    (form : Element) : Element :=
  match call pass (Some true) wrapper form with
  | (None, form) => form
  | (Some _, form) => snd (aggregateOrThrow pass form)
  end.

(** * Properties *)

(** ** JavaScript values *)

Lemma takeWhile_dropWhile p s : takeWhile p s ++ dropWhile p s = s.
Proof.
  induction s as [|c s IH]; simpl; [done|]. destruct (p c); simpl; [by rewrite IH|done].
Qed.

Lemma takeWhile_all p s : Forall (fun c => p c = true) (takeWhile p s).
Proof.
  induction s as [|c s IH]; simpl; [done|]. destruct (p c) eqn:Hc; [|done].
  by apply Forall_cons.
Qed.

Lemma dropWhile_head p s c : head (dropWhile p s) = Some c -> p c = false.
Proof.
  induction s as [|x s IH]; simpl; [done|].
  destruct (p x) eqn:Hx; [done|]. simpl. by intros [= <-].
Qed.

Lemma dropWhile_stop p s : (forall c, head s = Some c -> p c = false) -> dropWhile p s = s.
Proof. destruct s as [|x s]; simpl; [done|]. intros H. by rewrite (H x). Qed.

Lemma last_rev {A} (l : list A) : last (rev l) = head l.
Proof. rewrite rev_alt. apply (last_reverse l). Qed.

(** [trim] removes a run of white space at either end and nothing else,
    and what remains neither starts nor ends with white space. *)
Lemma trim_spec s :
  exists before after,
    s = before ++ trim s ++ after
    ∧ Forall (fun c => isWhiteSpace c = true) before
    ∧ Forall (fun c => isWhiteSpace c = true) after
    ∧ (forall c, head (trim s) = Some c -> isWhiteSpace c = false)
    ∧ (forall c, last (trim s) = Some c -> isWhiteSpace c = false).
Proof.
  unfold trim, trimEnd, trimStart.
  set (m := dropWhile isWhiteSpace s).
  exists (takeWhile isWhiteSpace s), (rev (takeWhile isWhiteSpace (rev m))).
  assert (rev (dropWhile isWhiteSpace (rev m)) ++ rev (takeWhile isWhiteSpace (rev m)) = m)
    as Hm.
  { rewrite <- rev_app_distr, takeWhile_dropWhile. apply rev_involutive. }
  repeat split.
  - rewrite Hm. symmetry. apply takeWhile_dropWhile.
  - apply takeWhile_all.
  - apply Forall_forall. intros c Hc%list_elem_of_In%in_rev%list_elem_of_In.
    revert c Hc. apply Forall_forall, takeWhile_all.
  - intros c Hc. apply (dropWhile_head isWhiteSpace s).
    fold m. rewrite <- Hm.
    destruct (rev (dropWhile isWhiteSpace (rev m))); [done|]. exact Hc.
  - intros c Hc. apply (dropWhile_head isWhiteSpace (rev m)).
    by rewrite <- last_rev.
Qed.

(** *** Regular expressions *)

Ltac invert H := inversion H; subst; clear H.

Lemma nullable_Matches r : nullable r = true <-> Matches r [].
Proof.
  induction r as [| |p|a IHa b IHb|a IHa b IHb|a IHa]; simpl.
  - split; [done|]. intros H. invert H.
  - split; [constructor|done].
  - split; [done|]. intros H. invert H.
  - rewrite andb_true_iff, IHa, IHb. split.
    + intros [Ha Hb]. exact (MCat a b [] [] Ha Hb).
    + intros H. invert H.
      match goal with E : _ ++ _ = [] |- _ => apply app_eq_nil in E as [-> ->] end.
      done.
  - rewrite orb_true_iff, IHa, IHb. split.
    + intros [H|H]; [by apply MAltL|by apply MAltR].
    + intros H. invert H; auto.
  - split; [constructor|done].
Qed.

Lemma Matches_Star_cons a c s :
  Matches (Star a) (c :: s) ->
  exists s1 s2, s = s1 ++ s2 ∧ Matches a (c :: s1) ∧ Matches (Star a) s2.
Proof.
  assert (forall r u, Matches r u -> forall c s, r = Star a -> u = c :: s ->
            exists s1 s2, s = s1 ++ s2 ∧ Matches a (c :: s1) ∧ Matches (Star a) s2) as H.
  { clear. intros r u H.
    induction H as [| | | | | |a' s0 t H1 _ H2 IH]; intros c0 s' Hr Hu; try done.
    injection Hr as ->. destruct s0 as [|x s0]; simpl in Hu.
    - by apply IH.
    - injection Hu as -> <-. eauto. }
  intros Hm. by apply (H _ _ Hm).
Qed.

Lemma Matches_Cat a b s :
  Matches (Cat a b) s <-> exists s1 s2, s = s1 ++ s2 ∧ Matches a s1 ∧ Matches b s2.
Proof.
  split.
  - intros H. invert H. eauto.
  - intros (s1 & s2 & -> & H1 & H2). by constructor.
Qed.

Lemma Matches_Alt a b s : Matches (Alt a b) s <-> Matches a s ∨ Matches b s.
Proof.
  split.
  - intros H. invert H; auto.
  - intros [H|H]; [by apply MAltL|by apply MAltR].
Qed.

Lemma deriv_Matches r : forall c s, Matches (deriv c r) s <-> Matches r (c :: s).
Proof.
  induction r as [| |p|a IHa b IHb|a IHa b IHb|a IHa]; intros c s; simpl.
  - split; intros H; invert H.
  - split; intros H; invert H.
  - destruct (p c) eqn:Hc.
    + split; intros H; invert H; by constructor.
    + split; intros H; invert H. congruence.
  - assert (Matches (Cat (deriv c a) b) s <->
            exists s1 s2, s = s1 ++ s2 ∧ Matches a (c :: s1) ∧ Matches b s2) as Hcat.
    { rewrite Matches_Cat. by setoid_rewrite IHa. }
    assert (Matches (Cat a b) (c :: s) <->
            (exists s1 s2, s = s1 ++ s2 ∧ Matches a (c :: s1) ∧ Matches b s2)
            ∨ (Matches a [] ∧ Matches b (c :: s))) as Hfull.
    { rewrite Matches_Cat. split.
      - intros ([|x s1] & s2 & Hs & H1 & H2); simpl in Hs.
        + subst. by right.
        + injection Hs as -> ->. left. eauto.
      - intros [(s1 & s2 & -> & H1 & H2)|[H1 H2]].
        + by exists (c :: s1), s2.
        + by exists [], (c :: s). }
    rewrite Hfull. destruct (nullable a) eqn:Hn.
    + rewrite Matches_Alt, Hcat, IHb, <- nullable_Matches, Hn. tauto.
    + rewrite Hcat, <- nullable_Matches, Hn. split; [by left|]. by intros [?|[? _]].
  - by rewrite !Matches_Alt, IHa, IHb.
  - rewrite Matches_Cat. setoid_rewrite IHa. split.
    + intros (s1 & s2 & -> & H1 & H2). exact (MStarApp a (c :: s1) s2 H1 H2).
    + apply Matches_Star_cons.
Qed.

(** [test] decides membership in the language of the pattern. *)
Theorem test_Matches r s : test r s = true <-> Matches r s.
Proof.
  unfold test. revert r. induction s as [|c s IH]; intros r; simpl.
  - apply nullable_Matches.
  - rewrite IH. apply deriv_Matches.
Qed.

Lemma Matches_Class p s : Matches (Class p) s <-> exists c, s = [c] ∧ p c = true.
Proof.
  split.
  - intros H. invert H. eauto.
  - intros (c & -> & Hc). by constructor.
Qed.

Lemma Matches_Star_Class p s :
  Matches (Star (Class p)) s <-> Forall (fun c => p c = true) s.
Proof.
  split.
  - induction s as [|c s IH]; [done|].
    intros (s1 & s2 & -> & H1 & H2)%Matches_Star_cons.
    apply Matches_Class in H1 as (c' & [= -> ->] & Hc). simpl in *.
    apply Forall_cons. auto.
  - induction 1 as [|c t Hc _ IH]; [constructor|].
    exact (MStarApp _ [c] t (MClass p c Hc) IH).
Qed.

Lemma Matches_Plus_Class p s :
  Matches (Plus (Class p)) s <-> s ≠ [] ∧ Forall (fun c => p c = true) s.
Proof.
  unfold Plus. rewrite Matches_Cat. split.
  - intros (s1 & s2 & -> & (c & -> & Hc)%Matches_Class & H2%Matches_Star_Class).
    split; [done|]. by apply Forall_cons.
  - intros [Hne Hall]. destruct s as [|c s]; [done|].
    apply Forall_cons in Hall as [Hc Hall]. exists [c], s.
    split; [done|]. split; [by constructor|by apply Matches_Star_Class].
Qed.

Lemma Matches_Chr c s : Matches (Chr c) s <-> s = [c].
Proof.
  unfold Chr. rewrite Matches_Class. split.
  - by intros (x & -> & ->%N.eqb_eq).
  - intros ->. exists c. split; [done|]. apply N.eqb_refl.
Qed.

(** The email pattern accepts exactly the strings of the shape
    [local@domain.tld]. *)
Theorem emailRegex_shape s : test emailRegex s = true <-> emailShaped s.
Proof.
  rewrite test_Matches. unfold emailRegex, emailShaped.
  rewrite Matches_Cat. split.
  - intros (loc & r1 & -> & Hloc & H1).
    apply Matches_Cat in H1 as (at' & r2 & -> & Hat & H2).
    apply Matches_Cat in H2 as (dom & r3 & -> & Hdom & H3).
    apply Matches_Cat in H3 as (dot & tld & -> & Hdot & Htld).
    apply Matches_Chr in Hat as ->. apply Matches_Chr in Hdot as ->.
    apply Matches_Plus_Class in Hloc as [? ?], Hdom as [? ?], Htld as [? ?].
    exists loc, dom, tld. repeat split; try done. by rewrite !Forall_app.
  - intros (loc & dom & tld & -> & ? & ? & ? & Hall).
    apply Forall_app in Hall as [? [? ?]%Forall_app].
    exists loc, ([64%N] ++ dom ++ [46%N] ++ tld). split; [done|].
    split; [by apply Matches_Plus_Class|].
    apply Matches_Cat. exists [64%N], (dom ++ [46%N] ++ tld). split; [done|].
    split; [by apply Matches_Chr|].
    apply Matches_Cat. exists dom, ([46%N] ++ tld). split; [done|].
    split; [by apply Matches_Plus_Class|].
    apply Matches_Cat. exists [46%N], tld. split; [done|].
    split; [by apply Matches_Chr|by apply Matches_Plus_Class].
Qed.

(** ** The document tree *)

Lemma descendants_unfold d r cs : descendants (Node d r cs) = below 0 cs.
Proof.
  simpl. generalize 0. induction cs as [|c cs IH]; intros i; simpl; [done|].
  by rewrite IH.
Qed.

Lemma the_read p t : the p t = default noData (read p t).
Proof. unfold the, read. by destruct (deref p t). Qed.

Lemma deref_app p q t : deref (p ++ q) t = deref p t ≫= deref q.
Proof.
  revert t. induction p as [|i p IH]; intros t; simpl; [done|].
  destruct (children t !! i); simpl; [apply IH|done].
Qed.

Lemma the_app p q t e : deref p t = Some e -> the (p ++ q) t = the q e.
Proof. intros H. unfold the. by rewrite deref_app, H. Qed.

Lemma deref_mutate f p t : deref p (mutate f p t) = f <$> deref p t.
Proof.
  revert t. induction p as [|i p IH]; intros t; simpl; [done|].
  destruct (children t !! i) as [c|] eqn:Hc; simpl.
  - rewrite list_lookup_insert_eq by (by eapply lookup_lt_Some). apply IH.
  - by rewrite Hc.
Qed.

Lemma deref_mutate_below f p r t :
  deref p (mutate f (p ++ r) t) = mutate f r <$> deref p t.
Proof.
  revert t. induction p as [|i p IH]; intros t; simpl; [done|].
  destruct (children t !! i) as [c|] eqn:Hc; simpl.
  - rewrite list_lookup_insert_eq by (by eapply lookup_lt_Some). apply IH.
  - by rewrite Hc.
Qed.

(** Mutation below [p] is invisible from every reference that neither
    leads to [p] nor passes through it. *)
Lemma deref_mutate_apart f p q t :
  ¬ p `prefix_of` q -> ¬ q `prefix_of` p ->
  deref q (mutate f p t) = deref q t.
Proof.
  revert q t. induction p as [|i p IH]; intros q t Hpq Hqp.
  - destruct Hpq. apply prefix_nil.
  - destruct q as [|j q]; [destruct Hqp; apply prefix_nil|].
    simpl. destruct (children t !! i) as [c|] eqn:Hc; [|done]. simpl.
    destruct (decide (i = j)) as [->|Hij].
    + rewrite list_lookup_insert_eq by (by eapply lookup_lt_Some).
      rewrite Hc. apply IH.
      * intros H. apply Hpq. by apply prefix_cons.
      * intros H. apply Hqp. by apply prefix_cons.
    + by rewrite list_lookup_insert_ne.
Qed.

Lemma mutate_ext f g p t :
  (forall e, deref p t = Some e -> f e = g e) -> mutate f p t = mutate g p t.
Proof.
  revert t. induction p as [|i p IH]; intros t H; simpl in *; [by apply H|].
  destruct (children t !! i) as [c|]; [|done]. by rewrite IH.
Qed.

Lemma mutate_invalid f p t : deref p t = None -> mutate f p t = t.
Proof.
  revert t. induction p as [|i p IH]; intros t H; simpl in *; [done|].
  destruct (children t !! i) as [c|] eqn:Hc; [|done]. rewrite IH by done.
  rewrite list_insert_id by done. by destruct t.
Qed.

(** *** What a query returns *)

Lemma elem_of_below p x i cs :
  (p, x) ∈ below i cs <->
  exists j c q, p = (i + j) :: q ∧ cs !! j = Some c ∧ removed c = false ∧
                ((q = [] ∧ x = c) ∨ (q, x) ∈ descendants c).
Proof.
  revert i. induction cs as [|c cs IH]; intros i; simpl.
  - split; [by intros ?%elem_of_nil|]. by intros (j & c & q & _ & ? & _).
  - rewrite elem_of_app, IH. split.
    + intros [H|(j & c' & q & -> & Hj & Hr & Hx)].
      * destruct (removed c) eqn:Hrc; [by apply elem_of_nil in H|].
        exists 0, c. apply elem_of_cons in H as [H|H].
        -- injection H as -> ->. exists []. rewrite Nat.add_0_r. eauto 10.
        -- apply list_elem_of_fmap in H as ([q y] & Heq & Hy). injection Heq as -> ->.
           exists q. rewrite Nat.add_0_r. eauto 10.
      * exists (S j), c', q. rewrite Nat.add_succ_r. eauto 10.
    + intros (j & c' & q & -> & Hj & Hr & Hx). destruct j as [|j]; simpl in Hj.
      * injection Hj as <-. left. rewrite Hr, Nat.add_0_r.
        destruct Hx as [[-> ->]|Hx]; [apply list_elem_of_here|].
        apply list_elem_of_further, list_elem_of_fmap. by exists (q, x).
      * right. exists j, c', q. rewrite Nat.add_succ_r. eauto 10.
Qed.

Lemma elem_of_descendants p x t :
  (p, x) ∈ descendants t <->
  exists j c q, p = j :: q ∧ children t !! j = Some c ∧ removed c = false ∧
                ((q = [] ∧ x = c) ∨ (q, x) ∈ descendants c).
Proof. destruct t as [d r cs]. rewrite descendants_unfold. apply elem_of_below. Qed.

Lemma descendants_deref t : forall p x, (p, x) ∈ descendants t -> deref p t = Some x.
Proof.
  induction t as [d r cs IH] using Element_ind. intros p x.
  rewrite elem_of_descendants. intros (j & c & q & -> & Hj & _ & Hx). simpl in *.
  rewrite Hj. destruct Hx as [[-> ->]|Hx]; [done|].
  rewrite Forall_forall in IH. apply (IH c); [|done].
  by eapply list_elem_of_lookup_2.
Qed.

Lemma descendants_nonempty t p x : (p, x) ∈ descendants t -> p ≠ [].
Proof. rewrite elem_of_descendants. by intros (j & c & q & -> & _). Qed.

Lemma descendants_trans t :
  forall p e q x, (p, e) ∈ descendants t -> (q, x) ∈ descendants e ->
                  (p ++ q, x) ∈ descendants t.
Proof.
  induction t as [d r cs IH] using Element_ind. intros p e q x Hp Hq.
  apply elem_of_descendants in Hp as (j & c & p' & -> & Hj & Hr & Hp).
  apply elem_of_descendants. exists j, c, (p' ++ q). repeat split; [done..|].
  right. destruct Hp as [[-> ->]|Hp]; [done|].
  rewrite Forall_forall in IH. apply (IH c) with (e := e); [|done..].
  by eapply list_elem_of_lookup_2.
Qed.

Lemma elem_of_querySelectorAll sel t p :
  p ∈ querySelectorAll sel t <->
  exists x, (p, x) ∈ descendants t ∧ matches sel (data x) = true.
Proof.
  unfold querySelectorAll. rewrite list_elem_of_fmap. split.
  - intros ([q x] & Heq & H). simpl in Heq. subst q.
    apply list_elem_of_filter in H as [H1 H2]. by exists x.
  - intros (x & H1 & H2). exists (p, x). split; [done|]. by apply list_elem_of_filter.
Qed.

Lemma querySelector_elem sel t p :
  querySelector sel t = Some p -> p ∈ querySelectorAll sel t.
Proof.
  unfold querySelector. destruct (querySelectorAll sel t); simpl; [done|].
  intros [= ->]. apply list_elem_of_here.
Qed.

Lemma querySelector_found sel t p :
  querySelector sel t = Some p ->
  exists x, deref p t = Some x ∧ matches sel (data x) = true ∧ p ≠ [].
Proof.
  intros (x & Hx & Hm)%querySelector_elem%elem_of_querySelectorAll.
  exists x. eauto using descendants_deref, descendants_nonempty.
Qed.

Lemma querySelector_valid sel t p :
  querySelector sel t = Some p -> is_Some (deref p t).
Proof. intros (x & Hx & _)%querySelector_found. eauto. Qed.

Lemma querySelector_is_Some sel t p :
  p ∈ querySelectorAll sel t -> is_Some (querySelector sel t).
Proof.
  unfold querySelector. destruct (querySelectorAll sel t); simpl; [|eauto].
  by intros ?%elem_of_nil.
Qed.

Lemma querySelectorAt_below sel l t q :
  querySelectorAt sel l t = Some q -> exists r, q = l ++ r.
Proof.
  unfold querySelectorAt. destruct (deref l t); [|done].
  destruct (querySelector sel e) as [r|]; simpl; [|done]. intros [= <-]. eauto.
Qed.

Lemma querySelector_first sel t p :
  querySelector sel t = Some p <-> firstWhere (matches sel) p t.
Proof.
  unfold querySelector, querySelectorAll, firstWhere.
  induction (descendants t) as [|[q y] l IH]; simpl.
  - split; [done|]. intros (b & x & a & H & _). by destruct b.
  - rewrite filter_cons. simpl. destruct (decide (matches sel (data y) = true)) as [Hy|Hy]; simpl.
    + split.
      * intros [= ->]. exists [], y, l. by repeat split.
      * intros ([|[q' y'] b] & x & a & H & Hx & Hb); simpl in H.
        -- by injection H as -> _ _.
        -- injection H as -> -> _. apply Forall_cons in Hb as [Hb _]. congruence.
    + rewrite IH. apply not_true_is_false in Hy. split.
      * intros (b & x & a & -> & Hx & Hb). exists ((q, y) :: b), x, a.
        repeat split; [done|]. by apply Forall_cons.
      * intros ([|[q' y'] b] & x & a & H & Hx & Hb); simpl in H.
        -- injection H as -> -> _. congruence.
        -- injection H as -> -> ->. apply Forall_cons in Hb as [_ Hb].
           by exists b, x, a.
Qed.

(** *** Reading after a mutation *)

Lemma actsAs_onData g : actsAs (onData g) g.
Proof. split; [done|]. intros e i r. by destruct e. Qed.

Lemma actsAs_setTextContent s : actsAs (setTextContent s) (withText s).
Proof.
  split; [by intros []|]. intros [d b cs] i r. unfold read. simpl.
  rewrite list_lookup_fmap. destruct (cs !! i) as [c|]; simpl; [|done].
  destruct r; simpl; by destruct c.
Qed.

Lemma read_mutate f g p q t :
  actsAs f g ->
  read q (mutate f p t) = (if decide (q = p) then g else id) <$> read q t.
Proof.
  intros [H1 H2]. revert q t. induction p as [|i p IH]; intros q t.
  - simpl. destruct q as [|j q].
    + unfold read. simpl. by rewrite H1.
    + rewrite H2. destruct (decide _); [done|]. by destruct (read _ _).
  - simpl. destruct (children t !! i) as [c|] eqn:Hc.
    + destruct q as [|j q].
      * unfold read. simpl. by destruct t.
      * unfold read in *. simpl.
        destruct (decide (j = i)) as [->|Hji].
        -- rewrite list_lookup_insert_eq by (by eapply lookup_lt_Some).
           rewrite Hc. rewrite IH.
           destruct (decide (q = p)) as [->|?].
           ++ by rewrite !decide_True.
           ++ by rewrite !decide_False by congruence.
        -- rewrite list_lookup_insert_ne by done.
           destruct (decide _); [congruence|].
           by destruct (children t !! j) as [cj|]; [destruct (deref q cj)|].
    + destruct (decide (q = i :: p)) as [->|?]; [|by destruct (read q t)].
      unfold read. simpl. by rewrite Hc.
Qed.

Lemma the_mutate_other f g p q t :
  actsAs f g -> q ≠ p -> the q (mutate f p t) = the q t.
Proof.
  intros Hf Hq. rewrite !the_read, (read_mutate f g) by done.
  destruct (decide _); [done|]. by destruct (read q t).
Qed.

Lemma the_mutate_here f g p t :
  actsAs f g -> is_Some (deref p t) -> the p (mutate f p t) = g (the p t).
Proof.
  intros Hf [e He]. rewrite !the_read, (read_mutate f g) by done.
  rewrite decide_True by done. unfold read. by rewrite He.
Qed.

(** A projection of the data that the mutation does not change reads the
    same everywhere afterwards. *)
Lemma the_mutate_kept {A} (proj : Data -> A) f g p q t :
  actsAs f g -> (forall d, proj (g d) = proj d) ->
  proj (the q (mutate f p t)) = proj (the q t).
Proof.
  intros Hf Hp. rewrite !the_read, (read_mutate f g) by done.
  destruct (decide _), (read q t); simpl; by rewrite ?Hp.
Qed.

(** *** Classes and attributes *)

Lemma contains_classAdd c d : contains c (classAdd c d) = true.
Proof.
  unfold contains, classAdd. simpl. apply bool_decide_eq_true.
  case_bool_decide; [done|]. apply elem_of_app. right. apply list_elem_of_here.
Qed.

Lemma contains_classRemove c d : contains c (classRemove c d) = false.
Proof.
  unfold contains, classRemove. simpl. apply bool_decide_eq_false.
  rewrite list_elem_of_filter. tauto.
Qed.

Lemma contains_classRemove_other c c' d :
  contains c (classRemove c' d) = true -> contains c d = true.
Proof.
  unfold contains, classRemove. simpl. rewrite !bool_decide_eq_true.
  rewrite list_elem_of_filter. tauto.
Qed.

Lemma contains_classAdd_ne c c' d : c ≠ c' -> contains c (classAdd c' d) = contains c d.
Proof.
  intros H. unfold contains, classAdd. simpl. apply bool_decide_ext.
  case_bool_decide; [done|]. rewrite elem_of_app, list_elem_of_singleton. tauto.
Qed.

Lemma contains_classRemove_ne c c' d : c ≠ c' -> contains c (classRemove c' d) = contains c d.
Proof.
  intros H. unfold contains, classRemove. simpl. apply bool_decide_ext.
  rewrite list_elem_of_filter. tauto.
Qed.

Lemma getAttribute_setAttribute a v d : getAttribute a (setAttribute a v d) = Some v.
Proof. unfold getAttribute, setAttribute. simpl. apply lookup_insert_eq. Qed.

(** *** Erasure *)

Lemma erase_unfold e : erase e = Node (eraseData (data e)) (removed e) (map erase (children e)).
Proof. by destruct e. Qed.

Lemma data_erase e : data (erase e) = eraseData (data e).
Proof. by destruct e. Qed.

Lemma removed_erase e : removed (erase e) = removed e.
Proof. by destruct e. Qed.

Lemma deref_erase p t : deref p (erase t) = erase <$> deref p t.
Proof.
  revert t. induction p as [|i p IH]; intros t; [done|].
  rewrite erase_unfold. simpl. rewrite list_lookup_fmap.
  destruct (children t !! i); simpl; [apply IH|done].
Qed.

Lemma deref_same p t t' :
  erase t = erase t' -> erase <$> deref p t = erase <$> deref p t'.
Proof. intros H. by rewrite <- !deref_erase, H. Qed.

Lemma valid_same p t t' : erase t = erase t' -> is_Some (deref p t) -> is_Some (deref p t').
Proof.
  intros H [e He]. pose proof (deref_same p _ _ H) as Hd. rewrite He in Hd.
  destruct (deref p t'); [eauto|done].
Qed.

Lemma erase_mutate f p t :
  (forall e, deref p t = Some e -> erase (f e) = erase e) ->
  erase (mutate f p t) = erase t.
Proof.
  revert t. induction p as [|i p IH]; intros t H; simpl; [by apply H|].
  destruct (children t !! i) as [c|] eqn:Hc; [|done].
  rewrite (erase_unfold t). simpl. f_equal.
  rewrite list_fmap_insert. rewrite IH.
  - apply list_insert_id. by rewrite list_lookup_fmap, Hc.
  - intros e He. apply H. simpl. by rewrite Hc.
Qed.

Lemma descendants_erase e :
  descendants (erase e) = map (fun '(p, x) => (p, erase x)) (descendants e).
Proof.
  induction e as [d r cs IH] using Element_ind.
  simpl erase. rewrite !descendants_unfold. generalize 0.
  induction IH as [|c cs Hc _ IHcs]; intros i; simpl; [done|].
  rewrite map_app, IHcs. f_equal.
  replace (removed (erase c)) with (removed c) by (by destruct c).
  destruct (removed c); [done|]. simpl. f_equal.
  rewrite Hc, !map_map. apply map_ext. by intros [p x].
Qed.

Lemma descendants_refs_same t t' :
  erase t = erase t' -> map fst (descendants t) = map fst (descendants t').
Proof.
  intros H. apply (f_equal descendants) in H. rewrite !descendants_erase in H.
  apply (f_equal (map fst)) in H. rewrite !map_map in H.
  assert (forall l : list (Ref * Element),
            map (fun x => fst (let '(p, x0) := x in (p, erase x0))) l = map fst l) as E.
  { intros l. apply map_ext. by intros []. }
  by rewrite !E in H.
Qed.

Lemma attached_same t t' p :
  erase t = erase t' -> p ∈ map fst (descendants t) -> exists x, (p, x) ∈ descendants t'.
Proof.
  intros H Hp. rewrite (descendants_refs_same t t') in Hp by done.
  apply list_elem_of_fmap in Hp as ([q x] & -> & Hx). eauto.
Qed.

Lemma matchesSimple_erase d s :
  stableSimple s = true -> matchesSimple (eraseData d) s = matchesSimple d s.
Proof.
  destruct s as [t|c|a|a v]; simpl; intros Hs.
  - done.
  - apply bool_decide_eq_true in Hs. unfold contains. simpl.
    apply bool_decide_ext. rewrite list_elem_of_filter. tauto.
  - apply bool_decide_eq_true in Hs. unfold hasAttribute, writtenAttr in *. simpl.
    by rewrite !lookup_delete_ne by (intros <-; apply Hs; auto).
  - apply bool_decide_eq_true in Hs. unfold writtenAttr in *.
    by rewrite !lookup_delete_ne by (intros <-; apply Hs; auto).
Qed.

Lemma matches_erase sel d :
  stable sel = true -> matches sel (eraseData d) = matches sel d.
Proof.
  unfold matches, stable. induction sel as [|c sel IH]; simpl; [done|].
  intros [Hc Hsel]%andb_true_iff. rewrite IH by done. f_equal.
  clear IH Hsel. induction c as [|s c IH]; simpl; [done|].
  simpl in Hc. apply andb_true_iff in Hc as [Hs Hc].
  by rewrite matchesSimple_erase, IH.
Qed.

Lemma querySelectorAll_erase sel e :
  stable sel = true -> querySelectorAll sel (erase e) = querySelectorAll sel e.
Proof.
  intros Hs. unfold querySelectorAll. rewrite descendants_erase.
  induction (descendants e) as [|[p x] l IH]; simpl; [done|].
  rewrite !filter_cons. simpl.
  replace (data (erase x)) with (eraseData (data x)) by (by destruct x).
  rewrite matches_erase by done.
  destruct (decide (matches sel (data x) = true)); simpl.
  all: by rewrite IH.
Qed.

Lemma querySelector_erase sel e :
  stable sel = true -> querySelector sel (erase e) = querySelector sel e.
Proof. intros. unfold querySelector. by rewrite querySelectorAll_erase. Qed.

Lemma the_erase p t : the p (erase t) = eraseData (the p t).
Proof.
  unfold the. rewrite deref_erase. destruct (deref p t) as [[d r cs]|]; simpl; [done|].
  unfold eraseData, noData. simpl. f_equal; try (by rewrite !delete_empty).
Qed.

Lemma the_same p t t' : erase t = erase t' -> eraseData (the p t) = eraseData (the p t').
Proof. intros H. by rewrite <- !the_erase, H. Qed.

(** Two trees with the same erasure answer every stable query alike. *)
Lemma querySelector_same sel e e' :
  stable sel = true -> erase e = erase e' -> querySelector sel e = querySelector sel e'.
Proof.
  intros Hs He. by rewrite <- (querySelector_erase sel e), He, querySelector_erase.
Qed.

Lemma querySelectorAll_same sel e e' :
  stable sel = true -> erase e = erase e' -> querySelectorAll sel e = querySelectorAll sel e'.
Proof.
  intros Hs He. by rewrite <- (querySelectorAll_erase sel e), He, querySelectorAll_erase.
Qed.

Lemma written_isError : writtenClass "is-error".
Proof. by left. Qed.

Lemma written_isDisabled : writtenClass "is-disabled".
Proof. by right; left. Qed.

Lemma written_redirected : writtenClass "w--redirected-checked".
Proof. by right; right. Qed.

Lemma eraseData_classAdd c d : writtenClass c -> eraseData (classAdd c d) = eraseData d.
Proof.
  intros Hc. unfold eraseData, classAdd. simpl. f_equal.
  case_bool_decide; [done|]. rewrite filter_app.
  rewrite (filter_cons _ c), filter_nil.
  destruct (decide _) as [?|?]; [done|]. by rewrite app_nil_r.
Qed.

Lemma eraseData_classRemove c d : writtenClass c -> eraseData (classRemove c d) = eraseData d.
Proof.
  intros Hc. unfold eraseData, classRemove. simpl. f_equal.
  rewrite list_filter_filter. apply list_filter_iff.
  intros x. split; [tauto|]. intros Hx. split; [done|]. by intros ->.
Qed.

Lemma eraseData_setAttribute a v d :
  writtenAttr a -> eraseData (setAttribute a v d) = eraseData d.
Proof.
  intros Ha. unfold eraseData, setAttribute. simpl. f_equal.
  apply map_eq. intros k.
  destruct (decide (k = "style")) as [->|H1]; [by rewrite !lookup_delete_eq|].
  rewrite !(lookup_delete_ne _ "style") by done.
  destruct (decide (k = "data-checked")) as [->|H2]; [by rewrite !lookup_delete_eq|].
  rewrite !(lookup_delete_ne _ "data-checked") by done.
  apply lookup_insert_ne. destruct Ha; congruence.
Qed.

Lemma eraseData_setStyle v d : eraseData (setAttribute "style" v d) = eraseData d.
Proof. apply eraseData_setAttribute. by left. Qed.

Lemma erase_onData g e :
  eraseData (g (data e)) = eraseData (data e) -> erase (onData g e) = erase e.
Proof. destruct e as [d r cs]. simpl. by intros ->. Qed.

Lemma erase_mutate_onData g p t :
  (forall d, eraseData (g d) = eraseData d) ->
  erase (mutate (onData g) p t) = erase t.
Proof. intros Hg. apply erase_mutate. intros e _. by apply erase_onData. Qed.

Lemma addError_erase p w : erase (mutate (onData (classAdd "is-error")) p w) = erase w.
Proof. apply erase_mutate_onData. intros d. apply eraseData_classAdd, written_isError. Qed.

Lemma removeError_erase p w : erase (mutate (onData (classRemove "is-error")) p w) = erase w.
Proof. apply erase_mutate_onData. intros d. apply eraseData_classRemove, written_isError. Qed.

Lemma type_erase d : type (eraseData d) = type d.
Proof. unfold type, eraseData. simpl. by rewrite !lookup_delete_ne. Qed.

Lemma type_same p t t' : erase t = erase t' -> type (the p t) = type (the p t').
Proof. intros H. by rewrite <- (type_erase (the p t)), (the_same p t t'), type_erase. Qed.

Lemma hasAttribute_erase a d :
  ¬ writtenAttr a -> hasAttribute a (eraseData d) = hasAttribute a d.
Proof.
  intros H. unfold hasAttribute, eraseData, writtenAttr in *. simpl.
  by rewrite !lookup_delete_ne by (intros <-; apply H; auto).
Qed.

Lemma hasAttribute_same a p t t' :
  ¬ writtenAttr a -> erase t = erase t' -> hasAttribute a (the p t) = hasAttribute a (the p t').
Proof.
  intros Ha H.
  by rewrite <- (hasAttribute_erase a (the p t)), (the_same p t t'), hasAttribute_erase.
Qed.

(** *** Documents whose custom error texts are leaves *)

Lemma leafTexts_erase t : leafTexts (erase t) = leafTexts t.
Proof.
  induction t as [d r cs IH] using Element_ind. simpl.
  unfold getAttribute. simpl. rewrite !lookup_delete_ne by done. f_equal.
  - destruct (truthy _); [|done]. clear IH.
    induction cs as [|c cs IHcs]; simpl; [done|]. rewrite IHcs. by destruct c.
  - induction IH as [|c cs Hc _ IHcs]; simpl; [done|]. by rewrite Hc, IHcs.
Qed.

Lemma leafTexts_same t t' : erase t = erase t' -> leafTexts t = leafTexts t'.
Proof. intros H. by rewrite <- (leafTexts_erase t), H, leafTexts_erase. Qed.

Lemma leafTexts_deref p t e :
  leafTexts t = true -> deref p t = Some e -> leafTexts e = true.
Proof.
  revert t. induction p as [|i p IH]; intros t Ht He; simpl in *; [congruence|].
  destruct (children t !! i) as [c|] eqn:Hc; [|done].
  apply (IH c); [|done]. destruct t as [d r cs]. simpl in *.
  apply andb_true_iff in Ht as [_ Ht]. rewrite forallb_forall in Ht.
  apply Ht. apply list_elem_of_In. by eapply list_elem_of_lookup_2.
Qed.

Lemma setTextContent_erase s e :
  leafTexts e = true -> truthy (getAttribute "input-error-text" (data e)) = true ->
  erase (setTextContent s e) = erase e.
Proof.
  destruct e as [d r cs]. simpl. intros [H _]%andb_true_iff Ht. rewrite Ht in H.
  unfold eraseData. simpl. f_equal.
  induction cs as [|c cs IH]; simpl in *; [done|].
  apply andb_true_iff in H as [Hc H]. rewrite IH by done. f_equal.
  destruct c. simpl in *. by rewrite Hc.
Qed.

(** ** The presenter *)

Lemma hideError_erase w p : erase (hideError w p) = erase w.
Proof.
  unfold hideError.
  destruct (querySelector _ _).
  - rewrite erase_mutate_onData by (intros d; apply eraseData_setStyle).
    apply removeError_erase.
  - apply removeError_erase.
Qed.

Lemma showError_erase w p : leafTexts w = true -> erase (showError w p) = erase w.
Proof.
  intros Hw. unfold showError.
  set (w1 := mutate (onData (classAdd "is-error")) p w).
  assert (erase w1 = erase w) as H1.
  { apply erase_mutate_onData. intros d. apply eraseData_classAdd. by left. }
  destruct (querySelector sel_errorLabel w1) as [label|]; [|done].
  rewrite erase_mutate_onData by (intros d; apply eraseData_setStyle).
  destruct (querySelectorAt sel_errorText label w1) as [q|]; [|done].
  destruct (truthy (getAttribute "input-error-text" (the q w1))) eqn:Ht; [|done].
  rewrite <- H1. apply erase_mutate. intros e He.
  apply setTextContent_erase.
  - apply (leafTexts_deref q w1); [|done]. by rewrite (leafTexts_same w1 w).
  - unfold the in Ht. by rewrite He in Ht.
Qed.

Lemma showError_class w p :
  is_Some (deref p w) -> hasErrorClass p (showError w p) = true.
Proof.
  intros Hp. unfold showError, hasErrorClass.
  set (w1 := mutate (onData (classAdd "is-error")) p w).
  assert (contains "is-error" (the p w1) = true) as H1.
  { unfold w1. rewrite (the_mutate_here _ _ _ _ (actsAs_onData _)) by done.
    apply contains_classAdd. }
  destruct (querySelector sel_errorLabel w1) as [l|]; [|done].
  rewrite (the_mutate_kept (contains "is-error") _ _ _ _ _ (actsAs_onData _)) by done.
  destruct (querySelectorAt sel_errorText l w1) as [q|]; [|done].
  destruct (truthy _); [|done].
  by rewrite (the_mutate_kept (contains "is-error") _ _ _ _ _ (actsAs_setTextContent _)).
Qed.

Lemma showError_style w p l :
  querySelector sel_errorLabel w = Some l ->
  labelStyle l (showError w p) = Some (js "display: flex;").
Proof.
  intros Hl. unfold showError, labelStyle.
  set (w1 := mutate (onData (classAdd "is-error")) p w).
  assert (querySelector sel_errorLabel w1 = Some l) as ->.
  { rewrite <- Hl. apply querySelector_same; [done|]. apply addError_erase. }
  assert (is_Some (deref l w1)) as Hv.
  { apply (valid_same l w); [symmetry; apply addError_erase|]. by eapply querySelector_valid. }
  rewrite (the_mutate_here _ _ _ _ (actsAs_onData _)); [apply getAttribute_setAttribute|].
  destruct (querySelectorAt sel_errorText l w1) as [q|] eqn:Hq; [|done].
  destruct (truthy _); [|done].
  apply querySelectorAt_below in Hq as [r ->].
  rewrite deref_mutate_below. destruct Hv as [e ->]. eauto.
Qed.

Lemma hideError_class w p : hasErrorClass p (hideError w p) = false.
Proof.
  unfold hideError, hasErrorClass.
  set (w1 := mutate (onData (classRemove "is-error")) p w).
  assert (contains "is-error" (the p w1) = false) as H1.
  { unfold w1. rewrite the_read, (read_mutate _ _ _ _ _ (actsAs_onData _)).
    rewrite decide_True by done. destruct (read p w); simpl; [|done].
    apply contains_classRemove. }
  destruct (querySelector sel_errorLabel w1) as [l|]; [|done].
  by rewrite (the_mutate_kept (contains "is-error") _ _ _ _ _ (actsAs_onData _)).
Qed.

Lemma hideError_style w p l :
  querySelector sel_errorLabel w = Some l ->
  labelStyle l (hideError w p) = Some (js "display: none;").
Proof.
  intros Hl. unfold hideError, labelStyle.
  set (w1 := mutate (onData (classRemove "is-error")) p w).
  assert (querySelector sel_errorLabel w1 = Some l) as ->.
  { rewrite <- Hl. apply querySelector_same; [done|]. apply removeError_erase. }
  rewrite (the_mutate_here _ _ _ _ (actsAs_onData _)); [apply getAttribute_setAttribute|].
  apply (valid_same l w); [symmetry; apply removeError_erase|]. by eapply querySelector_valid.
Qed.

Lemma showError_no_label w p :
  querySelector sel_errorLabel w = None ->
  showError w p = mutate (onData (classAdd "is-error")) p w.
Proof.
  intros H. unfold showError.
  by rewrite (querySelector_same sel_errorLabel _ w), H by (done || apply addError_erase).
Qed.

Lemma hideError_no_label w p :
  querySelector sel_errorLabel w = None ->
  hideError w p = mutate (onData (classRemove "is-error")) p w.
Proof.
  intros H. unfold hideError.
  by rewrite (querySelector_same sel_errorLabel _ w), H by (done || apply removeError_erase).
Qed.

(** ** The aggregation, for any validation pass *)

Lemma forallb_pointwise {A} (f g : A -> bool) l :
  (forall x, f x = g x) -> forallb f l = forallb g l.
Proof. intros H. induction l as [|x l IH]; simpl; [done|]. by rewrite H, IH. Qed.

Lemma forallb_false {A} (f : A -> bool) l :
  forallb f l = false -> exists x, x ∈ l ∧ f x = false.
Proof.
  induction l as [|x l IH]; simpl; [done|].
  destruct (f x) eqn:Hx; simpl.
  - intros (y & Hy & Hf)%IH. exists y. split; [by apply list_elem_of_further|done].
  - intros _. exists x. split; [apply list_elem_of_here|done].
Qed.

Lemma forallb_insert_same {A} (f : A -> bool) l i x y :
  l !! i = Some x -> f y = f x -> forallb f (<[i := y]> l) = forallb f l.
Proof.
  revert i. induction l as [|a l IH]; intros [|i]; simpl; try done.
  - by intros [= ->] ->.
  - intros Hi Hf. by rewrite (IH i).
Qed.

Lemma toggleSubmit_fst st : fst (toggleSubmit st) = fst st.
Proof. unfold toggleSubmit. by destruct (querySelector _ _). Qed.

Lemma toggleSubmit_erase st : erase (snd (toggleSubmit st)) = erase (snd st).
Proof.
  unfold toggleSubmit. destruct (querySelector _ _); [|done]. simpl.
  apply erase_mutate_onData. intros d.
  destruct (fst st); [apply eraseData_classRemove|apply eraseData_classAdd];
    apply written_isDisabled.
Qed.

Lemma toggleSubmit_kept {A} (proj : Data -> A) st q :
  (forall d, proj (classAdd "is-disabled" d) = proj d) ->
  (forall d, proj (classRemove "is-disabled" d) = proj d) ->
  proj (the q (snd (toggleSubmit st))) = proj (the q (snd st)).
Proof.
  intros Ha Hr. unfold toggleSubmit. destruct (querySelector _ _); [|done]. simpl.
  apply (the_mutate_kept proj _ _ _ _ _ (actsAs_onData _)).
  intros d. destruct (fst st); [by apply Hr|by apply Ha].
Qed.

Lemma submitDisabled_toggle st :
  submitDisabled (snd (toggleSubmit st))
  = (fun _ => negb (fst st)) <$> querySelector sel_submit (snd st).
Proof.
  unfold toggleSubmit, submitDisabled.
  destruct (querySelector sel_submit (snd st)) as [b|] eqn:Hb; simpl; [|by rewrite Hb].
  rewrite (querySelector_same sel_submit _ (snd st)), Hb.
  - f_equal. rewrite (the_mutate_here _ _ _ _ (actsAs_onData _))
      by (by eapply querySelector_valid).
    destruct (fst st); simpl; [apply contains_classRemove|apply contains_classAdd].
  - done.
  - apply erase_mutate_onData. intros d.
    destruct (fst st); [apply eraseData_classRemove|apply eraseData_classAdd];
    apply written_isDisabled.
Qed.

Section AggregationFacts.
Variable verdict : Element -> bool.
Variable pass : Element -> bool * Element.

(** The pass returns the verdict of the wrapper; the verdict reads no
    presentation state; a pass on a valid field writes presentation state
    only. *)
Hypothesis pass_verdict : forall w, fst (pass w) = verdict w.
Hypothesis verdict_erase : forall w, verdict (erase w) = verdict w.
Hypothesis pass_valid : forall w, fst (pass w) = true -> erase (snd (pass w)) = erase w.

Lemma verdict_same w w' : erase w = erase w' -> verdict w = verdict w'.
Proof. intros H. by rewrite <- (verdict_erase w), H, verdict_erase. Qed.

Lemma fieldVerdictOf_same f f' w :
  erase f = erase f' -> fieldVerdictOf verdict f w = fieldVerdictOf verdict f' w.
Proof.
  intros H. unfold fieldVerdictOf. pose proof (deref_same w _ _ H) as Hd.
  destruct (deref w f) as [e|], (deref w f') as [e'|]; simpl in Hd; try done.
  apply verdict_same. congruence.
Qed.

Lemma formVerdictOf_same f f' :
  erase f = erase f' -> formVerdictOf verdict f = formVerdictOf verdict f'.
Proof.
  intros H. unfold formVerdictOf.
  rewrite (querySelectorAll_same _ f f') by done.
  apply forallb_pointwise. intros w. by apply fieldVerdictOf_same.
Qed.

Lemma formVerdictOf_false f :
  formVerdictOf verdict f = false ->
  exists w e, w ∈ querySelectorAll sel_wrapper f ∧ deref w f = Some e ∧ verdict e = false.
Proof.
  intros (w & Hw & Hv)%forallb_false. unfold fieldVerdictOf in Hv.
  destruct (deref w f) as [e|] eqn:He; [|done]. eauto.
Qed.

Lemma call_pass w t :
  call pass true w t = (fieldVerdictOf verdict t w, mutate (fun x => snd (pass x)) w t).
Proof.
  unfold call, fieldVerdictOf.
  destruct (deref w t) as [e|] eqn:He.
  - destruct (pass e) as [a e'] eqn:Hv. f_equal.
    + by rewrite <- pass_verdict, Hv.
    + apply mutate_ext. intros x Hx. rewrite He in Hx. injection Hx as <-. by rewrite Hv.
  - by rewrite mutate_invalid.
Qed.

Lemma forEachWrapper_cons w ws acc t :
  forEachWrapper pass (w :: ws) (acc, t) =
  forEachWrapper pass ws
    (acc && fieldVerdictOf verdict t w, mutate (fun x => snd (pass x)) w t).
Proof.
  unfold forEachWrapper. simpl. rewrite call_pass.
  by destruct (fieldVerdictOf verdict t w), acc.
Qed.

(** The loop computes the conjunction of the verdicts that the fields
    have on the form as it was before the pass: as long as every field so
    far was valid, only presentation state has been written. *)
Lemma forEachWrapper_verdict f0 ws acc t :
  (acc = true -> erase t = erase f0) ->
  fst (forEachWrapper pass ws (acc, t)) = acc && forallb (fieldVerdictOf verdict f0) ws
  ∧ (fst (forEachWrapper pass ws (acc, t)) = true ->
     erase (snd (forEachWrapper pass ws (acc, t))) = erase f0).
Proof.
  revert acc t. induction ws as [|w ws IH]; intros acc t Hacc.
  - simpl. rewrite andb_true_r. done.
  - rewrite forEachWrapper_cons. simpl forallb.
    destruct acc; simpl.
    + specialize (Hacc eq_refl).
      rewrite (fieldVerdictOf_same t f0 w Hacc).
      destruct (fieldVerdictOf verdict f0 w) eqn:Hw.
      * apply IH. intros _. rewrite <- Hacc. apply erase_mutate. intros e He.
        apply pass_valid. rewrite pass_verdict.
        rewrite <- (fieldVerdictOf_same t f0 w Hacc) in Hw.
        unfold fieldVerdictOf in Hw. by rewrite He in Hw.
      * apply IH. done.
    + apply IH. done.
Qed.

Lemma aggregate_verdict f : fst (aggregate pass f) = formVerdictOf verdict f.
Proof.
  unfold aggregate. rewrite toggleSubmit_fst.
  by destruct (forEachWrapper_verdict f (querySelectorAll sel_wrapper f) true f
                 (fun _ => eq_refl)) as [-> _].
Qed.

Lemma guardSubmit_eq f :
  guardSubmit pass f =
  (if formVerdictOf verdict f then noEffects
   else mkEffects true true (querySelector sel_isError (snd (aggregate pass f))),
   snd (aggregate pass f)).
Proof.
  unfold guardSubmit. rewrite <- aggregate_verdict.
  destruct (aggregate pass f) as [v f']. by destruct v.
Qed.

(** *** Wrappers that are not nested *)

Lemma forEachWrapper_frame ws acc t q :
  Forall (fun w => ¬ w `prefix_of` q ∧ ¬ q `prefix_of` w) ws ->
  deref q (snd (forEachWrapper pass ws (acc, t))) = deref q t.
Proof.
  revert acc t. induction ws as [|w ws IH]; intros acc t H; [done|].
  apply Forall_cons in H as [[H1 H2] H]. rewrite forEachWrapper_cons, IH by done.
  by apply deref_mutate_apart.
Qed.

Lemma forEachWrapper_final ws acc t w :
  pairwiseApart ws = true -> w ∈ ws ->
  deref w (snd (forEachWrapper pass ws (acc, t))) = (fun e => snd (pass e)) <$> deref w t.
Proof.
  revert acc t. induction ws as [|w0 ws IH]; intros acc t Hws Hw.
  - by apply elem_of_nil in Hw.
  - simpl in Hws. apply andb_true_iff in Hws as [H0 Hws].
    rewrite forallb_forall in H0. rewrite forEachWrapper_cons.
    apply elem_of_cons in Hw as [->|Hw].
    + rewrite forEachWrapper_frame; [apply deref_mutate|].
      apply Forall_forall. intros w Hw. apply list_elem_of_In, H0 in Hw.
      apply andb_true_iff in Hw as [?%negb_true_iff%bool_decide_eq_false
                                      ?%negb_true_iff%bool_decide_eq_false].
      done.
    + rewrite IH by done. f_equal. apply deref_mutate_apart.
      all: apply list_elem_of_In, H0 in Hw;
        apply andb_true_iff in Hw as [?%negb_true_iff%bool_decide_eq_false
                                        ?%negb_true_iff%bool_decide_eq_false]; done.
Qed.

(** After the aggregation over wrappers that are not nested, every wrapper
    is as its own pass left it, up to the class of the submit control. *)
Lemma aggregate_final f w e q :
  pairwiseApart (querySelectorAll sel_wrapper f) = true ->
  w ∈ querySelectorAll sel_wrapper f -> deref w f = Some e ->
  hasErrorClass (w ++ q) (snd (aggregate pass f)) = hasErrorClass q (snd (pass e))
  ∧ labelStyle (w ++ q) (snd (aggregate pass f)) = labelStyle q (snd (pass e)).
Proof.
  intros Hws Hw He. unfold aggregate, hasErrorClass, labelStyle.
  rewrite (toggleSubmit_kept (contains "is-error")), (toggleSubmit_kept (getAttribute "style")).
  - rewrite (the_app w q _ (snd (pass e))); [done|].
    by rewrite (forEachWrapper_final _ true f w), He.
  - done.
  - done.
  - intros d. by apply contains_classAdd_ne.
  - intros d. by apply contains_classRemove_ne.
Qed.

(** *** Documents whose custom error texts are leaves *)

Hypothesis pass_leaf : forall w, leafTexts w = true -> erase (snd (pass w)) = erase w.

Lemma forEachWrapper_erase ws acc t :
  leafTexts t = true -> erase (snd (forEachWrapper pass ws (acc, t))) = erase t.
Proof.
  revert acc t. induction ws as [|w ws IH]; intros acc t Ht; [done|].
  rewrite forEachWrapper_cons.
  assert (erase (mutate (fun x => snd (pass x)) w t) = erase t) as H.
  { apply erase_mutate. intros e He. apply pass_leaf. by eapply leafTexts_deref. }
  rewrite IH; [done|]. by rewrite (leafTexts_same _ t).
Qed.

Lemma aggregate_erase f : leafTexts f = true -> erase (snd (aggregate pass f)) = erase f.
Proof.
  intros Hf. unfold aggregate. rewrite toggleSubmit_erase. by apply forEachWrapper_erase.
Qed.

Lemma submitDisabled_aggregate f :
  leafTexts f = true ->
  submitDisabled (snd (aggregate pass f))
  = (fun _ => negb (formVerdictOf verdict f)) <$> querySelector sel_submit f.
Proof.
  intros Hf. rewrite <- (aggregate_verdict f).
  unfold aggregate. rewrite submitDisabled_toggle, toggleSubmit_fst.
  by rewrite (querySelector_same sel_submit _ f) by (done || by apply forEachWrapper_erase).
Qed.

(** On a submission attempt: nothing happens to the event when every field
    passes; otherwise the default is prevented, propagation is stopped,
    and the page scrolls to the first element that carries [is-error],
    which exists as soon as the pass on a failing field leaves that class
    on an element of its wrapper. *)
Lemma guardSubmit_spec f :
  wellFormed f = true ->
  (forall e, verdict e = false ->
     exists t x, (t, x) ∈ descendants e ∧ hasErrorClass t (snd (pass e)) = true) ->
  (formVerdictOf verdict f = true -> fst (guardSubmit pass f) = noEffects)
  ∧ (formVerdictOf verdict f = false ->
     defaultPrevented (fst (guardSubmit pass f)) = true
     ∧ propagationStopped (fst (guardSubmit pass f)) = true
     ∧ exists p, scrolledIntoView (fst (guardSubmit pass f)) = Some p
                 ∧ firstWhere (contains "is-error") p (snd (guardSubmit pass f))).
Proof.
  intros [Hleaf Hapart]%andb_true_iff Hmark. rewrite guardSubmit_eq. simpl.
  split; [by intros ->|]. intros Hv. rewrite Hv. simpl. do 2 (split; [done|]).
  destruct (formVerdictOf_false f Hv) as (w & e & Hw & He & Hfail).
  destruct (Hmark e Hfail) as (t & y & Hy & Hclass).
  destruct (aggregate_final f w e t Hapart Hw He) as [Hc _]. rewrite Hclass in Hc.
  assert (exists x, (w ++ t, x) ∈ descendants (snd (aggregate pass f))) as [x Hx].
  { apply (attached_same f); [symmetry; by apply aggregate_erase|].
    apply elem_of_querySelectorAll in Hw as (e' & He' & _).
    assert (e' = e) as -> by (apply descendants_deref in He'; congruence).
    apply list_elem_of_fmap. exists (w ++ t, y). split; [done|].
    by apply (descendants_trans f w e). }
  assert (is_Some (querySelector sel_isError (snd (aggregate pass f)))) as [p Hp].
  { apply (querySelector_is_Some _ _ (w ++ t)). apply elem_of_querySelectorAll.
    exists x. split; [done|]. simpl. rewrite orb_false_r, andb_true_r.
    unfold hasErrorClass, the in Hc. apply descendants_deref in Hx.
    by rewrite Hx in Hc. }
  exists p. split; [done|]. apply querySelector_first in Hp.
  destruct Hp as (b & z & a & H1 & H2 & H3). exists b, z, a. repeat split; [done| |].
  - simpl in H2. by rewrite orb_false_r, andb_true_r in H2.
  - eapply Forall_impl; [exact H3|]. intros [q u]. simpl. by rewrite orb_false_r, andb_true_r.
Qed.

End AggregationFacts.

(** Two aggregation passes in a row, with possibly different display
    flags: the second returns the verdict of the first and leaves the
    submit control as the first left it. *)
Lemma aggregate_twice verdict pass pass' f :
  (forall w, fst (pass w) = verdict w) -> (forall w, fst (pass' w) = verdict w) ->
  (forall w, verdict (erase w) = verdict w) ->
  (forall w, fst (pass w) = true -> erase (snd (pass w)) = erase w) ->
  (forall w, fst (pass' w) = true -> erase (snd (pass' w)) = erase w) ->
  (forall w, leafTexts w = true -> erase (snd (pass w)) = erase w) ->
  (forall w, leafTexts w = true -> erase (snd (pass' w)) = erase w) ->
  leafTexts f = true ->
  fst (aggregate pass f) = formVerdictOf verdict f
  ∧ submitDisabled (snd (aggregate pass f))
    = (fun _ => negb (formVerdictOf verdict f)) <$> querySelector sel_submit f
  ∧ fst (aggregate pass' (snd (aggregate pass f))) = fst (aggregate pass f)
  ∧ submitDisabled (snd (aggregate pass' (snd (aggregate pass f))))
    = submitDisabled (snd (aggregate pass f)).
Proof.
  intros H1 H1' H2 H3 H3' H4 H4' Hf.
  assert (erase (snd (aggregate pass f)) = erase f) as He
    by (by apply (aggregate_erase verdict)).
  assert (leafTexts (snd (aggregate pass f)) = true) as Hf'
    by (by rewrite (leafTexts_same _ f)).
  rewrite (aggregate_verdict verdict pass), (aggregate_verdict verdict pass') by done.
  rewrite (submitDisabled_aggregate verdict pass), (submitDisabled_aggregate verdict pass')
    by done.
  rewrite (formVerdictOf_same verdict H2 (snd (aggregate pass f)) f) by done.
  rewrite (querySelector_same sel_submit (snd (aggregate pass f)) f) by done.
  done.
Qed.

(** ** One validation pass *)

Lemma boxStep_erase w i g v : erase (boxStep w i g v) = erase w.
Proof.
  unfold boxStep. destruct (hasAttribute _ _); [|done].
  destruct (querySelector sel_checkbox w); [|done].
  destruct (_ && _); [apply addError_erase|apply removeError_erase].
Qed.

Lemma present_erase_valid w i t g : erase (present w i t g true) = erase w.
Proof.
  unfold present. destruct g; rewrite ?hideError_erase; apply boxStep_erase.
Qed.

Lemma present_erase w i t g v : leafTexts w = true -> erase (present w i t g v) = erase w.
Proof.
  intros Hw. unfold present.
  assert (leafTexts (boxStep w i g v) = true) as Hl
    by (by rewrite (leafTexts_same _ w) by apply boxStep_erase).
  destruct g, v; rewrite ?hideError_erase, ?showError_erase by done; apply boxStep_erase.
Qed.

Lemma errorTarget_valid w t : errorTarget w = Some t -> exists x, (t, x) ∈ descendants w.
Proof.
  unfold errorTarget. destruct (querySelector sel_input w) as [i|] eqn:Hi; [|done].
  intros [= <-].
  assert (forall sel p, querySelector sel w = Some p -> exists x, (p, x) ∈ descendants w) as H.
  { intros sel p (x & Hx & _)%querySelector_elem%elem_of_querySelectorAll. eauto. }
  destruct (bool_decide _); [|by eapply H].
  destruct (querySelector sel_checkbox w) eqn:Hb; simpl; by eapply H.
Qed.


(** With the gate open, the pass leaves the error class on the field
    exactly when the rule failed, and sets the label's style accordingly. *)
Lemma present_class_open w i t v :
  errorTarget w = Some t -> hasErrorClass t (present w i t true v) = negb v.
Proof.
  intros Ht. unfold present. destruct v; simpl; [apply hideError_class|].
  apply showError_class. apply (valid_same t w); [symmetry; apply boxStep_erase|].
  destruct (errorTarget_valid w t Ht) as [x Hx%descendants_deref]. eauto.
Qed.

Lemma present_style_open w i t l v :
  querySelector sel_errorLabel w = Some l ->
  labelStyle l (present w i t true v)
  = Some (js (if v then "display: none;" else "display: flex;")).
Proof.
  intros Hl. unfold present.
  assert (querySelector sel_errorLabel (boxStep w i true v) = Some l) as Hl'.
  { rewrite <- Hl. apply querySelector_same; [done|]. apply boxStep_erase. }
  destruct v; [by apply hideError_style|by apply showError_style].
Qed.



(** *** The first document *)

Lemma ruleVerdict_erase d : ruleVerdict (eraseData d) = ruleVerdict d.
Proof.
  unfold ruleVerdict. rewrite type_erase.
  unfold hasAttribute, getAttribute, validateLength, validatePhone, validateEmail,
    validateCheckbox, eraseData. simpl.
  by rewrite !lookup_delete_ne.
Qed.

Lemma wrapperVerdict_erase w : wrapperVerdict (erase w) = wrapperVerdict w.
Proof.
  unfold wrapperVerdict. rewrite querySelector_erase by done.
  destruct (querySelector sel_input w); [|done].
  by rewrite the_erase, ruleVerdict_erase.
Qed.

Lemma validateInput_verdict w se fo : fst (validateInput w se fo) = wrapperVerdict w.
Proof.
  unfold validateInput, wrapperVerdict. by destruct (querySelector sel_input w).
Qed.

Lemma validateInput_none w se fo :
  querySelector sel_input w = None -> validateInput w se fo = (true, w).
Proof. intros H. unfold validateInput. by rewrite H. Qed.

(** [validateInput] on a wrapper with a field: the verdict of the rule,
    and the presentation for that verdict behind the gate. *)
Lemma validateInput_eq w i t se fo :
  querySelector sel_input w = Some i -> errorTarget w = Some t ->
  validateInput w se fo
  = (wrapperVerdict w, present w i t (gateOpen w se fo) (wrapperVerdict w)).
Proof.
  intros Hi Ht.
  assert (validateInput w se fo =
    (let g := se && (hasAttribute "data-touched" (the i w) || fo) in
     let w0 := boxStep w i g (ruleVerdict (the i w)) in
     (ruleVerdict (the i w),
      if se && (hasAttribute "data-touched" (the i w0) || fo) then
        if negb (ruleVerdict (the i w)) then
          if bool_decide (type (the i w0) = js "checkbox")
          then showError w0 (default i (querySelector sel_checkbox w))
          else showError w0 i
        else
          if bool_decide (type (the i w0) = js "checkbox")
          then hideError w0 (default i (querySelector sel_checkbox w))
          else hideError w0 i
      else w0))) as ->.
  { unfold validateInput, boxStep. by rewrite Hi. }
  cbv zeta.
  rewrite (type_same i _ w) by apply boxStep_erase.
  rewrite (hasAttribute_same "data-touched" i _ w)
    by (apply boxStep_erase || (unfold writtenAttr; intros [|]; done)).
  unfold wrapperVerdict, gateOpen, touched, errorTarget, present in *. rewrite Hi in *.
  injection Ht as <-. f_equal.
  destruct (se && _); [|done].
  by destruct (ruleVerdict _), (bool_decide _).
Qed.

Lemma validateInput_erase_valid w se fo :
  fst (validateInput w se fo) = true -> erase (snd (validateInput w se fo)) = erase w.
Proof.
  destruct (querySelector sel_input w) as [i|] eqn:Hi.
  - assert (exists t, errorTarget w = Some t) as [t Ht].
    { unfold errorTarget. rewrite Hi. eauto. }
    rewrite (validateInput_eq w i t) by done. simpl. intros ->. apply present_erase_valid.
  - by rewrite validateInput_none.
Qed.

Lemma validateInput_erase w se fo :
  leafTexts w = true -> erase (snd (validateInput w se fo)) = erase w.
Proof.
  intros Hw. destruct (querySelector sel_input w) as [i|] eqn:Hi.
  - assert (exists t, errorTarget w = Some t) as [t Ht].
    { unfold errorTarget. rewrite Hi. eauto. }
    rewrite (validateInput_eq w i t) by done. by apply present_erase.
  - by rewrite validateInput_none.
Qed.

(** A pass with the gate closed on a field without the checkbox attribute
    does not touch the document at all. *)
Lemma validateInput_closed_id w i se fo :
  querySelector sel_input w = Some i ->
  hasAttribute "input-validation-checkbox" (the i w) = false ->
  gateOpen w se fo = false ->
  snd (validateInput w se fo) = w.
Proof.
  intros Hi Hc Hg.
  assert (exists t, errorTarget w = Some t) as [t Ht].
  { unfold errorTarget. rewrite Hi. eauto. }
  rewrite (validateInput_eq w i t) by done. simpl. rewrite Hg.
  unfold present, boxStep. by rewrite Hc.
Qed.

Lemma validateForm_aggregate f se fo :
  validateForm f se fo = aggregate (fun w => validateInput w se fo) f.
Proof.
  unfold validateForm, aggregate, toggleSubmit, forEachWrapper.
  destruct (fold_left _ _ _) as [v f1]. simpl.
  by destruct (querySelector sel_submit f1).
Qed.

Lemma onSubmit_guardSubmit f :
  onSubmit f = guardSubmit (fun w => validateInput w true true) f.
Proof. unfold onSubmit, guardSubmit. by rewrite validateForm_aggregate. Qed.

Lemma validateForm_verdict f se fo : fst (validateForm f se fo) = formVerdict f.
Proof.
  rewrite validateForm_aggregate.
  apply (aggregate_verdict wrapperVerdict);
    auto using validateInput_verdict, wrapperVerdict_erase, validateInput_erase_valid.
Qed.

Lemma gateOpen_force w : gateOpen w true true = true.
Proof. unfold gateOpen. by rewrite orb_true_r. Qed.

Lemma wrapperVerdict_false w :
  wrapperVerdict w = false -> exists i t, querySelector sel_input w = Some i ∧ errorTarget w = Some t.
Proof.
  unfold wrapperVerdict, errorTarget.
  destruct (querySelector sel_input w) as [i|]; [eauto|done].
Qed.

(** *** The older revision *)

Lemma part000_ruleVerdict_erase d : Part000.ruleVerdict (eraseData d) = Part000.ruleVerdict d.
Proof.
  unfold Part000.ruleVerdict. rewrite type_erase.
  unfold hasAttribute, getAttribute, Part000.validateLength, Part000.validatePhone,
    validateEmail, validateCheckbox, eraseData. simpl.
  by rewrite !lookup_delete_ne.
Qed.

Lemma part000_wrapperVerdict_erase w :
  Part000.wrapperVerdict (erase w) = Part000.wrapperVerdict w.
Proof.
  unfold Part000.wrapperVerdict. rewrite querySelector_erase by done.
  destruct (querySelector sel_input w); [|done].
  by rewrite the_erase, part000_ruleVerdict_erase.
Qed.

Lemma part000_validateInput_verdict w se :
  fst (Part000.validateInput w se) = Part000.wrapperVerdict w.
Proof.
  unfold Part000.validateInput, Part000.wrapperVerdict.
  by destruct (querySelector sel_input w).
Qed.

Lemma part000_validateInput_none w se :
  querySelector sel_input w = None -> Part000.validateInput w se = (true, w).
Proof. intros H. unfold Part000.validateInput. by rewrite H. Qed.

(** The older [validateInput] presents behind [showErrors] alone. *)
Lemma part000_validateInput_eq w i t se :
  querySelector sel_input w = Some i -> errorTarget w = Some t ->
  Part000.validateInput w se
  = (Part000.wrapperVerdict w, present w i t se (Part000.wrapperVerdict w)).
Proof.
  intros Hi Ht.
  assert (Part000.validateInput w se =
    (let w0 := boxStep w i se (Part000.ruleVerdict (the i w)) in
     (Part000.ruleVerdict (the i w),
      if se then
        if negb (Part000.ruleVerdict (the i w)) then
          if bool_decide (type (the i w0) = js "checkbox")
          then showError w0 (default i (querySelector sel_checkbox w))
          else showError w0 i
        else
          if bool_decide (type (the i w0) = js "checkbox")
          then hideError w0 (default i (querySelector sel_checkbox w))
          else hideError w0 i
      else w0))) as ->.
  { unfold Part000.validateInput, boxStep. by rewrite Hi. }
  cbv zeta.
  rewrite (type_same i _ w) by apply boxStep_erase.
  unfold Part000.wrapperVerdict, errorTarget, present in *. rewrite Hi in *.
  injection Ht as <-. f_equal.
  destruct se; [|done].
  by destruct (Part000.ruleVerdict _), (bool_decide _).
Qed.

Lemma part000_validateInput_erase_valid w se :
  fst (Part000.validateInput w se) = true -> erase (snd (Part000.validateInput w se)) = erase w.
Proof.
  destruct (querySelector sel_input w) as [i|] eqn:Hi.
  - assert (exists t, errorTarget w = Some t) as [t Ht].
    { unfold errorTarget. rewrite Hi. eauto. }
    rewrite (part000_validateInput_eq w i t) by done. simpl. intros ->.
    apply present_erase_valid.
  - by rewrite part000_validateInput_none.
Qed.

Lemma part000_validateInput_erase w se :
  leafTexts w = true -> erase (snd (Part000.validateInput w se)) = erase w.
Proof.
  intros Hw. destruct (querySelector sel_input w) as [i|] eqn:Hi.
  - assert (exists t, errorTarget w = Some t) as [t Ht].
    { unfold errorTarget. rewrite Hi. eauto. }
    rewrite (part000_validateInput_eq w i t) by done. by apply present_erase.
  - by rewrite part000_validateInput_none.
Qed.

Lemma part000_validateForm_aggregate f se :
  Part000.validateForm f se = aggregate (fun w => Part000.validateInput w se) f.
Proof.
  unfold Part000.validateForm, aggregate, toggleSubmit, forEachWrapper.
  destruct (fold_left _ _ _) as [v f1]. simpl.
  by destruct (querySelector sel_submit f1).
Qed.

Lemma part000_onSubmit_guardSubmit f :
  Part000.onSubmit f = guardSubmit (fun w => Part000.validateInput w true) f.
Proof. unfold Part000.onSubmit, guardSubmit. by rewrite part000_validateForm_aggregate. Qed.

Lemma part000_wrapperVerdict_false w :
  Part000.wrapperVerdict w = false ->
  exists i t, querySelector sel_input w = Some i ∧ errorTarget w = Some t.
Proof.
  unfold Part000.wrapperVerdict, errorTarget.
  destruct (querySelector sel_input w) as [i|]; [eauto|done].
Qed.

(** ** The aggregation of a pass that may throw *)

Lemma forEachWrapper_step (p : Element -> bool * Element) w ws a t :
  forEachWrapper p (w :: ws) (a, t)
  = forEachWrapper p ws (a && fst (call p true w t), snd (call p true w t)).
Proof.
  unfold forEachWrapper. simpl. destruct (call p true w t) as [v t']. by destruct v, a.
Qed.

Section ThrowingFacts.
Variable pass : Element -> option bool * Element.

Lemma call_returning w t :
  call (returning pass) true w t
  = (default true (fst (call pass (Some true) w t)), snd (call pass (Some true) w t)).
Proof.
  unfold call, returning. destruct (deref w t) as [e|]; [|done]. by destruct (pass e).
Qed.

Lemma forEachWrapperOrThrow_thrown ws t :
  forEachWrapperOrThrow pass ws (None, t) = (None, t).
Proof. induction ws as [|w ws IH]; [done|]. exact IH. Qed.

Lemma forEachWrapperOrThrow_cons w ws a t :
  forEachWrapperOrThrow pass (w :: ws) (Some a, t)
  = match fst (call pass (Some true) w t) with
    | None => (None, snd (call pass (Some true) w t))
    | Some v =>
        forEachWrapperOrThrow pass ws (Some (a && v), snd (call pass (Some true) w t))
    end.
Proof.
  unfold forEachWrapperOrThrow at 1. simpl.
  destruct (call pass (Some true) w t) as [[v|] t']; simpl.
  - by destruct v, a.
  - apply forEachWrapperOrThrow_thrown.
Qed.

(** Whatever happens, the loop leaves the document as the loop of the
    returning pass over the first wrappers leaves it. *)
Lemma forEachWrapperOrThrow_prefix ws a t :
  exists ws1, ws1 `prefix_of` ws
    ∧ snd (forEachWrapperOrThrow pass ws (Some a, t))
      = snd (forEachWrapper (returning pass) ws1 (a, t)).
Proof.
  revert a t. induction ws as [|w ws IH]; intros a t.
  - by exists [].
  - rewrite forEachWrapperOrThrow_cons.
    destruct (fst (call pass (Some true) w t)) as [v|] eqn:Hv.
    + destruct (IH (a && v) (snd (call pass (Some true) w t))) as (ws1 & Hp & ->).
      exists (w :: ws1). split; [by apply prefix_cons|].
      by rewrite forEachWrapper_step, call_returning, Hv.
    + exists [w]. split; [apply prefix_cons, prefix_nil|].
      by rewrite forEachWrapper_step, call_returning.
Qed.

(** When the loop returns, it is the loop of the returning pass. *)
Lemma forEachWrapperOrThrow_returns ws a t v :
  fst (forEachWrapperOrThrow pass ws (Some a, t)) = Some v ->
  forEachWrapperOrThrow pass ws (Some a, t)
  = (Some (fst (forEachWrapper (returning pass) ws (a, t))),
     snd (forEachWrapper (returning pass) ws (a, t))).
Proof.
  revert a t. induction ws as [|w ws IH]; intros a t; [done|].
  rewrite forEachWrapperOrThrow_cons, forEachWrapper_step, call_returning.
  destruct (fst (call pass (Some true) w t)) as [x|]; [|done]. apply IH.
Qed.

(** On documents on which the pass never throws, the loop returns. *)
Lemma forEachWrapperOrThrow_safe (I : Element -> Prop) ws a t :
  (forall t w e, I t -> deref w t = Some e -> is_Some (fst (pass e))) ->
  (forall t w, I t -> I (snd (call pass (Some true) w t))) ->
  I t ->
  forEachWrapperOrThrow pass ws (Some a, t)
  = (Some (fst (forEachWrapper (returning pass) ws (a, t))),
     snd (forEachWrapper (returning pass) ws (a, t))).
Proof.
  intros Hsafe Hkeep. revert a t. induction ws as [|w ws IH]; intros a t Ht; [done|].
  rewrite forEachWrapperOrThrow_cons, forEachWrapper_step, call_returning.
  assert (is_Some (fst (call pass (Some true) w t))) as [x Hx].
  { unfold call. destruct (deref w t) as [e|] eqn:He; [|by eexists].
    destruct (Hsafe t w e Ht He) as [x Hx]. destruct (pass e). simpl in *. eauto. }
  rewrite Hx. simpl. apply IH. by apply Hkeep.
Qed.

Lemma aggregateOrThrow_returns f v :
  fst (aggregateOrThrow pass f) = Some v ->
  aggregateOrThrow pass f
  = (Some (fst (aggregate (returning pass) f)), snd (aggregate (returning pass) f)).
Proof.
  unfold aggregateOrThrow, aggregate.
  destruct (forEachWrapperOrThrow pass _ _) as [[x|] t] eqn:H; [|done]. intros _.
  rewrite (forEachWrapperOrThrow_returns _ _ _ x) in H by (by rewrite H).
  injection H as <- <-. destruct (forEachWrapper _ _ _). by rewrite toggleSubmit_fst.
Qed.

Lemma aggregateOrThrow_safe (I : Element -> Prop) f :
  (forall t w e, I t -> deref w t = Some e -> is_Some (fst (pass e))) ->
  (forall t w, I t -> I (snd (call pass (Some true) w t))) ->
  I f ->
  aggregateOrThrow pass f
  = (Some (fst (aggregate (returning pass) f)), snd (aggregate (returning pass) f)).
Proof.
  intros Hsafe Hkeep Hf. unfold aggregateOrThrow, aggregate.
  rewrite (forEachWrapperOrThrow_safe I) by done.
  destruct (forEachWrapper _ _ _). by rewrite toggleSubmit_fst.
Qed.

(** Whatever happens, the aggregation leaves the document as the loop of
    the returning pass over the first wrappers leaves it, up to the class
    of the submit control. *)
Lemma aggregateOrThrow_prefix f :
  exists ws1 st,
    ws1 `prefix_of` querySelectorAll sel_wrapper f
    ∧ st = forEachWrapper (returning pass) ws1 (true, f)
    ∧ (snd (aggregateOrThrow pass f) = snd st
       ∨ snd (aggregateOrThrow pass f) = snd (toggleSubmit st)).
Proof.
  unfold aggregateOrThrow.
  destruct (forEachWrapperOrThrow_prefix (querySelectorAll sel_wrapper f) true f)
    as (ws1 & Hp & Hs).
  destruct (forEachWrapperOrThrow pass _ _) as [[x|] t] eqn:H; simpl in *.
  - exists (querySelectorAll sel_wrapper f), (forEachWrapper (returning pass)
             (querySelectorAll sel_wrapper f) (true, f)).
    split; [done|]. split; [done|]. right.
    rewrite (forEachWrapperOrThrow_returns _ _ _ x) in H by (by rewrite H).
    injection H as <- <-. by destruct (forEachWrapper _ _ _).
  - exists ws1, (forEachWrapper (returning pass) ws1 (true, f)). eauto.
Qed.

End ThrowingFacts.

(** *** The second document *)

Lemma variant2_validateCheckbox_fst w i :
  fst (Variant2.validateCheckbox w i) = checkedProperty (the i w).
Proof.
  unfold Variant2.validateCheckbox. destruct (checkedProperty (the i w)); [|done].
  destruct (closest _ _ _); [|done]. by destruct (querySelectorAt _ _ _).
Qed.

(** An exception leaves the document as it is. *)
Lemma variant2_validateCheckbox_thrown w i :
  fst (Variant2.validateCheckbox w i) = None -> snd (Variant2.validateCheckbox w i) = w.
Proof.
  unfold Variant2.validateCheckbox. destruct (checkedProperty (the i w)); [|done].
  destruct (closest _ _ _); [|done]. by destruct (querySelectorAt _ _ _).
Qed.

Lemma variant2_validateCheckbox_erase w i :
  erase (snd (Variant2.validateCheckbox w i)) = erase w.
Proof.
  unfold Variant2.validateCheckbox. destruct (checkedProperty (the i w)) as [v|]; [|done].
  set (w1 := mutate _ i w).
  assert (erase w1 = erase w) as H1.
  { apply erase_mutate_onData. intros d. apply eraseData_setAttribute. by right. }
  destruct (closest _ _ _); [|done]. destruct (querySelectorAt _ _ _); [|done]. simpl.
  rewrite <- H1. unfold Variant2.updateCheckboxClasses.
  destruct (bool_decide _); apply erase_mutate_onData; intros d;
    [apply eraseData_classAdd|apply eraseData_classRemove]; apply written_redirected.
Qed.

Lemma variant2_hideError_erase w p : erase (Variant2.hideError w p) = erase w.
Proof.
  unfold Variant2.hideError.
  set (w1 := match querySelector Variant2.sel_checkboxInput w with
             | Some _ =>
                 match querySelector Variant2.sel_checkboxBox w with
                 | Some checkbox => mutate (onData (classRemove "is-error")) checkbox w
                 | None => w
                 end
             | None => mutate (onData (classRemove "is-error")) p w
             end).
  assert (erase w1 = erase w) as H1.
  { unfold w1. destruct (querySelector Variant2.sel_checkboxInput w).
    - destruct (querySelector Variant2.sel_checkboxBox w); [apply removeError_erase|done].
    - apply removeError_erase. }
  destruct (querySelector sel_errorLabel w1); [|done].
  by rewrite erase_mutate_onData by (intros d; apply eraseData_setStyle).
Qed.

Lemma variant2_showError_erase w p :
  leafTexts w = true -> erase (Variant2.showError w p) = erase w.
Proof.
  intros Hw. unfold Variant2.showError.
  set (w1 := match querySelector Variant2.sel_checkboxInput w with
             | Some _ =>
                 match querySelector Variant2.sel_checkboxBox w with
                 | Some checkbox => mutate (onData (classAdd "is-error")) checkbox w
                 | None => w
                 end
             | None => mutate (onData (classAdd "is-error")) p w
             end).
  assert (erase w1 = erase w) as H1.
  { unfold w1. destruct (querySelector Variant2.sel_checkboxInput w).
    - destruct (querySelector Variant2.sel_checkboxBox w); [apply addError_erase|done].
    - apply addError_erase. }
  destruct (querySelector sel_errorLabel w1) as [label|]; [|done].
  rewrite erase_mutate_onData by (intros d; apply eraseData_setStyle).
  destruct (querySelectorAt sel_errorText label w1) as [q|]; [|done].
  destruct (truthy (getAttribute "input-error-text" (the q w1))) eqn:Ht; [|done].
  rewrite <- H1. apply erase_mutate. intros e He.
  apply setTextContent_erase.
  - apply (leafTexts_deref q w1); [|done]. by rewrite (leafTexts_same w1 w).
  - unfold the in Ht. by rewrite He in Ht.
Qed.

Lemma variant2_textVerdict_erase d : Variant2.textVerdict (eraseData d) = Variant2.textVerdict d.
Proof.
  unfold Variant2.textVerdict. rewrite type_erase.
  unfold hasAttribute, getAttribute, Variant2.validateLength, Variant2.validatePhone,
    validateEmail, eraseData. simpl.
  by rewrite !lookup_delete_ne.
Qed.

Lemma variant2_wrapperVerdict_erase w :
  Variant2.wrapperVerdict (erase w) = Variant2.wrapperVerdict w.
Proof.
  unfold Variant2.wrapperVerdict. rewrite querySelector_erase by done.
  destruct (querySelector sel_input w); [|done].
  rewrite the_erase, variant2_textVerdict_erase, hasAttribute_erase; [done|].
  unfold writtenAttr. by intros [|].
Qed.

Lemma variant2_throws_erase w : Variant2.throws (erase w) = Variant2.throws w.
Proof.
  unfold Variant2.throws. rewrite querySelector_erase by done.
  destruct (querySelector sel_input w); [|done].
  rewrite the_erase, hasAttribute_erase; [done|].
  unfold writtenAttr. by intros [|].
Qed.

Lemma unfailed_erase w : unfailed (erase w) = unfailed w.
Proof. unfold unfailed. by rewrite variant2_throws_erase, variant2_wrapperVerdict_erase. Qed.

(** The pass throws exactly on the wrappers of [throws], and returns the
    verdict of the field on every other wrapper. *)
Lemma variant2_validateInput_fst w se fo :
  fst (Variant2.validateInput w se fo)
  = if Variant2.throws w then None else Some (Variant2.wrapperVerdict w).
Proof.
  unfold Variant2.validateInput, Variant2.wrapperVerdict, Variant2.throws.
  destruct (querySelector sel_input w) as [i|]; [|done].
  destruct (hasAttribute "input-validation-checkbox" (the i w)); [|done].
  pose proof (variant2_validateCheckbox_fst w i) as H.
  destruct (Variant2.validateCheckbox w i) as [[v|] w1]; simpl in *;
    unfold checkedProperty in H; destruct (bool_decide (tagName (the i w) = "input"));
    simpl; congruence.
Qed.

Lemma variant2_validateInput_thrown w se fo :
  fst (Variant2.validateInput w se fo) = None -> snd (Variant2.validateInput w se fo) = w.
Proof.
  unfold Variant2.validateInput.
  destruct (querySelector sel_input w) as [i|]; [|done].
  destruct (hasAttribute "input-validation-checkbox" (the i w)); [|done].
  pose proof (variant2_validateCheckbox_thrown w i) as H.
  destruct (Variant2.validateCheckbox w i) as [[v|] w1]; simpl in *; [done|]. auto.
Qed.

Lemma variant2_returning_verdict w se fo :
  fst (returning (fun x => Variant2.validateInput x se fo) w) = unfailed w.
Proof.
  unfold returning, unfailed. simpl. rewrite variant2_validateInput_fst.
  by destruct (Variant2.throws w).
Qed.

Lemma variant2_validateInput_erase w se fo :
  leafTexts w = true ∨ unfailed w = true ->
  erase (snd (Variant2.validateInput w se fo)) = erase w.
Proof.
  unfold unfailed.
  destruct (Variant2.throws w) eqn:Ht.
  { intros _. rewrite variant2_validateInput_thrown; [done|].
    by rewrite variant2_validateInput_fst, Ht. }
  simpl. revert Ht.
  unfold Variant2.validateInput, Variant2.wrapperVerdict, Variant2.throws.
  destruct (querySelector sel_input w) as [i|]; [|done].
  destruct (hasAttribute "input-validation-checkbox" (the i w)).
  - pose proof (variant2_validateCheckbox_fst w i) as Hf.
    pose proof (variant2_validateCheckbox_erase w i) as He.
    unfold checkedProperty in Hf.
    destruct (bool_decide (tagName (the i w) = "input")); [|done]. intros _.
    destruct (Variant2.validateCheckbox w i) as [[v|] w1]; simpl in *; [|done].
    injection Hf as ->.
    intros Hv. destruct (_ && _); [|done].
    destruct (checked (the i w)); simpl.
    + by rewrite variant2_hideError_erase.
    + destruct Hv as [Hv|?]; [|done].
      rewrite variant2_showError_erase; [done|]. by rewrite (leafTexts_same w1 w).
  - simpl. intros _ Hv. destruct (_ && _); [|done].
    destruct (Variant2.textVerdict (the i w)); simpl.
    + by rewrite variant2_hideError_erase.
    + destruct Hv as [Hv|?]; [|done]. by rewrite variant2_showError_erase.
Qed.

Lemma variant2_returning_erase w se fo :
  leafTexts w = true ∨ fst (returning (fun x => Variant2.validateInput x se fo) w) = true ->
  erase (snd (returning (fun x => Variant2.validateInput x se fo) w)) = erase w.
Proof. rewrite variant2_returning_verdict. apply variant2_validateInput_erase. Qed.

Lemma variant2_validateForm_aggregate f se fo :
  Variant2.validateForm f se fo
  = aggregateOrThrow (fun w => Variant2.validateInput w se fo) f.
Proof.
  unfold Variant2.validateForm, aggregateOrThrow, toggleSubmit, forEachWrapperOrThrow.
  destruct (fold_left _ _ _) as [[v|] f1]; [|done]. simpl.
  by destruct (querySelector sel_submit f1).
Qed.

Lemma variant2_onInput_revalidate w f :
  Variant2.onInput w f = revalidateOrThrow (fun x => Variant2.validateInput x true false) w f.
Proof.
  unfold Variant2.onInput, revalidateOrThrow.
  destruct (call _ _ w f) as [[v|] f1]; [|done]. by rewrite variant2_validateForm_aggregate.
Qed.

(** When [validateForm] returns, it returns the conjunction of the
    verdicts of the fields, those on which the pass would throw left out. *)
Lemma variant2_validateForm_returns f se fo v :
  fst (Variant2.validateForm f se fo) = Some v ->
  v = formVerdictOf unfailed f
  ∧ Variant2.validateForm f se fo
    = (Some v, snd (aggregate (returning (fun w => Variant2.validateInput w se fo)) f)).
Proof.
  rewrite variant2_validateForm_aggregate. intros H.
  pose proof (aggregateOrThrow_returns _ f v H) as E. rewrite E in H |- *.
  simpl in H. injection H as <-. split; [|done].
  apply (aggregate_verdict unfailed).
  - intros w. apply variant2_returning_verdict.
  - apply unfailed_erase.
  - intros w Hw. apply variant2_returning_erase. by right.
Qed.

Lemma variant2_validateForm_erase f se fo :
  leafTexts f = true -> erase (snd (Variant2.validateForm f se fo)) = erase f.
Proof.
  intros Hf. rewrite variant2_validateForm_aggregate.
  assert (forall ws, erase (snd (forEachWrapper
                                   (returning (fun w => Variant2.validateInput w se fo))
                                   ws (true, f))) = erase f) as H.
  { intros ws. apply (forEachWrapper_erase unfailed); [|by intros; apply variant2_returning_erase; left|done].
    intros w. apply variant2_returning_verdict. }
  destruct (aggregateOrThrow_prefix (fun w => Variant2.validateInput w se fo) f)
    as (ws1 & st & _ & -> & [-> | ->]); [done|]. by rewrite toggleSubmit_erase.
Qed.


(** ** What the passes leave alone *)

Section Pointwise.
Variable R : Data -> Data -> Prop.
Hypothesis R_refl : forall d, R d d.
Hypothesis R_trans : forall a b c, R a b -> R b c -> R a c.

Lemma pointwise_refl t : pointwise R t t.
Proof. intros q. destruct (read q t); by constructor. Qed.

Lemma pointwise_trans a b c : pointwise R a b -> pointwise R b c -> pointwise R a c.
Proof.
  intros Hab Hbc q. specialize (Hab q). specialize (Hbc q).
  destruct Hab as [x y Hxy|]; inversion Hbc; subst; constructor. eauto.
Qed.

Lemma pointwise_mutate f g p t :
  actsAs f g -> (forall d, R d (g d)) -> pointwise R t (mutate f p t).
Proof.
  intros Hf Hg q. rewrite (read_mutate f g) by done.
  destruct (read q t) as [d|]; simpl; constructor.
  destruct (decide _); [apply Hg|apply R_refl].
Qed.

Lemma pointwise_onData g p t :
  (forall d, R d (g d)) -> pointwise R t (mutate (onData g) p t).
Proof. apply pointwise_mutate, actsAs_onData. Qed.

Lemma pointwise_onData_at g p t :
  R (the p t) (g (the p t)) -> pointwise R t (mutate (onData g) p t).
Proof.
  intros Hg q. rewrite (read_mutate (onData g) g) by apply actsAs_onData.
  rewrite the_read in Hg.
  destruct (decide (q = p)) as [->|Hq].
  - destruct (read p t) as [d|]; simpl in *; constructor; done.
  - destruct (read q t) as [d|]; simpl; constructor; apply R_refl.
Qed.

Lemma read_mutate_outside f p q t :
  ¬ p `prefix_of` q -> read q (mutate f p t) = read q t.
Proof.
  revert q t. induction p as [|i p IH]; intros q t Hq.
  - destruct Hq. apply prefix_nil.
  - simpl. destruct (children t !! i) as [c|] eqn:Hc; [|done].
    destruct q as [|j q]; [by destruct t|].
    unfold read in *. simpl. destruct (decide (j = i)) as [->|Hji].
    + rewrite list_lookup_insert_eq by (by eapply lookup_lt_Some).
      rewrite Hc. apply IH. intros Hp. apply Hq. by apply prefix_cons.
    + by rewrite list_lookup_insert_ne.
Qed.

Lemma read_mutate_inside f p r t e :
  deref p t = Some e -> read (p ++ r) (mutate f p t) = read r (f e).
Proof.
  intros He. unfold read. by rewrite deref_app, deref_mutate, He.
Qed.

Lemma read_app p r t e : deref p t = Some e -> read (p ++ r) t = read r e.
Proof. intros He. unfold read. by rewrite deref_app, He. Qed.

(** Writing back the result of a call on a referenced element. *)
Lemma pointwise_replace p t e e' :
  deref p t = Some e -> pointwise R e e' -> pointwise R t (mutate (fun _ => e') p t).
Proof.
  intros He Hee q. destruct (decide (p `prefix_of` q)) as [[r ->]|Hq].
  - rewrite (read_mutate_inside _ p r t e), (read_app p r t e) by done. apply Hee.
  - rewrite read_mutate_outside by done. apply pointwise_refl.
Qed.

Lemma pointwise_call {A} (f : Element -> A * Element) dflt p t :
  (forall e, pointwise R e (snd (f e))) -> pointwise R t (snd (call f dflt p t)).
Proof.
  intros Hf. unfold call. destruct (deref p t) as [e|] eqn:He; [|apply pointwise_refl].
  specialize (Hf e). destruct (f e) as [a e']. simpl in *. by eapply pointwise_replace.
Qed.

Lemma pointwise_forEachWrapper pass ws st :
  (forall e, pointwise R e (snd (pass e))) ->
  pointwise R (snd st) (snd (forEachWrapper pass ws st)).
Proof.
  intros Hpass. revert st. induction ws as [|w ws IH]; intros [acc t].
  - apply pointwise_refl.
  - unfold forEachWrapper in *. simpl fold_left.
    pose proof (pointwise_call pass true w t Hpass) as Hc.
    destruct (call pass true w t) as [v t']. simpl in Hc.
    eapply pointwise_trans; [exact Hc|]. apply (IH (_, t')).
Qed.

Hypothesis R_addDisabled : forall d, R d (classAdd "is-disabled" d).
Hypothesis R_removeDisabled : forall d, R d (classRemove "is-disabled" d).

Lemma pointwise_toggleSubmit st : pointwise R (snd st) (snd (toggleSubmit st)).
Proof.
  unfold toggleSubmit. destruct (querySelector sel_submit (snd st)); [|apply pointwise_refl].
  simpl. destruct (fst st); by apply pointwise_onData.
Qed.

Lemma pointwise_aggregate pass f :
  (forall e, pointwise R e (snd (pass e))) -> pointwise R f (snd (aggregate pass f)).
Proof.
  intros Hpass. unfold aggregate.
  eapply pointwise_trans; [|apply pointwise_toggleSubmit].
  by apply (pointwise_forEachWrapper pass _ (true, f)).
Qed.

Lemma pointwise_aggregateOrThrow pass f :
  (forall e, pointwise R e (snd (pass e))) -> pointwise R f (snd (aggregateOrThrow pass f)).
Proof.
  intros Hpass.
  destruct (aggregateOrThrow_prefix pass f) as (ws1 & st & _ & -> & [-> | ->]).
  - by apply (pointwise_forEachWrapper (returning pass) _ (true, f)).
  - eapply pointwise_trans; [|apply pointwise_toggleSubmit].
    by apply (pointwise_forEachWrapper (returning pass) _ (true, f)).
Qed.

Lemma pointwise_revalidateOrThrow pass w f :
  (forall e, pointwise R e (snd (pass e))) -> pointwise R f (revalidateOrThrow pass w f).
Proof.
  intros Hpass. unfold revalidateOrThrow.
  pose proof (pointwise_call pass (Some true) w f Hpass) as Hc.
  destruct (call pass (Some true) w f) as [[v|] f1]; simpl in Hc; [|done].
  eapply pointwise_trans; [exact Hc|]. by apply pointwise_aggregateOrThrow.
Qed.

(** *** The writes of [showError] and [hideError] *)

Hypothesis R_addError : forall d, R d (classAdd "is-error" d).
Hypothesis R_removeError : forall d, R d (classRemove "is-error" d).
Hypothesis R_style : forall v d, R d (setAttribute "style" v d).
Hypothesis R_text : forall s d, R d (withText s d).

Lemma pointwise_labelOf (show : bool) w :
  pointwise R w
    match querySelector sel_errorLabel w with
    | Some errorLabel =>
        let w1 :=
          if show then
            match querySelectorAt sel_errorText errorLabel w with
            | Some errorTextElement =>
                let customErrorText :=
                  getAttribute "input-error-text" (the errorTextElement w) in
                if truthy customErrorText
                then mutate (setTextContent (orDefault customErrorText [])) errorTextElement w
                else w
            | None => w
            end
          else w in
        mutate (onData (setAttribute "style"
                          (js (if show then "display: flex;" else "display: none;"))))
               errorLabel w1
    | None => w
    end.
Proof.
  destruct (querySelector sel_errorLabel w) as [l|]; [|apply pointwise_refl].
  cbv zeta. eapply pointwise_trans; [|by apply pointwise_onData].
  destruct show; [|apply pointwise_refl].
  destruct (querySelectorAt sel_errorText l w) as [x|]; [|apply pointwise_refl].
  destruct (truthy _); [|apply pointwise_refl].
  by apply (pointwise_mutate _ _ _ _ (actsAs_setTextContent _)).
Qed.

Lemma pointwise_showError w p : pointwise R w (showError w p).
Proof.
  unfold showError. eapply pointwise_trans; [by apply (pointwise_onData (classAdd "is-error") p)|].
  apply (pointwise_labelOf true).
Qed.

Lemma pointwise_hideError w p : pointwise R w (hideError w p).
Proof.
  unfold hideError.
  eapply pointwise_trans; [by apply (pointwise_onData (classRemove "is-error") p)|].
  apply (pointwise_labelOf false).
Qed.

Lemma pointwise_boxStep w i g v : pointwise R w (boxStep w i g v).
Proof.
  unfold boxStep. destruct (hasAttribute _ _); [|apply pointwise_refl].
  destruct (querySelector sel_checkbox w); [|apply pointwise_refl].
  destruct (g && negb v); by apply pointwise_onData.
Qed.

Lemma pointwise_present w i t g v : pointwise R w (present w i t g v).
Proof.
  unfold present. destruct g; [|apply pointwise_boxStep].
  destruct v; (eapply pointwise_trans; [apply pointwise_boxStep|]);
    [apply pointwise_hideError|apply pointwise_showError].
Qed.

Lemma pointwise_validateInput w se fo : pointwise R w (snd (validateInput w se fo)).
Proof.
  destruct (querySelector sel_input w) as [i|] eqn:Hi.
  - assert (exists t, errorTarget w = Some t) as [t Ht].
    { unfold errorTarget. rewrite Hi. eauto. }
    rewrite (validateInput_eq w i t) by done. apply pointwise_present.
  - rewrite validateInput_none by done. apply pointwise_refl.
Qed.


Lemma pointwise_validateForm f se fo : pointwise R f (snd (validateForm f se fo)).
Proof.
  rewrite validateForm_aggregate. apply pointwise_aggregate.
  intros e. apply pointwise_validateInput.
Qed.


End Pointwise.

Section PointwiseVariant2.
Variable R : Data -> Data -> Prop.
Hypothesis R_refl : forall d, R d d.
Hypothesis R_trans : forall a b c, R a b -> R b c -> R a c.
Hypothesis R_addDisabled : forall d, R d (classAdd "is-disabled" d).
Hypothesis R_removeDisabled : forall d, R d (classRemove "is-disabled" d).
Hypothesis R_addError : forall d, R d (classAdd "is-error" d).
Hypothesis R_removeError : forall d, R d (classRemove "is-error" d).
Hypothesis R_style : forall v d, R d (setAttribute "style" v d).
Hypothesis R_text : forall s d, R d (withText s d).
Hypothesis R_dataChecked : forall v d, R d (setAttribute "data-checked" v d).
Hypothesis R_addRedirected : forall d, R d (classAdd "w--redirected-checked" d).
Hypothesis R_removeRedirected : forall d, R d (classRemove "w--redirected-checked" d).

Lemma pointwise_variant2_validateCheckbox w i :
  pointwise R w (snd (Variant2.validateCheckbox w i)).
Proof.
  unfold Variant2.validateCheckbox.
  destruct (checkedProperty (the i w)) as [v|]; [|by apply pointwise_refl]. cbv zeta.
  set (w1 := mutate _ i w).
  assert (pointwise R w w1) as H1 by (by apply pointwise_onData).
  destruct (closest sel_wrapper i w1) as [c|]; [|done].
  destruct (querySelectorAt sel_checkbox c w1) as [b|]; [|done].
  simpl. eapply pointwise_trans; [done|exact H1|].
  unfold Variant2.updateCheckboxClasses. destruct (bool_decide _); by apply pointwise_onData.
Qed.

Lemma pointwise_variant2_showError w p : pointwise R w (Variant2.showError w p).
Proof.
  unfold Variant2.showError.
  eapply pointwise_trans; [done| |by apply (pointwise_labelOf R R_refl R_trans R_style R_text true)].
  destruct (querySelector Variant2.sel_checkboxInput w).
  - destruct (querySelector Variant2.sel_checkboxBox w); [|by apply pointwise_refl].
    by apply pointwise_onData.
  - by apply pointwise_onData.
Qed.

Lemma pointwise_variant2_hideError w p : pointwise R w (Variant2.hideError w p).
Proof.
  unfold Variant2.hideError.
  eapply pointwise_trans; [done| |by apply (pointwise_labelOf R R_refl R_trans R_style R_text false)].
  destruct (querySelector Variant2.sel_checkboxInput w).
  - destruct (querySelector Variant2.sel_checkboxBox w); [|by apply pointwise_refl].
    by apply pointwise_onData.
  - by apply pointwise_onData.
Qed.

Lemma pointwise_variant2_validateInput w se fo :
  pointwise R w (snd (Variant2.validateInput w se fo)).
Proof.
  unfold Variant2.validateInput.
  destruct (querySelector sel_input w) as [i|]; [|by apply pointwise_refl].
  destruct (hasAttribute "input-validation-checkbox" (the i w)).
  - pose proof (pointwise_variant2_validateCheckbox w i) as Hc.
    destruct (Variant2.validateCheckbox w i) as [[v|] w1]; simpl in *; [|done].
    destruct (se && _); [|done].
    eapply pointwise_trans; [done|exact Hc|].
    destruct (negb v); [apply pointwise_variant2_showError|apply pointwise_variant2_hideError].
  - simpl. destruct (se && _); [|by apply pointwise_refl].
    destruct (negb _); [apply pointwise_variant2_showError|apply pointwise_variant2_hideError].
Qed.

Lemma pointwise_variant2_validateForm f se fo :
  pointwise R f (snd (Variant2.validateForm f se fo)).
Proof.
  rewrite variant2_validateForm_aggregate. apply pointwise_aggregateOrThrow; try done.
  intros e. apply pointwise_variant2_validateInput.
Qed.

Lemma pointwise_variant2_onInput w f : pointwise R f (Variant2.onInput w f).
Proof.
  rewrite variant2_onInput_revalidate. apply pointwise_revalidateOrThrow; try done.
  intros e. apply pointwise_variant2_validateInput.
Qed.

End PointwiseVariant2.

(** *** The content of the fields *)

Lemma sameContent_refl C A d : sameContent C A d d.
Proof. by repeat split. Qed.

Lemma sameContent_trans C A a b c :
  sameContent C A a b -> sameContent C A b c -> sameContent C A a c.
Proof.
  intros (H1 & H2 & H3 & H4 & H5) (K1 & K2 & K3 & K4 & K5).
  repeat split; try congruence.
  - intros x Hx. by rewrite K4, H4.
  - intros x Hx. by rewrite K5, H5.
Qed.

Lemma sameContent_classAdd C A c d : c ∈ C -> sameContent C A d (classAdd c d).
Proof.
  intros Hc. repeat split; try done. intros x Hx. apply contains_classAdd_ne.
  by intros ->.
Qed.

Lemma sameContent_classRemove C A c d : c ∈ C -> sameContent C A d (classRemove c d).
Proof.
  intros Hc. repeat split; try done. intros x Hx. apply contains_classRemove_ne.
  by intros ->.
Qed.

Lemma sameContent_setAttribute C A a v d : a ∈ A -> sameContent C A d (setAttribute a v d).
Proof.
  intros Ha. repeat split; try done. intros x Hx. unfold getAttribute. simpl.
  apply lookup_insert_ne. by intros ->.
Qed.

Lemma sameContent_withText C A s d : sameContent C A d (withText s d).
Proof. by repeat split. Qed.


(** *** Documents on which the second document does not throw *)

Lemma forallb_Forall2 {A} (f : A -> bool) l k :
  Forall2 (fun x y => f y = f x) l k -> forallb f k = forallb f l.
Proof. induction 1 as [|x y l k Hxy _ IH]; simpl; [done|]. by rewrite Hxy, IH. Qed.

Lemma noCheckboxTextarea_pointwise (R : Data -> Data -> Prop) t :
  (forall d d', R d d' ->
     tagName d' = tagName d
     ∧ hasAttribute "input-validation-checkbox" d' = hasAttribute "input-validation-checkbox" d) ->
  forall t', pointwise R t t' -> noCheckboxTextarea t' = noCheckboxTextarea t.
Proof.
  intros HR. induction t as [d r cs IH] using Element_ind. intros [d' r' cs'] H.
  simpl. f_equal.
  - specialize (H []). unfold read in H. simpl in H. inversion H as [x y Hxy|]; subst.
    destruct (HR _ _ Hxy) as [-> ->]. done.
  - apply forallb_Forall2, Forall2_lookup. intros i.
    pose proof (H [i]) as Hi. unfold read in Hi. simpl in Hi.
    destruct (cs !! i) as [c|] eqn:Hc, (cs' !! i) as [c'|] eqn:Hc'; simpl in Hi;
      inversion Hi; subst; constructor.
    rewrite List.Forall_forall in IH. apply IH.
    + apply list_elem_of_In. by eapply list_elem_of_lookup_2.
    + intros q. specialize (H (i :: q)). unfold read in *. simpl in H.
      by rewrite Hc, Hc' in H.
Qed.

Lemma noCheckboxTextarea_deref p t e :
  noCheckboxTextarea t = true -> deref p t = Some e -> noCheckboxTextarea e = true.
Proof.
  revert t. induction p as [|i p IH]; intros [d r cs] Ht; simpl.
  - by intros [= <-].
  - destruct (cs !! i) as [c|] eqn:Hc; [|done]. apply IH.
    simpl in Ht. apply andb_true_iff in Ht as [_ Ht]. rewrite forallb_forall in Ht.
    apply Ht, list_elem_of_In. by eapply list_elem_of_lookup_2.
Qed.

Lemma noCheckboxTextarea_throws w :
  noCheckboxTextarea w = true -> Variant2.throws w = false.
Proof.
  intros Hw. unfold Variant2.throws.
  destruct (querySelector sel_input w) as [i|] eqn:Hi; [|done].
  apply querySelector_elem, elem_of_querySelectorAll in Hi as (x & Hx & Hm).
  apply descendants_deref in Hx. unfold the. rewrite Hx.
  pose proof (noCheckboxTextarea_deref i w x Hw Hx) as Hn.
  destruct x as [d r cs]. simpl in *. apply andb_true_iff in Hn as [Hn _].
  unfold matches in Hm. simpl in Hm. rewrite !andb_true_r, orb_false_r in Hm.
  destruct (hasAttribute "input-validation-checkbox" d); [|done]. simpl.
  rewrite andb_true_r in Hn.
  destruct (bool_decide (tagName d = "input")); [done|].
  simpl in Hm. by rewrite Hm in Hn.
Qed.

Lemma noCheckboxTextarea_validateInput w se fo :
  noCheckboxTextarea (snd (Variant2.validateInput w se fo)) = noCheckboxTextarea w.
Proof.
  apply (noCheckboxTextarea_pointwise
           (sameContent ["is-error"; "is-disabled"; "w--redirected-checked"]
                        ["style"; "data-checked"])).
  - intros d d' (Ht & _ & _ & Ha & _). split; [done|].
    unfold hasAttribute. unfold getAttribute in Ha. rewrite Ha; [done|].
    rewrite !not_elem_of_cons. repeat split; try done. apply not_elem_of_nil.
  - apply pointwise_variant2_validateInput;
      eauto using sameContent_refl, sameContent_trans, sameContent_withText;
      intros; (apply sameContent_classAdd || apply sameContent_classRemove
               || apply sameContent_setAttribute); set_solver.
Qed.

Lemma noCheckboxTextarea_replace p t e e' :
  deref p t = Some e -> noCheckboxTextarea e' = noCheckboxTextarea e ->
  noCheckboxTextarea (mutate (fun _ => e') p t) = noCheckboxTextarea t.
Proof.
  revert t. induction p as [|i p IH]; intros [d r cs]; simpl.
  - by intros [= <-].
  - destruct (cs !! i) as [c|] eqn:Hc; [|done]. intros He Hee. simpl. f_equal.
    apply (forallb_insert_same noCheckboxTextarea cs i c); [done|]. by apply IH.
Qed.

Lemma formVerdictOf_unfailed f :
  noCheckboxTextarea f = true ->
  formVerdictOf unfailed f = formVerdictOf Variant2.wrapperVerdict f.
Proof.
  intros Hf. unfold formVerdictOf. apply forallb_pointwise. intros w. unfold fieldVerdictOf.
  destruct (deref w f) as [e|] eqn:He; [|done]. unfold unfailed.
  by rewrite (noCheckboxTextarea_throws e) by by eapply noCheckboxTextarea_deref.
Qed.

(** Without a textarea that declares the checkbox rule, [validateForm]
    returns, and returns the conjunction of the verdicts of the fields. *)
Lemma variant2_validateForm_safe f se fo :
  noCheckboxTextarea f = true ->
  Variant2.validateForm f se fo
  = (Some (formVerdictOf Variant2.wrapperVerdict f),
     snd (aggregate (returning (fun w => Variant2.validateInput w se fo)) f)).
Proof.
  intros Hf. rewrite variant2_validateForm_aggregate.
  rewrite (aggregateOrThrow_safe _ (fun t => noCheckboxTextarea t = true)); [| | |done].
  - f_equal. f_equal.
    rewrite (aggregate_verdict unfailed).
    + by apply formVerdictOf_unfailed.
    + intros w. apply variant2_returning_verdict.
    + apply unfailed_erase.
    + intros w Hw. apply variant2_returning_erase. by right.
  - intros t w e Ht He. rewrite variant2_validateInput_fst.
    by rewrite (noCheckboxTextarea_throws e) by by eapply noCheckboxTextarea_deref.
  - intros t w Ht. unfold call. destruct (deref w t) as [e|] eqn:He; [|done].
    pose proof (noCheckboxTextarea_validateInput e se fo) as Hv.
    destruct (Variant2.validateInput e se fo) as [v e']. simpl in *.
    by rewrite (noCheckboxTextarea_replace w t e e').
Qed.

Lemma sameContent_checkbox C A :
  "input-validation-checkbox" ∉ A ->
  forall d d', sameContent C A d d' ->
    tagName d' = tagName d
    ∧ hasAttribute "input-validation-checkbox" d' = hasAttribute "input-validation-checkbox" d.
Proof.
  intros HA d d' (Ht & _ & _ & Ha & _). split; [done|].
  unfold hasAttribute. unfold getAttribute in Ha. by rewrite Ha.
Qed.

Lemma noCheckboxTextarea_validateForm f se fo :
  noCheckboxTextarea (snd (Variant2.validateForm f se fo)) = noCheckboxTextarea f.
Proof.
  apply (noCheckboxTextarea_pointwise
           (sameContent ["is-error"; "is-disabled"; "w--redirected-checked"]
                        ["style"; "data-checked"])).
  - apply sameContent_checkbox.
    rewrite !not_elem_of_cons. repeat split; try done. apply not_elem_of_nil.
  - apply pointwise_variant2_validateForm;
      eauto using sameContent_refl, sameContent_trans, sameContent_withText;
      intros; (apply sameContent_classAdd || apply sameContent_classRemove
               || apply sameContent_setAttribute); set_solver.
Qed.

(** *** The assignment to [value] *)

Lemma assignValue_attribute sanitize s d d' a :
  a ≠ "value" -> assignValue sanitize s d = Some d' -> getAttribute a d' = getAttribute a d.
Proof.
  intros Ha. unfold assignValue.
  destruct (bool_decide (tagName d = "textarea")); [by intros [= <-]|].
  destruct (bool_decide (tagName d = "input")); [|by intros [= <-]].
  destruct (valueMode (type d)); try (by intros [= <-]);
    try (intros [= <-]; unfold getAttribute; simpl; by rewrite lookup_insert_ne).
  destruct (bool_decide _); by intros [= <-].
Qed.

(** * The properties of the specification *)

(** ** The rules *)

Lemma digitCount_removeAll s :
  length (removeAll (fun c => negb (isDigit c)) s) = digitCount s.
Proof.
  unfold removeAll. induction s as [|c s IH]; [done|].
  rewrite filter_cons. simpl. destruct (isDigit c); simpl; by rewrite IH.
Qed.

(** C3.  For every field value and every configured minimum [M], the
    length rule passes exactly when the length of the trimmed value exceeds
    [M]; that holds in both documents of validateForm.ts.  The older
    revision is the alternative policy: it passes exactly when the length
    is at least [M].  Each revision uses its one comparison for every
    input, and a minimum that is [NaN] fails under both. *)
Theorem length_rule (input : Data) (M : Z) :
  let len := Z.of_nat (length (trim (value input))) in
  (validateLength input (Int M) = true <-> (M < len)%Z)
  ∧ (Variant2.validateLength input (Int M) = true <-> (M < len)%Z)
  ∧ (Part000.validateLength input (Int M) = true <-> (M <= len)%Z)
  ∧ validateLength input NaN = false
  ∧ Variant2.validateLength input NaN = false
  ∧ Part000.validateLength input NaN = false.
Proof.
  cbv zeta. unfold validateLength, Variant2.validateLength, Part000.validateLength, gt, ge.
  rewrite Z.ltb_lt, Z.leb_le. tauto.
Qed.

(** C4, as amended.  In both documents of validateForm.ts the phone rule
    counts the decimal digits of the value and passes exactly when there are
    at least 10 (first document) or 5 (second document); nothing else of
    the value matters.  In the older revision the verdict is the match of
    the trimmed value against a fixed format. *)
Theorem phone_rule (input : Data) :
  validatePhone input = (10 <=? digitCount (value input))%nat
  ∧ Variant2.validatePhone input = (5 <=? digitCount (value input))%nat
  ∧ (Part000.validatePhone input = true
     <-> Matches Part000.phoneRegex (trim (value input))).
Proof.
  unfold validatePhone, Variant2.validatePhone, Part000.validatePhone.
  by rewrite digitCount_removeAll, test_Matches.
Qed.

(** C4 fails on the older revision: two values with the same ten digits,
    grouped differently, get different verdicts. *)
Lemma phone_format_counterexample :
  digitCount (value (phoneField "1234567890")) = 10
  ∧ digitCount (value (phoneField "12-34567890")) = 10
  ∧ Part000.validatePhone (phoneField "1234567890") = true
  ∧ Part000.validatePhone (phoneField "12-34567890") = false.
Proof. by vm_compute. Qed.

(** C5.  The email rule passes "a@b.co" and fails "a@b" and "a b@c.com". *)
Theorem email_examples (tag : string) (attrs : gmap string (list N))
    (classes : list string) (isChecked : bool) (txt : list N) :
  validateEmail (mkData tag attrs classes (js "a@b.co") isChecked txt) = true
  ∧ validateEmail (mkData tag attrs classes (js "a@b") isChecked txt) = false
  ∧ validateEmail (mkData tag attrs classes (js "a b@c.com") isChecked txt) = false.
Proof. by vm_compute. Qed.

Lemma selectedRule_cases (input : Data) :
  selectedRule input =
  if declares input CheckboxRule then Some CheckboxRule
  else if declares input EmailRule then Some EmailRule
  else if declares input PhoneRule then Some PhoneRule
  else if declares input LengthRule then Some LengthRule
  else None.
Proof.
  unfold selectedRule. rewrite !filter_cons, filter_nil.
  by destruct (declares input CheckboxRule), (declares input EmailRule),
    (declares input PhoneRule), (declares input LengthRule).
Qed.

Lemma ruleVerdict_selected d :
  ruleVerdict d = match selectedRule d with Some r => applyRule r d | None => true end.
Proof.
  rewrite selectedRule_cases. unfold ruleVerdict, declares, applyRule, applyRuleWith.
  by destruct (hasAttribute "input-validation-checkbox" d),
    (bool_decide (type d = js "email")), (hasAttribute "input-validation-phone" d),
    (hasAttribute "input-validation-length" d).
Qed.

Lemma part000_ruleVerdict_selected d :
  Part000.ruleVerdict d
  = match selectedRule d with
    | Some r => applyRuleWith Part000.validateLength Part000.validatePhone r d
    | None => true
    end.
Proof.
  rewrite selectedRule_cases. unfold Part000.ruleVerdict, declares, applyRuleWith.
  by destruct (hasAttribute "input-validation-checkbox" d),
    (bool_decide (type d = js "email")), (hasAttribute "input-validation-phone" d),
    (hasAttribute "input-validation-length" d).
Qed.

Lemma variant2_verdict_selected d :
  (if hasAttribute "input-validation-checkbox" d then checked d else Variant2.textVerdict d)
  = match selectedRule d with
    | Some r => applyRuleWith Variant2.validateLength Variant2.validatePhone r d
    | None => true
    end.
Proof.
  rewrite selectedRule_cases. unfold Variant2.textVerdict, declares, applyRuleWith.
  by destruct (hasAttribute "input-validation-checkbox" d),
    (bool_decide (type d = js "email")), (hasAttribute "input-validation-phone" d),
    (hasAttribute "input-validation-length" d).
Qed.

(** C6.  The verdict of a field is the verdict of one rule, the one
    selected by the constraints the field declares (the email rule by the
    input type): the last declared one in the order length, phone, email,
    checkbox.  The selected rule is a declared one, it is the declared one
    when only one is declared, and a field that declares none passes.
    The same holds in the three revisions, each with its own length and
    phone rules. *)
Theorem one_rule_per_field (wrapper : Element) (se fo : bool) (input : Data) :
  fst (validateInput wrapper se fo)
  = match querySelector sel_input wrapper with
    | Some i =>
        match selectedRule (the i wrapper) with
        | Some r => applyRule r (the i wrapper)
        | None => true
        end
    | None => true
    end
  ∧ ruleVerdict input
    = match selectedRule input with Some r => applyRule r input | None => true end
  ∧ Part000.ruleVerdict input
    = match selectedRule input with
      | Some r => applyRuleWith Part000.validateLength Part000.validatePhone r input
      | None => true
      end
  ∧ (if hasAttribute "input-validation-checkbox" input then checked input
     else Variant2.textVerdict input)
    = match selectedRule input with
      | Some r => applyRuleWith Variant2.validateLength Variant2.validatePhone r input
      | None => true
      end
  ∧ (forall r, selectedRule input = Some r -> declares input r = true)
  ∧ (forall r, declares input r = true ->
               (forall r', declares input r' = true -> r' = r) ->
               selectedRule input = Some r)
  ∧ (selectedRule input = None <-> forall r, declares input r = false).
Proof.
  split; [|split; [apply ruleVerdict_selected|
           split; [apply part000_ruleVerdict_selected|
           split; [apply variant2_verdict_selected|]]]].
  - rewrite validateInput_verdict. unfold wrapperVerdict.
    destruct (querySelector sel_input wrapper); [apply ruleVerdict_selected|done].
  - rewrite selectedRule_cases. repeat split.
    + intros r.
      destruct (declares input CheckboxRule) eqn:?, (declares input EmailRule) eqn:?,
        (declares input PhoneRule) eqn:?, (declares input LengthRule) eqn:?;
        intros [= <-]; done.
    + intros r Hr Hu.
      destruct (declares input CheckboxRule) eqn:H1; [by rewrite (Hu _ H1)|].
      destruct (declares input EmailRule) eqn:H2; [by rewrite (Hu _ H2)|].
      destruct (declares input PhoneRule) eqn:H3; [by rewrite (Hu _ H3)|].
      destruct (declares input LengthRule) eqn:H4; [by rewrite (Hu _ H4)|].
      destruct r; congruence.
    + intros Hn r.
      destruct (declares input CheckboxRule) eqn:H1; [done|].
      destruct (declares input EmailRule) eqn:H2; [done|].
      destruct (declares input PhoneRule) eqn:H3; [done|].
      destruct (declares input LengthRule) eqn:H4; [done|].
      by destruct r.
    + intros Hn. by rewrite !Hn.
Qed.

Lemma one_rule_per_field_witness :
  declares (the [0] noLabel) LengthRule = true
  ∧ (forall r', declares (the [0] noLabel) r' = true -> r' = LengthRule)
  ∧ selectedRule (the [0] noLabel) = Some LengthRule.
Proof.
  assert (declares (the [0] noLabel) LengthRule = true) as H1 by (by vm_compute).
  assert (forall r', declares (the [0] noLabel) r' = true -> r' = LengthRule) as H2
    by (by intros []; vm_compute).
  exact (conj H1 (conj H2
    (proj1 (proj2 (proj2 (proj2 (proj2 (proj2
       (one_rule_per_field noLabel true false (the [0] noLabel)))))))
       LengthRule H1 H2))).
Defined.

(** A length and a checkbox constraint on one field: the checkbox rule
    alone decides. *)
Lemma later_constraint_decides :
  declares checkedBox LengthRule = true
  ∧ applyRule LengthRule checkedBox = false
  ∧ selectedRule checkedBox = Some CheckboxRule
  ∧ ruleVerdict checkedBox = true.
Proof. by vm_compute. Qed.

Lemma validateLength_NaN input : validateLength input NaN = false.
Proof. done. Qed.

Lemma minimum_of_empty_attribute : parseInt10 (orDefault (Some []) (js "0")) = Int 0.
Proof. done. Qed.

(** C7.  For the minimum-length attribute "abc" the minimum is [NaN], not
    zero: the field holding "hello" fails, although it passes a minimum of
    zero.  The three revisions agree on that. *)
Theorem non_numeric_minimum_is_NaN :
  parseInt10 (orDefault (getAttribute "input-validation-length" badMinimum) (js "0")) = NaN
  ∧ ruleVerdict badMinimum = false
  ∧ validateLength badMinimum (Int 0) = true
  ∧ Part000.ruleVerdict badMinimum = false
  ∧ Variant2.textVerdict badMinimum = false.
Proof. by vm_compute. Qed.

(** ** The error display *)





(** Both situations arise from events.  On a page with two short fields:
    the listeners are those of the two inputs and of the form; after a
    submission attempt, a focus on the first field and an input event in
    it, the second field is still untouched and still shows its error;
    and after [validateForms] has run once more, the first field, touched
    and too short, shows none. *)
Lemma display_states_from_events (sanitize : Data -> list N -> list N) :
  let fire := fire sanitize in
  let '(page, listeners) := validateForms twoFieldPage in
  map (fun l => (target l, eventType l)) listeners
  = [([0; 0; 0; 0], "focus"); ([0; 0; 0; 0], "input"); ([0; 0; 0; 0], "blur");
     ([0; 0; 1; 0], "focus"); ([0; 0; 1; 0], "input"); ([0; 0; 1; 0], "blur");
     ([0; 0], "submit")]
  ∧ let page := fire 1 listeners (fire 0 listeners (fire 6 listeners page)) in
    (touched <$> deref [0; 0; 1] page) = Some false
    ∧ (errorVisible <$> deref [0; 0; 1] page) = Some true
    ∧ let page := fst (validateForms page) in
      (touched <$> deref [0; 0; 0] page) = Some true
      ∧ (wrapperVerdict <$> deref [0; 0; 0] page) = Some false
      ∧ (errorVisible <$> deref [0; 0; 0] page) = Some false.
Proof. by vm_compute. Qed.

(** ** The submit listener *)

Lemma shown_after_force w e i t f :
  pairwiseApart (querySelectorAll sel_wrapper f) = true ->
  w ∈ querySelectorAll sel_wrapper f -> deref w f = Some e ->
  querySelector sel_input e = Some i -> errorTarget e = Some t ->
  hasErrorClass (w ++ t) (snd (validateForm f true true)) = negb (wrapperVerdict e)
  ∧ forall l, querySelector sel_errorLabel e = Some l ->
      labelStyle (w ++ l) (snd (validateForm f true true))
      = Some (js (if wrapperVerdict e then "display: none;" else "display: flex;")).
Proof.
  intros Hapart Hw He Hi Ht. rewrite validateForm_aggregate.
  pose proof (aggregate_final wrapperVerdict (fun x => validateInput x true true)
                (fun x => validateInput_verdict x true true) f w e) as Hfin.
  split.
  - destruct (Hfin t Hapart Hw He) as [-> _].
    rewrite (validateInput_eq e i t), gateOpen_force by done. by apply present_class_open.
  - intros l Hl. destruct (Hfin l Hapart Hw He) as [_ ->].
    rewrite (validateInput_eq e i t), gateOpen_force by done. by apply present_style_open.
Qed.

(** C2, as amended.  On a submission attempt in a form whose field
    wrappers are not nested and whose custom error text elements have no
    child elements: when every field passes, the listener does nothing to
    the event; when a field fails, the default is prevented, propagation is
    stopped and the page scrolls to the first element of the form, in
    document order, that carries [is-error]; in both cases every field
    shows its error display exactly when its rule failed, touched or not. *)
Theorem onSubmit_guard (f : Element) :
  wellFormed f = true ->
  (formVerdict f = true -> fst (onSubmit f) = noEffects)
  ∧ (formVerdict f = false ->
     defaultPrevented (fst (onSubmit f)) = true
     ∧ propagationStopped (fst (onSubmit f)) = true
     ∧ (exists p, scrolledIntoView (fst (onSubmit f)) = Some p
                  ∧ firstWhere (contains "is-error") p (snd (onSubmit f))))
  ∧ snd (onSubmit f) = snd (validateForm f true true)
  ∧ (forall w e i t,
       w ∈ querySelectorAll sel_wrapper f -> deref w f = Some e ->
       querySelector sel_input e = Some i -> errorTarget e = Some t ->
       hasErrorClass (w ++ t) (snd (onSubmit f)) = negb (wrapperVerdict e)
       ∧ forall l, querySelector sel_errorLabel e = Some l ->
           labelStyle (w ++ l) (snd (onSubmit f))
           = Some (js (if wrapperVerdict e then "display: none;" else "display: flex;"))).
Proof.
  intros Hwf.
  assert (snd (onSubmit f) = snd (validateForm f true true)) as Hsnd.
  { unfold onSubmit. destruct (validateForm f true true) as [[] ?]; done. }
  pose proof Hwf as [Hleaf Hapart]%andb_true_iff.
  rewrite Hsnd. rewrite onSubmit_guardSubmit in *.
  destruct (guardSubmit_spec wrapperVerdict (fun w => validateInput w true true)
              (fun w => validateInput_verdict w true true) wrapperVerdict_erase
              (fun w => validateInput_erase_valid w true true)
              (fun w => validateInput_erase w true true) f Hwf) as [H1 H2].
  { intros e He. destruct (wrapperVerdict_false e He) as (i & t & Hi & Ht).
    destruct (errorTarget_valid e t Ht) as [x Hx]. exists t, x. split; [done|].
    rewrite (validateInput_eq e i t), gateOpen_force, He by done.
    by apply present_class_open. }
  split; [exact H1|]. split.
  - intros Hv. destruct (H2 Hv) as (? & ? & p & ? & Hp). repeat split; [done..|].
    exists p. split; [done|]. by rewrite <- Hsnd.
  - split; [done|]. intros w e i t Hw He Hi Ht. by apply (shown_after_force w e i t f).
Qed.

Lemma onSubmit_guard_witness :
  wellFormed demoForm = true
  ∧ formVerdict demoForm = false
  ∧ defaultPrevented (fst (onSubmit demoForm)) = true
  ∧ propagationStopped (fst (onSubmit demoForm)) = true
  ∧ (exists p, scrolledIntoView (fst (onSubmit demoForm)) = Some p
               ∧ firstWhere (contains "is-error") p (snd (onSubmit demoForm))).
Proof.
  assert (wellFormed demoForm = true) as H1 by (by vm_compute).
  assert (formVerdict demoForm = false) as H2 by (by vm_compute).
  exact (conj H1 (conj H2 (proj1 (proj2 (onSubmit_guard demoForm H1)) H2))).
Defined.

(** C2 fails without the two conditions on the markup.  With nested
    wrappers: the unchecked checkbox of the outer wrapper fails, its error
    class goes to the first checkbox box, which lies in the inner wrapper,
    and the pass on the inner, valid field takes it away again.  With a
    field inside the custom error text element: [showError] marks the field
    and then replaces the content of that element, the field with it.  In
    both forms the submission is cancelled, no element of the form carries
    [is-error] and nothing is scrolled to. *)
Lemma onSubmit_guard_counterexample :
  (formVerdict nestedBoxes = false
   ∧ fst (onSubmit nestedBoxes) = mkEffects true true None
   ∧ querySelectorAll sel_isError (snd (onSubmit nestedBoxes)) = [])
  ∧ (formVerdict fieldInErrorText = false
     ∧ fst (onSubmit fieldInErrorText) = mkEffects true true None
     ∧ querySelectorAll sel_isError (snd (onSubmit fieldInErrorText)) = []).
Proof. by vm_compute. Qed.

(** The same for the submit listener of the older revision. *)
Lemma part000_onSubmit_guard (f : Element) :
  wellFormed f = true ->
  (formVerdictOf Part000.wrapperVerdict f = true -> fst (Part000.onSubmit f) = noEffects)
  ∧ (formVerdictOf Part000.wrapperVerdict f = false ->
     defaultPrevented (fst (Part000.onSubmit f)) = true
     ∧ propagationStopped (fst (Part000.onSubmit f)) = true
     ∧ (exists p, scrolledIntoView (fst (Part000.onSubmit f)) = Some p
                  ∧ firstWhere (contains "is-error") p (snd (Part000.onSubmit f)))).
Proof.
  intros Hwf. rewrite part000_onSubmit_guardSubmit.
  apply (guardSubmit_spec Part000.wrapperVerdict);
    auto using part000_validateInput_verdict, part000_wrapperVerdict_erase,
      part000_validateInput_erase_valid, part000_validateInput_erase.
  intros e He. destruct (part000_wrapperVerdict_false e He) as (i & t & Hi & Ht).
  destruct (errorTarget_valid e t Ht) as [x Hx]. exists t, x. split; [done|].
  rewrite (part000_validateInput_eq e i t), He by done.
  by apply present_class_open.
Qed.

(** ** The aggregation *)




(** The same for the older revision. *)
Lemma part000_aggregation_idempotent (form : Element) (se se' : bool) :
  leafTexts form = true ->
  let once := Part000.validateForm form se in
  let twice := Part000.validateForm (snd once) se' in
  fst once = formVerdictOf Part000.wrapperVerdict form
  ∧ submitDisabled (snd once)
    = (fun _ => negb (formVerdictOf Part000.wrapperVerdict form))
        <$> querySelector sel_submit form
  ∧ fst twice = fst once
  ∧ submitDisabled (snd twice) = submitDisabled (snd once).
Proof.
  intros Hf. cbv zeta. rewrite !part000_validateForm_aggregate.
  apply (aggregate_twice Part000.wrapperVerdict);
    auto using part000_validateInput_verdict, part000_wrapperVerdict_erase,
      part000_validateInput_erase_valid, part000_validateInput_erase.
Qed.

(** The same for the second document, when in addition no textarea
    declares the checkbox rule, so that no pass throws. *)
Lemma variant2_aggregation_idempotent (form : Element) (se fo se' fo' : bool) :
  leafTexts form = true -> noCheckboxTextarea form = true ->
  let once := Variant2.validateForm form se fo in
  let twice := Variant2.validateForm (snd once) se' fo' in
  fst once = Some (formVerdictOf Variant2.wrapperVerdict form)
  ∧ submitDisabled (snd once)
    = (fun _ => negb (formVerdictOf Variant2.wrapperVerdict form))
        <$> querySelector sel_submit form
  ∧ fst twice = fst once
  ∧ submitDisabled (snd twice) = submitDisabled (snd once).
Proof.
  intros Hf Hn. cbv zeta.
  assert (noCheckboxTextarea (snd (Variant2.validateForm form se fo)) = true) as Hn'
    by (by rewrite noCheckboxTextarea_validateForm).
  rewrite (variant2_validateForm_safe form se fo Hn) in Hn' |- *. simpl in Hn' |- *.
  rewrite (variant2_validateForm_safe _ se' fo' Hn'). simpl.
  destruct (aggregate_twice unfailed
              (returning (fun w => Variant2.validateInput w se fo))
              (returning (fun w => Variant2.validateInput w se' fo')) form)
    as (H1 & H2 & H3 & H4);
    auto using variant2_returning_verdict, unfailed_erase, variant2_returning_erase.
  rewrite (formVerdictOf_unfailed form Hn) in *.
  split; [done|]. split; [done|]. split; [|done].
  f_equal. by rewrite <- (formVerdictOf_unfailed _ Hn'), <- (aggregate_verdict unfailed
    (returning (fun w => Variant2.validateInput w se' fo'))), H3, H1
    by auto using variant2_returning_verdict, unfailed_erase, variant2_returning_erase.
Qed.

(** ** Missing elements *)

(** C9, as amended.  A wrapper without an input or textarea is valid, and
    the pass leaves it as it is; in a wrapper without an error label only
    the part of the presentation that concerns the label is skipped:
    [showError] and [hideError] still set the class of the field, and the
    verdict is that of the field's rule. *)
Theorem missing_elements_fail_open (w : Element) (se fo : bool) :
  (querySelector sel_input w = None -> validateInput w se fo = (true, w))
  ∧ (querySelector sel_errorLabel w = None ->
     (forall p, showError w p = mutate (onData (classAdd "is-error")) p w)
     ∧ (forall p, hideError w p = mutate (onData (classRemove "is-error")) p w)
     ∧ fst (validateInput w se fo) = wrapperVerdict w).
Proof.
  split; [apply validateInput_none|]. intros H.
  auto using showError_no_label, hideError_no_label, validateInput_verdict.
Qed.

Lemma missing_elements_witness :
  querySelector sel_input noField = None
  ∧ validateInput noField true true = (true, noField)
  ∧ querySelector sel_errorLabel noLabel = None
  ∧ fst (validateInput noLabel true true) = wrapperVerdict noLabel.
Proof.
  assert (querySelector sel_input noField = None) as H1 by (by vm_compute).
  assert (querySelector sel_errorLabel noLabel = None) as H2 by (by vm_compute).
  exact (conj H1 (conj (proj1 (missing_elements_fail_open noField true true) H1)
           (conj H2 (proj2 (proj2 (proj2 (missing_elements_fail_open noLabel true true) H2)))))).
Defined.

(** C9 fails for a failing field without an error label: the presentation
    is not skipped, the field gets the class [is-error], and the field
    fails. *)
Lemma missing_label_counterexample :
  querySelector sel_errorLabel noLabel = None
  ∧ fst (validateInput noLabel true true) = false
  ∧ hasErrorClass [0] noLabel = false
  ∧ hasErrorClass [0] (snd (validateInput noLabel true true)) = true.
Proof. by vm_compute. Qed.

(** ** The display flags *)

(** C10.  The verdicts of [validateInput] and of [validateForm] are the
    same for all values of [showErrors] and [forceShowErrors], in the first
    document of validateForm.ts; so are those of the older revision for
    all values of [showErrors].  In the second document, where a pass may
    throw, the outcome of [validateInput], exception or verdict, is the same
    for all values of the flags; the verdicts of two calls of [validateForm]
    that both return are the same, and without a textarea that declares the
    checkbox rule every call returns. *)
Theorem verdict_ignores_display_flags (x : Element) (se fo se' fo' : bool) :
  fst (validateInput x se fo) = fst (validateInput x se' fo')
  ∧ fst (validateForm x se fo) = fst (validateForm x se' fo')
  ∧ fst (Variant2.validateInput x se fo) = fst (Variant2.validateInput x se' fo')
  ∧ (forall v v', fst (Variant2.validateForm x se fo) = Some v ->
                  fst (Variant2.validateForm x se' fo') = Some v' -> v = v')
  ∧ (noCheckboxTextarea x = true ->
     is_Some (fst (Variant2.validateForm x se fo))
     ∧ fst (Variant2.validateForm x se fo) = fst (Variant2.validateForm x se' fo'))
  ∧ fst (Part000.validateInput x se) = fst (Part000.validateInput x se')
  ∧ fst (Part000.validateForm x se) = fst (Part000.validateForm x se').
Proof.
  rewrite !validateInput_verdict, !validateForm_verdict, !part000_validateInput_verdict,
    !variant2_validateInput_fst.
  rewrite !part000_validateForm_aggregate.
  rewrite (aggregate_verdict Part000.wrapperVerdict (fun w => Part000.validateInput w se)),
    (aggregate_verdict Part000.wrapperVerdict (fun w => Part000.validateInput w se'));
    auto using part000_validateInput_verdict, part000_wrapperVerdict_erase,
      part000_validateInput_erase_valid.
  repeat split; try done.
  - intros v v' [-> _]%variant2_validateForm_returns [-> _]%variant2_validateForm_returns.
    done.
  - rewrite variant2_validateForm_safe by done. by eexists.
  - by rewrite !variant2_validateForm_safe by done.
Qed.

Lemma verdict_ignores_display_flags_witness :
  noCheckboxTextarea demoForm = true
  ∧ fst (Variant2.validateForm demoForm true true)
    = fst (Variant2.validateForm demoForm false false).
Proof.
  assert (noCheckboxTextarea demoForm = true) as H by (by vm_compute).
  exact (conj H (proj2 (proj1 (proj2 (proj2 (proj2 (proj2
           (verdict_ignores_display_flags demoForm true true false false))))) H))).
Defined.

(** In the second document the flags decide whether [validateForm] throws:
    shown, the error of the first field replaces the content of the label,
    the textarea with it, and the second wrapper has no field left to throw
    on. *)
Lemma variant2_flags_decide_exception :
  fst (Variant2.validateForm textareaInErrorText true true) = Some false
  ∧ fst (Variant2.validateForm textareaInErrorText false false) = None.
Proof. by vm_compute. Qed.

(** * Further properties of the code *)

(** ** The rules on values *)

Lemma isDigit_range c : isDigit c = true <-> (48 <= c <= 57)%N.
Proof. unfold isDigit. rewrite andb_true_iff, !N.leb_le. done. Qed.

Lemma digit_not_whiteSpace c : isDigit c = true -> isWhiteSpace c = false.
Proof.
  intros H%isDigit_range.
  assert (c = 48 ∨ c = 49 ∨ c = 50 ∨ c = 51 ∨ c = 52 ∨ c = 53 ∨ c = 54 ∨ c = 55
          ∨ c = 56 ∨ c = 57)%N as Hc by lia.
  repeat (destruct Hc as [->|Hc]; [reflexivity|]). by subst.
Qed.

Lemma whiteSpace_not_digit c : isWhiteSpace c = true -> isDigit c = false.
Proof.
  intros H. destruct (isDigit c) eqn:Hd; [|done].
  apply digit_not_whiteSpace in Hd. congruence.
Qed.

Lemma dropWhile_app_all p s t :
  Forall (fun c => p c = true) s -> dropWhile p (s ++ t) = dropWhile p t.
Proof. induction 1 as [|c s Hc _ IH]; simpl; [done|]. by rewrite Hc. Qed.

Lemma dropWhile_all p s : Forall (fun c => p c = true) s -> dropWhile p s = [].
Proof. intros H. rewrite <- (app_nil_r s). by rewrite dropWhile_app_all. Qed.

Lemma dropWhile_app_left p s t :
  dropWhile p s ≠ [] -> dropWhile p (s ++ t) = dropWhile p s ++ t.
Proof.
  induction s as [|c s IH]; simpl; [done|]. destruct (p c); [exact IH|done].
Qed.

Lemma dropWhile_nil_all p s : dropWhile p s = [] -> Forall (fun c => p c = true) s.
Proof.
  induction s as [|c s IH]; simpl; [done|].
  destruct (p c) eqn:Hc; [|done]. intros H. apply Forall_cons. auto.
Qed.

Lemma trimEnd_app_all s t :
  Forall (fun c => isWhiteSpace c = true) t -> trimEnd (s ++ t) = trimEnd s.
Proof.
  intros H. unfold trimEnd. rewrite rev_app_distr, dropWhile_app_all; [done|].
  apply Forall_forall. intros c Hc%list_elem_of_In%in_rev%list_elem_of_In.
  revert c Hc. by apply Forall_forall.
Qed.

(** White space around a value does not reach the rules. *)
Lemma trim_pad before s after :
  Forall (fun c => isWhiteSpace c = true) before ->
  Forall (fun c => isWhiteSpace c = true) after ->
  trim (before ++ s ++ after) = trim s.
Proof.
  intros Hb Ha. unfold trim, trimStart. rewrite dropWhile_app_all by done.
  destruct (dropWhile isWhiteSpace s) as [|c m] eqn:Hs.
  - rewrite dropWhile_app_all by by apply dropWhile_nil_all.
    by rewrite dropWhile_all.
  - rewrite dropWhile_app_left by by rewrite Hs.
    rewrite Hs. by apply trimEnd_app_all.
Qed.

Lemma trim_blank s : Forall (fun c => isWhiteSpace c = true) s -> trim s = [].
Proof. intros H. unfold trim, trimStart. by rewrite dropWhile_all. Qed.

Lemma digitCount_app s t : digitCount (s ++ t) = digitCount s + digitCount t.
Proof. induction s as [|c s IH]; simpl; [done|]. rewrite IH. lia. Qed.

Lemma digitCount_rev s : digitCount (rev s) = digitCount s.
Proof.
  induction s as [|c s IH]; simpl; [done|]. rewrite digitCount_app, IH. simpl. lia.
Qed.

Lemma digitCount_none s : Forall (fun c => isDigit c = false) s -> digitCount s = 0.
Proof. induction 1 as [|c s Hc _ IH]; simpl; [done|]. by rewrite Hc, IH. Qed.

Lemma digitCount_all s : Forall (fun c => isDigit c = true) s -> digitCount s = length s.
Proof. induction 1 as [|c s Hc _ IH]; simpl; [done|]. by rewrite Hc, IH. Qed.

Lemma digitCount_blank s : Forall (fun c => isWhiteSpace c = true) s -> digitCount s = 0.
Proof.
  intros H. apply digitCount_none. eapply Forall_impl; [exact H|].
  intros c. apply whiteSpace_not_digit.
Qed.

Lemma digitCount_trim s : digitCount (trim s) = digitCount s.
Proof.
  destruct (trim_spec s) as (before & after & Hs & Hb & Ha & _).
  rewrite Hs at 2.
  rewrite !digitCount_app, (digitCount_blank before), (digitCount_blank after) by done. lia.
Qed.

Lemma emailShaped_nil : ¬ emailShaped [].
Proof. intros (loc & dom & tld & H & Hl & _). by destruct loc. Qed.

Lemma count_occ_none (s : list N) (x : N) :
  Forall (fun c => c ≠ x) s -> count_occ N.eq_dec s x = 0.
Proof.
  induction 1 as [|c s Hc _ IH]; simpl; [done|]. by destruct (N.eq_dec c x).
Qed.

Lemma notSpaceNorAt_spec c :
  notSpaceNorAt c = true <-> isWhiteSpace c = false ∧ c ≠ 64%N.
Proof.
  unfold notSpaceNorAt. rewrite negb_true_iff, orb_false_iff, N.eqb_neq. done.
Qed.

(** X1.  The email rule passes exactly the values that, once trimmed, have
    the shape [local@domain.tld]. *)
Theorem validateEmail_shape (input : Data) :
  validateEmail input = true <-> emailShaped (trim (value input)).
Proof. unfold validateEmail. apply emailRegex_shape. Qed.

(** X2.  A value that passes the email rule holds, once trimmed, exactly one
    "@", no white space and at least five code units. *)
Theorem validateEmail_necessary (input : Data) :
  validateEmail input = true ->
  count_occ N.eq_dec (trim (value input)) 64%N = 1
  ∧ Forall (fun c => isWhiteSpace c = false) (trim (value input))
  ∧ 5 <= length (trim (value input)).
Proof.
  unfold validateEmail. intros (loc & dom & tld & -> & Hl & Hd & Ht & Hall)%emailRegex_shape.
  apply Forall_app in Hall as [Hloc [Hdom Htld]%Forall_app].
  assert (forall l, Forall (fun c => notSpaceNorAt c = true) l ->
                    Forall (fun c => c ≠ 64%N) l ∧ Forall (fun c => isWhiteSpace c = false) l)
    as Hparts.
  { intros l H. split; (eapply Forall_impl; [exact H|]); by intros c [? ?]%notSpaceNorAt_spec. }
  destruct (Hparts _ Hloc) as [? ?], (Hparts _ Hdom) as [? ?], (Hparts _ Htld) as [? ?].
  split; [|split].
  - rewrite !count_occ_app, (count_occ_none loc), (count_occ_none dom),
      (count_occ_none tld) by done. reflexivity.
  - rewrite !Forall_app. repeat split; try done; by apply Forall_cons.
  - rewrite !length_app. simpl.
    destruct loc; [done|]. destruct dom; [done|]. destruct tld; [done|]. simpl. lia.
Qed.

Lemma validateEmail_necessary_witness :
  validateEmail (data (field "input" [("type", "email")] [] " a@b.co " false)) = true
  ∧ count_occ N.eq_dec
      (trim (value (data (field "input" [("type", "email")] [] " a@b.co " false)))) 64%N = 1.
Proof.
  assert (validateEmail (data (field "input" [("type", "email")] [] " a@b.co " false)) = true)
    as H by (by vm_compute).
  exact (conj H (proj1 (validateEmail_necessary _ H))).
Defined.

(** *** White space and blank values *)

Lemma ruleVerdict_value (d d' : Data) :
  attributes d' = attributes d -> tagName d' = tagName d -> checked d' = checked d ->
  trim (value d') = trim (value d) -> digitCount (value d') = digitCount (value d) ->
  ruleVerdict d' = ruleVerdict d
  ∧ Part000.ruleVerdict d' = Part000.ruleVerdict d
  ∧ Variant2.textVerdict d' = Variant2.textVerdict d.
Proof.
  intros Ha Ht Hc Htrim Hdig.
  unfold ruleVerdict, Part000.ruleVerdict, Variant2.textVerdict, hasAttribute, getAttribute,
    type, validateLength, Part000.validateLength, Variant2.validateLength,
    validatePhone, Variant2.validatePhone, Part000.validatePhone, validateEmail,
    validateCheckbox.
  by rewrite !digitCount_removeAll, Ha, Ht, Hc, Htrim, Hdig.
Qed.

(** X3.  White space before and after a value changes the verdict of no
    rule, in any revision. *)
Theorem verdict_ignores_padding (input : Data) (before after : list N) :
  Forall (fun c => isWhiteSpace c = true) before ->
  Forall (fun c => isWhiteSpace c = true) after ->
  ruleVerdict (padded before after input) = ruleVerdict input
  ∧ Part000.ruleVerdict (padded before after input) = Part000.ruleVerdict input
  ∧ Variant2.textVerdict (padded before after input) = Variant2.textVerdict input.
Proof.
  intros Hb Ha. apply ruleVerdict_value; try done; simpl.
  - by apply trim_pad.
  - rewrite !digitCount_app, (digitCount_blank before), (digitCount_blank after) by done.
    lia.
Qed.

Lemma verdict_ignores_padding_witness :
  ruleVerdict (padded (js "  ") (js " ") (phoneField "12345 67890"))
  = ruleVerdict (phoneField "12345 67890").
Proof.
  assert (Forall (fun c => isWhiteSpace c = true) (js "  ")) as H1
    by (repeat constructor).
  assert (Forall (fun c => isWhiteSpace c = true) (js " ")) as H2
    by (repeat constructor).
  exact (proj1 (verdict_ignores_padding (phoneField "12345 67890") _ _ H1 H2)).
Defined.

(** X4.  A value of white space only, the empty value included: the length
    rule passes it only for a negative minimum (a minimum of at most zero in
    the older revision), and the email and phone rules fail it. *)
Theorem blank_value (input : Data) (M : Z) :
  Forall (fun c => isWhiteSpace c = true) (value input) ->
  validateLength input (Int M) = (M <? 0)%Z
  ∧ Variant2.validateLength input (Int M) = (M <? 0)%Z
  ∧ Part000.validateLength input (Int M) = (M <=? 0)%Z
  ∧ validateEmail input = false
  ∧ validatePhone input = false
  ∧ Variant2.validatePhone input = false
  ∧ Part000.validatePhone input = false.
Proof.
  intros H.
  unfold validateLength, Variant2.validateLength, Part000.validateLength, validateEmail,
    validatePhone, Variant2.validatePhone, Part000.validatePhone.
  rewrite !digitCount_removeAll, digitCount_blank, trim_blank by done.
  repeat split; reflexivity.
Qed.

Lemma blank_value_witness :
  validateLength (data (field "input" [] [] "   " false)) (Int 0) = false
  ∧ Part000.validateLength (data (field "input" [] [] "   " false)) (Int 0) = true.
Proof.
  assert (Forall (fun c => isWhiteSpace c = true)
            (value (data (field "input" [] [] "   " false)))) as H
    by (repeat constructor).
  pose proof (blank_value _ 0 H) as (H1 & _ & H3 & _).
  exact (conj H1 H3).
Defined.

(** *** The filter of the phone input listener *)

Lemma removeAll_cons cls c s :
  removeAll cls (c :: s) = if cls c then removeAll cls s else c :: removeAll cls s.
Proof. unfold removeAll. rewrite filter_cons. by destruct (cls c). Qed.

Lemma removeAll_clean cls s :
  Forall (fun c => cls c = false) s -> removeAll cls s = s.
Proof.
  induction 1 as [|c s Hc _ IH]; [done|]. by rewrite removeAll_cons, Hc, IH.
Qed.

Lemma removeAll_all cls s : Forall (fun c => cls c = false) (removeAll cls s).
Proof.
  induction s as [|c s IH]; [constructor|]. rewrite removeAll_cons.
  destruct (cls c) eqn:Hc; [done|]. by apply Forall_cons.
Qed.

Lemma removeAll_length cls s : length (removeAll cls s) <= length s.
Proof.
  induction s as [|c s IH]; [done|]. rewrite removeAll_cons.
  destruct (cls c); simpl; lia.
Qed.

Lemma digit_is_phoneChar c : isDigit c = true -> notPhoneChar c = false.
Proof. intros H. unfold notPhoneChar. by rewrite H. Qed.

Lemma digitCount_filter s : digitCount (removeAll notPhoneChar s) = digitCount s.
Proof.
  induction s as [|c s IH]; [done|]. rewrite removeAll_cons.
  destruct (notPhoneChar c) eqn:Hc; simpl; rewrite IH; [|done].
  destruct (isDigit c) eqn:Hd; [|done].
  apply digit_is_phoneChar in Hd. congruence.
Qed.

Lemma notPhoneChar_false c : notPhoneChar c = false <-> phoneCharacter c.
Proof.
  unfold notPhoneChar, phoneCharacter.
  rewrite negb_false_iff, !orb_true_iff, !N.eqb_eq, !elem_of_cons, elem_of_nil. tauto.
Qed.

(** X5.  The filter of the phone input listener keeps the digits, "+", "-",
    "(", ")", "." and white space, in their order, and removes everything
    else: what it leaves holds only such characters, it leaves a value of
    such characters as it is (so filtering twice is filtering once), and it
    changes neither the number of digits nor the verdict of the phone rule
    of validateForm.ts. *)
Theorem phone_filter (input : Data) :
  value (filtered input) = filter phoneCharacter (value input)
  ∧ Forall phoneCharacter (value (filtered input))
  ∧ (Forall phoneCharacter (value input) -> filtered input = input)
  ∧ filtered (filtered input) = filtered input
  ∧ length (value (filtered input)) <= length (value input)
  ∧ digitCount (value (filtered input)) = digitCount (value input)
  ∧ validatePhone (filtered input) = validatePhone input
  ∧ Variant2.validatePhone (filtered input) = Variant2.validatePhone input.
Proof.
  unfold filtered, validatePhone, Variant2.validatePhone. simpl.
  rewrite !digitCount_removeAll, digitCount_filter.
  repeat split.
  - unfold removeAll. apply list_filter_iff. intros c.
    by rewrite negb_true_iff, notPhoneChar_false.
  - eapply Forall_impl; [apply removeAll_all|]. intros c. apply notPhoneChar_false.
  - intros H. destruct input. unfold setValue. simpl in *. f_equal.
    apply removeAll_clean. eapply Forall_impl; [exact H|]. intros c. apply notPhoneChar_false.
  - unfold setValue. simpl. by rewrite removeAll_clean by apply removeAll_all.
  - apply removeAll_length.
Qed.

Lemma phone_filter_witness :
  Forall phoneCharacter (value writtenPhone) ∧ filtered writtenPhone = writtenPhone.
Proof.
  assert (Forall phoneCharacter (value writtenPhone)) as H.
  { apply Forall_forall. intros c Hc. apply notPhoneChar_false.
    revert c Hc. apply Forall_forall. vm_compute. repeat constructor. }
  exact (conj H (proj1 (proj2 (proj2 (phone_filter writtenPhone))) H)).
Defined.

(** *** The format of the older phone rule *)

Lemma Matches_Eps s : Matches Eps s <-> s = [].
Proof. split; [intros H; by invert H|intros ->; constructor]. Qed.

Lemma Matches_Opt r s : Matches (Opt r) s <-> s = [] ∨ Matches r s.
Proof. unfold Opt. by rewrite Matches_Alt, Matches_Eps. Qed.

Lemma Matches_Rep_Class n p s :
  Matches (Rep n (Class p)) s -> length s = n ∧ Forall (fun c => p c = true) s.
Proof.
  revert s. induction n as [|n IH]; intros s; simpl.
  - by intros ->%Matches_Eps.
  - intros (s1 & s2 & -> & (c & -> & Hc)%Matches_Class & [<- ?]%IH)%Matches_Cat.
    split; [done|]. by apply Forall_cons.
Qed.

Lemma Matches_RepUpTo_Class n p s :
  Matches (RepUpTo n (Class p)) s -> length s <= n ∧ Forall (fun c => p c = true) s.
Proof.
  revert s. induction n as [|n IH]; intros s; simpl.
  - by intros ->%Matches_Eps.
  - intros [->|(s1 & s2 & -> & (c & -> & Hc)%Matches_Class & [? ?]%IH)%Matches_Cat]%Matches_Opt.
    + split; [simpl; lia|done].
    + split; [simpl; lia|]. by apply Forall_cons.
Qed.

Lemma digitCount_digits n s :
  Matches (Rep n (Class isDigit)) s -> digitCount s = n.
Proof. intros [<- H]%Matches_Rep_Class. by apply digitCount_all. Qed.

Lemma separator_not_digit c : Part000.separator c = true -> isDigit c = false.
Proof.
  unfold Part000.separator. rewrite !orb_true_iff, !N.eqb_eq.
  intros [[ ->|?]| ->]; [done| |done]. by apply whiteSpace_not_digit.
Qed.

Lemma digitCount_Opt p s :
  (forall c, p c = true -> isDigit c = false) ->
  Matches (Opt (Class p)) s -> digitCount s = 0.
Proof.
  intros Hp [->|(c & -> & Hc)%Matches_Class]%Matches_Opt; [done|].
  simpl. by rewrite (Hp c Hc).
Qed.

Lemma digitCount_Opt_Chr c s :
  isDigit c = false -> Matches (Opt (Chr c)) s -> digitCount s = 0.
Proof.
  intros Hc. apply digitCount_Opt. by intros x <-%N.eqb_eq.
Qed.

Lemma phoneRegex_digits s :
  Matches Part000.phoneRegex s -> 10 <= digitCount s <= 12.
Proof.
  unfold Part000.phoneRegex.
  intros (s1 & r1 & -> & H1 & (s2 & r2 & -> & H2 & (s3 & r3 & -> & H3 & (s4 & r4 & -> & H4 &
    (s5 & r5 & -> & H5 & (s6 & r6 & -> & H6 & (s7 & s8 & -> & H7 & H8)%Matches_Cat)%Matches_Cat
    )%Matches_Cat)%Matches_Cat)%Matches_Cat)%Matches_Cat)%Matches_Cat.
  rewrite !digitCount_app.
  rewrite (digitCount_Opt_Chr 43 s1 eq_refl H1).
  rewrite (digitCount_Opt_Chr 40 s2 eq_refl H2).
  rewrite (digitCount_digits _ _ H3).
  rewrite (digitCount_Opt_Chr 41 s4 eq_refl H4).
  rewrite (digitCount_Opt _ s5 separator_not_digit H5).
  rewrite (digitCount_digits _ _ H6).
  rewrite (digitCount_Opt _ s7 separator_not_digit H7).
  unfold RepRange in H8.
  apply Matches_Cat in H8 as (a & b & -> & Ha%digitCount_digits & [Hb Hb']%Matches_RepUpTo_Class).
  rewrite digitCount_app, Ha, (digitCount_all b) by done. simpl in Hb. lia.
Qed.

Lemma part000_phone_digits input :
  Part000.validatePhone input = true -> 10 <= digitCount (value input) <= 12.
Proof.
  unfold Part000.validatePhone. intros H%test_Matches%phoneRegex_digits.
  by rewrite digitCount_trim in H.
Qed.

(** X6.  A value that the phone rule of the older revision passes holds
    between 10 and 12 digits; so the phone rules of both documents of
    validateForm.ts pass every value the older rule passes. *)
Theorem old_phone_format_has_digits (input : Data) :
  Part000.validatePhone input = true ->
  10 <= digitCount (value input) <= 12
  ∧ validatePhone input = true
  ∧ Variant2.validatePhone input = true.
Proof.
  intros H%part000_phone_digits. unfold validatePhone, Variant2.validatePhone.
  rewrite !digitCount_removeAll. split; [done|].
  split; apply Nat.leb_le; lia.
Qed.

Lemma old_phone_format_witness :
  Part000.validatePhone (phoneField " +(123) 456-7890 ") = true
  ∧ validatePhone (phoneField " +(123) 456-7890 ") = true.
Proof.
  assert (Part000.validatePhone (phoneField " +(123) 456-7890 ") = true) as H
    by (by vm_compute).
  exact (conj H (proj1 (proj2 (old_phone_format_has_digits _ H)))).
Defined.

(** *** The minimum length attribute *)

Lemma takeWhile_app_stop p s t :
  Forall (fun c => p c = true) s -> (forall c, head t = Some c -> p c = false) ->
  takeWhile p (s ++ t) = s.
Proof.
  intros Hs Ht. induction Hs as [|c s Hc _ IH]; simpl.
  - destruct t as [|c t]; [done|]. simpl. by rewrite (Ht c).
  - by rewrite Hc, IH.
Qed.

Lemma parseInt10_digits ds rest :
  ds ≠ [] -> Forall (fun c => isDigit c = true) ds ->
  (forall c, head rest = Some c -> isDigit c = false) ->
  parseInt10 (ds ++ rest) = Int (digitsValue ds).
Proof.
  intros Hne Hds Hrest. destruct ds as [|c ds]; [done|].
  pose proof Hds as [Hc Hds']%Forall_cons.
  unfold parseInt10, trimStart. simpl dropWhile.
  rewrite (digit_not_whiteSpace c Hc).
  apply isDigit_range in Hc as Hr.
  assert ((c =? 45)%N = false) as -> by (apply N.eqb_neq; lia).
  assert ((c =? 43)%N = false) as -> by (apply N.eqb_neq; lia).
  change (c :: ds ++ rest) with ((c :: ds) ++ rest).
  rewrite takeWhile_app_stop by done. by rewrite Z.mul_1_l.
Qed.

Lemma parseInt10_NaN c r :
  isDigit c = false -> isWhiteSpace c = false -> c ≠ 45%N -> c ≠ 43%N ->
  parseInt10 (c :: r) = NaN.
Proof.
  intros Hd Hw H1%N.eqb_neq H2%N.eqb_neq. unfold parseInt10, trimStart. simpl.
  rewrite Hw, H1, H2. simpl. by rewrite Hd.
Qed.

Lemma selected_length input :
  selectedRule input = Some LengthRule ->
  hasAttribute "input-validation-length" input = true
  ∧ hasAttribute "input-validation-phone" input = false
  ∧ bool_decide (type input = js "email") = false
  ∧ hasAttribute "input-validation-checkbox" input = false.
Proof.
  rewrite selectedRule_cases. unfold declares.
  by destruct (hasAttribute "input-validation-checkbox" input),
    (bool_decide (type input = js "email")), (hasAttribute "input-validation-phone" input),
    (hasAttribute "input-validation-length" input).
Qed.

Lemma length_field_verdict input :
  selectedRule input = Some LengthRule ->
  let m := parseInt10 (orDefault (getAttribute "input-validation-length" input) (js "0")) in
  ruleVerdict input = validateLength input m
  ∧ Variant2.textVerdict input = Variant2.validateLength input m
  ∧ Part000.ruleVerdict input = Part000.validateLength input m.
Proof.
  intros (H1 & H2 & H3 & H4)%selected_length.
  unfold ruleVerdict, Variant2.textVerdict, Part000.ruleVerdict.
  by rewrite H1, H2, H3, ?H4.
Qed.

(** X7.  The minimum of a length field is the number its attribute starts
    with: what follows the digits is ignored. *)
Theorem minimum_from_digits (input : Data) (ds rest : list N) :
  selectedRule input = Some LengthRule ->
  getAttribute "input-validation-length" input = Some (ds ++ rest) ->
  ds ≠ [] -> Forall (fun c => isDigit c = true) ds ->
  (forall c, head rest = Some c -> isDigit c = false) ->
  let len := Z.of_nat (length (trim (value input))) in
  ruleVerdict input = (digitsValue ds <? len)%Z
  ∧ Variant2.textVerdict input = (digitsValue ds <? len)%Z
  ∧ Part000.ruleVerdict input = (digitsValue ds <=? len)%Z.
Proof.
  intros Hsel Ha Hne Hds Hrest.
  destruct (length_field_verdict input Hsel) as (-> & -> & ->).
  rewrite Ha.
  assert (orDefault (Some (ds ++ rest)) (js "0") = ds ++ rest) as ->
    by (by destruct ds).
  by rewrite parseInt10_digits.
Qed.

Lemma minimum_from_digits_witness :
  digitsValue (js "5") = 5%Z
  ∧ ruleVerdict looseMinimum = (digitsValue (js "5") <? 6)%Z.
Proof.
  assert (selectedRule looseMinimum = Some LengthRule) as H1 by (by vm_compute).
  assert (getAttribute "input-validation-length" looseMinimum = Some (js "5" ++ js "px")) as H2
    by (by vm_compute).
  assert (js "5" ≠ []) as H3 by done.
  assert (Forall (fun c => isDigit c = true) (js "5")) as H4 by (repeat constructor).
  assert (forall c, head (js "px") = Some c -> isDigit c = false) as H5
    by (by intros c [= <-]).
  exact (conj eq_refl (proj1 (minimum_from_digits looseMinimum _ _ H1 H2 H3 H4 H5))).
Defined.

(** X8.  A length field whose attribute is empty has the minimum zero: it
    passes exactly when its value is not blank; in the older revision it
    passes with every value. *)
Theorem empty_minimum (input : Data) :
  selectedRule input = Some LengthRule ->
  getAttribute "input-validation-length" input = Some [] ->
  ruleVerdict input = negb (bool_decide (trim (value input) = []))
  ∧ Variant2.textVerdict input = negb (bool_decide (trim (value input) = []))
  ∧ Part000.ruleVerdict input = true.
Proof.
  intros Hsel Ha.
  destruct (length_field_verdict input Hsel) as (-> & -> & ->).
  rewrite Ha. unfold validateLength, Variant2.validateLength, Part000.validateLength.
  by destruct (trim (value input)).
Qed.

Lemma empty_minimum_witness :
  ruleVerdict emptyMinimum = negb (bool_decide (trim (value emptyMinimum) = []))
  ∧ Part000.ruleVerdict emptyMinimum = true.
Proof.
  assert (selectedRule emptyMinimum = Some LengthRule) as H1 by (by vm_compute).
  assert (getAttribute "input-validation-length" emptyMinimum = Some []) as H2
    by (by vm_compute).
  pose proof (empty_minimum emptyMinimum H1 H2) as (Ha & _ & Hb).
  exact (conj Ha Hb).
Defined.

(** X9.  A length field whose attribute starts with a character that is
    neither a digit, a sign nor white space fails with every value, in every
    revision. *)
Theorem non_numeric_minimum_fails (input : Data) (c : N) (r : list N) :
  selectedRule input = Some LengthRule ->
  getAttribute "input-validation-length" input = Some (c :: r) ->
  isDigit c = false -> isWhiteSpace c = false -> c ≠ 45%N -> c ≠ 43%N ->
  ruleVerdict input = false
  ∧ Variant2.textVerdict input = false
  ∧ Part000.ruleVerdict input = false.
Proof.
  intros Hsel Ha Hd Hw H1 H2.
  destruct (length_field_verdict input Hsel) as (-> & -> & ->).
  rewrite Ha. simpl orDefault. by rewrite parseInt10_NaN.
Qed.

Lemma non_numeric_minimum_fails_witness :
  getAttribute "input-validation-length" badMinimum = Some (js "abc")
  ∧ ruleVerdict badMinimum = false.
Proof.
  assert (selectedRule badMinimum = Some LengthRule) as H1 by (by vm_compute).
  assert (getAttribute "input-validation-length" badMinimum = Some (97%N :: js "bc")) as H2
    by (by vm_compute).
  assert (97%N ≠ 45%N) as H3 by done.
  assert (97%N ≠ 43%N) as H4 by done.
  exact (conj H2 (proj1 (non_numeric_minimum_fails badMinimum _ _ H1 H2 eq_refl eq_refl H3 H4))).
Defined.

(** *** The verdicts of the three revisions *)

(** X10.  The second document of validateForm.ts passes every field that the
    first document passes. The older revision passes every field that the
    first document passes, unless the rule of the field is the phone rule;
    for a phone field it is the other way round, the first document passes
    every field that the older revision passes. *)
Theorem verdicts_across_revisions (input : Data) :
  (ruleVerdict input = true ->
   (if hasAttribute "input-validation-checkbox" input then checked input
    else Variant2.textVerdict input) = true)
  ∧ (selectedRule input ≠ Some PhoneRule ->
     ruleVerdict input = true -> Part000.ruleVerdict input = true)
  ∧ (selectedRule input = Some PhoneRule ->
     Part000.ruleVerdict input = true -> ruleVerdict input = true).
Proof.
  rewrite ruleVerdict_selected, part000_ruleVerdict_selected, variant2_verdict_selected.
  unfold applyRule.
  destruct (selectedRule input) as [[]|]; simpl; (split; [|split]); try done.
  - unfold validateLength, Part000.validateLength. intros _.
    destruct (parseInt10 _) as [|m]; simpl; [done|].
    rewrite Z.ltb_lt, Z.leb_le. lia.
  - unfold validatePhone, Variant2.validatePhone. rewrite !Nat.leb_le. lia.
  - intros _ H%part000_phone_digits. unfold validatePhone.
    rewrite digitCount_removeAll. apply Nat.leb_le. lia.
Qed.

(** *** The content of the fields *)





(** ** The custom error text *)

Lemma querySelectorAt_same sel l t t' :
  stable sel = true -> erase t = erase t' ->
  querySelectorAt sel l t = querySelectorAt sel l t'.
Proof.
  intros Hs He. unfold querySelectorAt. pose proof (deref_same l t t' He) as H.
  destruct (deref l t) as [e|], (deref l t') as [e'|]; simpl in H; try done.
  injection H as H. by rewrite (querySelector_same sel e e').
Qed.

Lemma querySelectorAt_strictly_below sel l t x :
  querySelectorAt sel l t = Some x -> exists i r, x = l ++ i :: r.
Proof.
  unfold querySelectorAt. destruct (deref l t) as [e|]; [|done].
  destruct (querySelector sel e) as [q|] eqn:Hq; [|done]. intros [= <-].
  apply querySelector_found in Hq as (_ & _ & _ & Hne).
  destruct q as [|i r]; [done|]. eauto.
Qed.

Lemma descendants_setTextContent s e : descendants (setTextContent s e) = [].
Proof.
  destruct e as [d b cs]. simpl setTextContent. rewrite descendants_unfold.
  generalize 0. induction cs as [|c cs IH]; intros n; simpl; [done|]. apply IH.
Qed.

Lemma deref_onData_below g l i r t :
  deref (l ++ i :: r) (mutate (onData g) l t) = deref (l ++ i :: r) t.
Proof.
  rewrite !deref_app, deref_mutate. by destruct (deref l t) as [[d b cs]|].
Qed.

(** X12.  [showError] puts the custom text of the label, when that is not
    empty, in the place of what the element that carries it contained; no
    other text changes, and [hideError] changes no text at all. *)
Theorem showError_custom_text (w : Element) (p l x : Ref) (s : list N) :
  querySelector sel_errorLabel w = Some l ->
  querySelectorAt sel_errorText l w = Some x ->
  getAttribute "input-error-text" (the x w) = Some s ->
  text (the x (showError w p)) = (if bool_decide (s = []) then text (the x w) else s)
  ∧ (s ≠ [] -> forall e, deref x (showError w p) = Some e -> descendants e = [])
  ∧ (forall q, q ≠ x -> text (the q (showError w p)) = text (the q w))
  ∧ (forall q, text (the q (hideError w p)) = text (the q w)).
Proof.
  intros Hl Hx Hs.
  assert (forall q, text (the q (hideError w p)) = text (the q w)) as Hhide.
  { intros q. unfold hideError. cbv zeta.
    destruct (querySelector sel_errorLabel (mutate _ _ _)).
    - by rewrite !(the_mutate_kept text _ _ _ _ _ (actsAs_onData _)).
    - by rewrite !(the_mutate_kept text _ _ _ _ _ (actsAs_onData _)). }
  unfold showError. cbv zeta.
  set (w1 := mutate (onData (classAdd "is-error")) p w).
  assert (erase w1 = erase w) as H1 by apply addError_erase.
  assert (forall q, text (the q w1) = text (the q w)) as Ht1.
  { intros q. by apply (the_mutate_kept text _ _ _ _ _ (actsAs_onData _)). }
  rewrite (querySelector_same sel_errorLabel w1 w), Hl by done.
  rewrite (querySelectorAt_same sel_errorText l w1 w), Hx by done.
  assert (getAttribute "input-error-text" (the x w1) = Some s) as ->.
  { rewrite <- Hs. by apply (the_mutate_kept (getAttribute "input-error-text") _ _ _ _ _
                               (actsAs_onData _)). }
  destruct (querySelectorAt_strictly_below _ _ _ _ Hx) as (i & r & ->).
  assert (l ++ i :: r ≠ l) as Hne.
  { intros H. apply (f_equal length) in H. rewrite length_app in H. simpl in H. lia. }
  destruct s as [|c s]; simpl truthy; cbv iota.
  - rewrite bool_decide_eq_true_2 by done.
    split; [|split; [done|split; [|done]]].
    + by rewrite (the_mutate_kept text _ _ _ _ _ (actsAs_onData _)).
    + intros q _. by rewrite (the_mutate_kept text _ _ _ _ _ (actsAs_onData _)).
  - rewrite bool_decide_eq_false_2 by done. simpl orDefault.
    assert (is_Some (deref (l ++ i :: r) w1)) as Hv.
    { apply (valid_same _ w); [done|].
      unfold querySelectorAt in Hx. destruct (deref l w) as [e|] eqn:He; [|done].
      destruct (querySelector sel_errorText e) as [q|] eqn:Hq; [|done].
      injection Hx as Hx%app_inv_head. subst q.
      rewrite deref_app, He. by eapply querySelector_valid. }
    split; [|split; [|split; [|done]]].
    + rewrite (the_mutate_other _ _ _ _ _ (actsAs_onData _)) by done.
      by rewrite (the_mutate_here _ _ _ _ (actsAs_setTextContent _)).
    + intros _ e. rewrite deref_onData_below, deref_mutate.
      destruct (deref _ w1); [|done]. intros [= <-]. apply descendants_setTextContent.
    + intros q Hq. rewrite (the_mutate_kept text _ _ _ _ _ (actsAs_onData _)) by done.
      by rewrite (the_mutate_other _ _ _ _ _ (actsAs_setTextContent _)).
Qed.

Lemma showError_custom_text_witness :
  querySelector sel_errorLabel richLabel = Some [1]
  ∧ text (the [1; 0] (showError richLabel [0])) = js "Too short"
  ∧ querySelectorAll [[Tag "b"]] richLabel = [[1; 0; 0]]
  ∧ querySelectorAll [[Tag "b"]] (showError richLabel [0]) = [].
Proof.
  assert (querySelector sel_errorLabel richLabel = Some [1]) as H1 by (by vm_compute).
  assert (querySelectorAt sel_errorText [1] richLabel = Some [1; 0]) as H2 by (by vm_compute).
  assert (getAttribute "input-error-text" (the [1; 0] richLabel) = Some (js "Too short")) as H3
    by (by vm_compute).
  refine (conj H1 (conj (proj1 (showError_custom_text richLabel [0] _ _ _ H1 H2 H3)) _)).
  by vm_compute.
Defined.

(** ** The page after [validateForms] *)

Lemma pointwise_the R t t' q :
  R noData noData -> pointwise R t t' -> R (the q t) (the q t').
Proof.
  intros H0 H. specialize (H q). rewrite !the_read.
  by destruct H.
Qed.

Lemma calmer_refl d : calmer d d.
Proof. split; auto. Qed.

Lemma calmer_trans a b c : calmer a b -> calmer b c -> calmer a c.
Proof.
  intros [H1 H2] [K1 K2]. split; [auto|].
  destruct K2 as [K2|K2]; [|by right]. rewrite K2. exact H2.
Qed.

Lemma calmer_hide d : calmer d (setAttribute "style" (js "display: none;") d).
Proof. split; [done|]. right. apply getAttribute_setAttribute. Qed.

Lemma calmer_classRemove c d : calmer d (classRemove c d).
Proof. split; [apply contains_classRemove_other|by left]. Qed.

Lemma calmer_classAdd c d : c ≠ "is-error" -> calmer d (classAdd c d).
Proof.
  intros Hc. split; [|by left]. rewrite contains_classAdd_ne; [done|]. by intros <-.
Qed.

Lemma calmer_setAttribute a v d : a ≠ "style" -> calmer d (setAttribute a v d).
Proof.
  intros Ha. split; [done|]. left. unfold getAttribute. simpl.
  by apply lookup_insert_ne.
Qed.

Lemma calmer_style d d' v :
  calmer d d' -> getAttribute "style" d = Some (js "display: none;") ->
  v = getAttribute "style" d' -> v = Some (js "display: none;").
Proof. intros [_ [H|H]] Hd ->; congruence. Qed.

Lemma matches_isError d : matches sel_isError d = contains "is-error" d.
Proof. unfold matches. simpl. by destruct (contains _ _). Qed.

Lemma elem_of_querySelectorAllAt sel form t p :
  p ∈ querySelectorAllAt sel form t <-> inForm form t p ∧ matches sel (the p t) = true.
Proof.
  unfold querySelectorAllAt, inForm. destruct (deref form t) as [e|] eqn:He.
  - rewrite list_elem_of_fmap. split.
    + intros (r & -> & (x & Hx & Hm)%elem_of_querySelectorAll).
      split; [by exists e, r, x|].
      rewrite (the_app form r t e) by done. unfold the.
      by rewrite (descendants_deref e r x).
    + intros [(e' & r & x & [= <-] & -> & Hx) Hm]. exists r. split; [done|].
      apply elem_of_querySelectorAll. exists x. split; [done|].
      rewrite (the_app form r t e) in Hm by done. unfold the in Hm.
      by rewrite (descendants_deref e r x) in Hm.
  - split; [by intros ?%elem_of_nil|]. by intros [(? & ? & ? & ? & _) _].
Qed.

Lemma inForm_same form t t' p : erase t = erase t' -> inForm form t p -> inForm form t' p.
Proof.
  intros He (e & r & x & Hf & -> & Hx).
  pose proof (deref_same form t t' He) as H. rewrite Hf in H.
  destruct (deref form t') as [e'|] eqn:Hf'; [|done]. injection H as H.
  destruct (attached_same e e' r H) as [x' Hx'].
  { apply list_elem_of_fmap. by exists (r, x). }
  by exists e', r, x'.
Qed.

Lemma inForm_valid form t p : inForm form t p -> is_Some (deref p t).
Proof.
  intros (e & r & x & Hf & -> & Hx). rewrite deref_app, Hf. simpl.
  rewrite (descendants_deref e r x) by done. eauto.
Qed.

Lemma querySelectorAllAt_same sel l t t' :
  stable sel = true -> erase t = erase t' ->
  querySelectorAllAt sel l t = querySelectorAllAt sel l t'.
Proof.
  intros Hs He. unfold querySelectorAllAt. pose proof (deref_same l t t' He) as H.
  destruct (deref l t) as [e|], (deref l t') as [e'|]; simpl in H; try done.
  injection H as H. by rewrite (querySelectorAll_same sel e e').
Qed.

(** Whatever shows no new error keeps a quiet form quiet. *)
Lemma quietAt_preserved form t t' :
  erase t = erase t' -> pointwise calmer t t' -> quietAt form t -> quietAt form t'.
Proof.
  intros He Hc [H1 H2]. split.
  - destruct (querySelectorAllAt sel_isError form t') as [|p ps] eqn:Hq; [done|].
    assert (p ∈ querySelectorAllAt sel_isError form t) as Hp; [|by rewrite H1 in Hp; apply elem_of_nil in Hp].
    assert (p ∈ querySelectorAllAt sel_isError form t') as [Hin Hm]%elem_of_querySelectorAllAt
      by (rewrite Hq; apply list_elem_of_here).
    apply elem_of_querySelectorAllAt. split; [by apply (inForm_same form t' t)|].
    rewrite matches_isError in *.
    by apply (pointwise_the calmer t t' p (calmer_refl _) Hc).
  - intros l Hl. rewrite <- (querySelectorAllAt_same sel_errorLabel form t t') in Hl by done.
    unfold labelStyle.
    by apply (calmer_style (the l t) (the l t') _
                (pointwise_the calmer t t' l (calmer_refl _) Hc) (H2 l Hl)).
Qed.

(** *** The two loops that clear the form *)

Lemma fold_mutate_calm g ps t :
  (forall d, calmer d (g d)) -> (forall d, eraseData (g d) = eraseData d) ->
  erase (fold_left (fun doc p => mutate (onData g) p doc) ps t) = erase t
  ∧ pointwise calmer t (fold_left (fun doc p => mutate (onData g) p doc) ps t).
Proof.
  intros Hg He. revert t. induction ps as [|p ps IH]; intros t; simpl.
  - split; [done|]. apply pointwise_refl, calmer_refl.
  - destruct (IH (mutate (onData g) p t)) as [H1 H2]. split.
    + rewrite H1. by apply erase_mutate_onData.
    + eapply pointwise_trans; [apply calmer_trans| |exact H2].
      apply pointwise_onData; [apply calmer_refl|done].
Qed.

Lemma fold_hide_at ls t l :
  l ∈ ls -> is_Some (deref l t) ->
  labelStyle l (fold_left
                  (fun doc p => mutate (onData (setAttribute "style" (js "display: none;"))) p doc)
                  ls t)
  = Some (js "display: none;").
Proof.
  intros (a & b & ->)%list_elem_of_split Hv. rewrite fold_left_app. simpl.
  set (g := setAttribute "style" (js "display: none;")).
  set (t1 := fold_left _ a t).
  destruct (fold_mutate_calm g a t calmer_hide (eraseData_setStyle _)) as [E1 _].
  fold t1 in E1.
  destruct (fold_mutate_calm g b (mutate (onData g) l t1) calmer_hide (eraseData_setStyle _))
    as [_ C2].
  unfold labelStyle.
  apply (calmer_style _ _ _ (pointwise_the calmer _ _ l (calmer_refl _) C2)); [|done].
  rewrite (the_mutate_here _ _ _ _ (actsAs_onData _)); [apply getAttribute_setAttribute|].
  by apply (valid_same l t).
Qed.

Lemma fold_removeError_at ps t p :
  p ∈ ps ->
  contains "is-error"
    (the p (fold_left (fun doc q => mutate (onData (classRemove "is-error")) q doc) ps t))
  = false.
Proof.
  intros (a & b & ->)%list_elem_of_split. rewrite fold_left_app. simpl.
  set (g := classRemove "is-error").
  set (t1 := fold_left _ a t).
  destruct (fold_mutate_calm g b (mutate (onData g) p t1) (calmer_classRemove _)
              (fun d => eraseData_classRemove _ d written_isError)) as [_ C2].
  destruct (pointwise_the calmer _ _ p (calmer_refl _) C2) as [H _].
  apply not_true_is_false. intros Hc%H. revert Hc.
  rewrite the_read, (read_mutate _ _ _ _ _ (actsAs_onData _)), decide_True by done.
  destruct (read p t1); simpl; [|done]. unfold g. by rewrite contains_classRemove.
Qed.

(** After the two loops at the start of [validateForms], the form is
    quiet. *)
Lemma cleared_quiet form t :
  let t1 := fold_left
              (fun doc l => mutate (onData (setAttribute "style" (js "display: none;"))) l doc)
              (querySelectorAllAt sel_errorLabel form t) t in
  let t2 := fold_left
              (fun doc p => mutate (onData (classRemove "is-error")) p doc)
              (querySelectorAllAt sel_isError form t1) t1 in
  erase t2 = erase t ∧ pointwise calmer t t2 ∧ quietAt form t2.
Proof.
  intros t1 t2.
  destruct (fold_mutate_calm (setAttribute "style" (js "display: none;"))
              (querySelectorAllAt sel_errorLabel form t) t calmer_hide (eraseData_setStyle _))
    as [E1 C1]. fold t1 in E1, C1.
  destruct (fold_mutate_calm (classRemove "is-error")
              (querySelectorAllAt sel_isError form t1) t1 (calmer_classRemove _)
              (fun d => eraseData_classRemove _ d written_isError))
    as [E2 C2]. fold t2 in E2, C2.
  split; [congruence|]. split; [by eapply pointwise_trans; [apply calmer_trans|..]|].
  split.
  - destruct (querySelectorAllAt sel_isError form t2) as [|p ps] eqn:Hq; [done|].
    assert (p ∈ querySelectorAllAt sel_isError form t2) as [Hin Hm]%elem_of_querySelectorAllAt
      by (rewrite Hq; apply list_elem_of_here).
    rewrite matches_isError in Hm.
    assert (p ∈ querySelectorAllAt sel_isError form t1) as Hp.
    { apply elem_of_querySelectorAllAt. split; [by apply (inForm_same form t2 t1)|].
      rewrite matches_isError.
      by apply (pointwise_the calmer t1 t2 p (calmer_refl _) C2). }
    apply (fold_removeError_at _ t1) in Hp. fold t2 in Hp. congruence.
  - intros l Hl.
    rewrite (querySelectorAllAt_same sel_errorLabel form t2 t) in Hl by (done || congruence).
    unfold labelStyle.
    apply (calmer_style _ _ _ (pointwise_the calmer t1 t2 l (calmer_refl _) C2)); [|done].
    apply fold_hide_at; [done|].
    apply elem_of_querySelectorAllAt in Hl as [Hin _]. by eapply inForm_valid.
Qed.

(** *** The first validation, without [showErrors] *)

Lemma call_erase {A} (f : Element -> A * Element) dflt p t :
  (forall e, erase (snd (f e)) = erase e) -> erase (snd (call f dflt p t)) = erase t.
Proof.
  intros Hf. unfold call. destruct (deref p t) as [e|] eqn:He; [|done].
  specialize (Hf e). destruct (f e) as [a e']. simpl in *.
  apply erase_mutate. intros e0 He0. congruence.
Qed.

Lemma forEachWrapper_erase_always pass ws st :
  (forall w, erase (snd (pass w)) = erase w) ->
  erase (snd (forEachWrapper pass ws st)) = erase (snd st).
Proof.
  intros Hpass. revert st. induction ws as [|w ws IH]; intros [acc t]; [done|].
  unfold forEachWrapper in *. simpl fold_left.
  pose proof (call_erase pass true w t Hpass) as Hc.
  destruct (call pass true w t) as [v t']. simpl in *. rewrite <- Hc. apply (IH (_, t')).
Qed.

Lemma aggregate_erase_always pass f :
  (forall w, erase (snd (pass w)) = erase w) -> erase (snd (aggregate pass f)) = erase f.
Proof.
  intros Hpass. unfold aggregate. rewrite toggleSubmit_erase.
  by rewrite forEachWrapper_erase_always.
Qed.

Lemma calm_aggregate pass f :
  (forall e, pointwise calmer e (snd (pass e))) -> pointwise calmer f (snd (aggregate pass f)).
Proof.
  apply (pointwise_aggregate calmer calmer_refl calmer_trans);
    [intros d; by apply calmer_classAdd|apply calmer_classRemove].
Qed.

Lemma validateInput_hidden w fo :
  erase (snd (validateInput w false fo)) = erase w
  ∧ pointwise calmer w (snd (validateInput w false fo)).
Proof.
  unfold validateInput.
  destruct (querySelector sel_input w) as [i|];
    [|split; [done|apply pointwise_refl, calmer_refl]].
  simpl. destruct (hasAttribute "input-validation-checkbox" (the i w));
    [|split; [done|apply pointwise_refl, calmer_refl]].
  destruct (querySelector sel_checkbox w) as [b|];
    [|split; [done|apply pointwise_refl, calmer_refl]].
  split; [apply removeError_erase|].
  apply pointwise_onData; [apply calmer_refl|apply calmer_classRemove].
Qed.

Lemma part000_validateInput_hidden w :
  erase (snd (Part000.validateInput w false)) = erase w
  ∧ pointwise calmer w (snd (Part000.validateInput w false)).
Proof.
  unfold Part000.validateInput.
  destruct (querySelector sel_input w) as [i|];
    [|split; [done|apply pointwise_refl, calmer_refl]].
  simpl. destruct (hasAttribute "input-validation-checkbox" (the i w));
    [|split; [done|apply pointwise_refl, calmer_refl]].
  destruct (querySelector sel_checkbox w) as [b|];
    [|split; [done|apply pointwise_refl, calmer_refl]].
  split; [apply removeError_erase|].
  apply pointwise_onData; [apply calmer_refl|apply calmer_classRemove].
Qed.

Lemma calm_variant2_validateCheckbox w i :
  pointwise calmer w (snd (Variant2.validateCheckbox w i)).
Proof.
  apply (pointwise_variant2_validateCheckbox calmer calmer_refl calmer_trans);
    [intros v d; by apply calmer_setAttribute|intros d; by apply calmer_classAdd
    |apply calmer_classRemove].
Qed.

Lemma variant2_validateInput_hidden w fo :
  erase (snd (Variant2.validateInput w false fo)) = erase w
  ∧ pointwise calmer w (snd (Variant2.validateInput w false fo)).
Proof.
  unfold Variant2.validateInput.
  destruct (querySelector sel_input w) as [i|];
    [|split; [done|apply pointwise_refl, calmer_refl]].
  destruct (hasAttribute "input-validation-checkbox" (the i w));
    [|split; [done|apply pointwise_refl, calmer_refl]].
  pose proof (variant2_validateCheckbox_erase w i) as He.
  pose proof (calm_variant2_validateCheckbox w i) as Hc.
  by destruct (Variant2.validateCheckbox w i) as [[v|] w1].
Qed.

(** The start of [validateForms] for one form, up to the first
    validation: the form is quiet afterwards. *)
Lemma cleared_then_validated {A} form t (validate : Element -> A * Element) (dflt : A) :
  (forall e, erase (snd (validate e)) = erase e) ->
  (forall e, pointwise calmer e (snd (validate e))) ->
  let t1 := fold_left
              (fun doc l => mutate (onData (setAttribute "style" (js "display: none;"))) l doc)
              (querySelectorAllAt sel_errorLabel form t) t in
  let t2 := fold_left
              (fun doc p => mutate (onData (classRemove "is-error")) p doc)
              (querySelectorAllAt sel_isError form t1) t1 in
  let t3 := snd (call validate dflt form t2) in
  erase t3 = erase t ∧ pointwise calmer t t3 ∧ quietAt form t3.
Proof.
  intros He Hc t1 t2 t3.
  destruct (cleared_quiet form t) as (E2 & C2 & Q2). fold t1 t2 in E2, C2, Q2.
  assert (erase t3 = erase t2) as E3 by (by apply call_erase).
  assert (pointwise calmer t2 t3) as C3
    by (apply (pointwise_call calmer calmer_refl); exact Hc).
  split; [congruence|]. split; [by eapply pointwise_trans; [apply calmer_trans|..]|].
  by apply (quietAt_preserved form t2 t3).
Qed.

Lemma validateForm_hidden f fo :
  erase (snd (validateForm f false fo)) = erase f
  ∧ pointwise calmer f (snd (validateForm f false fo)).
Proof.
  rewrite validateForm_aggregate. split.
  - apply aggregate_erase_always. intros w. apply validateInput_hidden.
  - apply calm_aggregate. intros w. apply validateInput_hidden.
Qed.

Lemma part000_validateForm_hidden f :
  erase (snd (Part000.validateForm f false)) = erase f
  ∧ pointwise calmer f (snd (Part000.validateForm f false)).
Proof.
  rewrite part000_validateForm_aggregate. split.
  - apply aggregate_erase_always. intros w. apply part000_validateInput_hidden.
  - apply calm_aggregate. intros w. apply part000_validateInput_hidden.
Qed.

Lemma variant2_validateForm_hidden f fo :
  erase (snd (Variant2.validateForm f false fo)) = erase f
  ∧ pointwise calmer f (snd (Variant2.validateForm f false fo)).
Proof.
  rewrite variant2_validateForm_aggregate. split.
  - destruct (aggregateOrThrow_prefix (fun w => Variant2.validateInput w false fo) f)
      as (ws1 & st & _ & -> & [-> | ->]); [|rewrite toggleSubmit_erase];
      by (rewrite forEachWrapper_erase_always
            by (intros w; apply variant2_validateInput_hidden)).
  - apply (pointwise_aggregateOrThrow calmer calmer_refl calmer_trans);
      [intros d; by apply calmer_classAdd|apply calmer_classRemove|].
    intros w. apply variant2_validateInput_hidden.
Qed.

Lemma noCheckboxTextarea_erase t : noCheckboxTextarea (erase t) = noCheckboxTextarea t.
Proof.
  induction t as [d r cs IH] using Element_ind. simpl. f_equal.
  - rewrite hasAttribute_erase; [done|]. unfold writtenAttr. by intros [|].
  - induction IH as [|c cs Hc _ IHcs]; simpl; [done|]. by rewrite Hc, IHcs.
Qed.

Lemma noCheckboxTextarea_same t t' :
  erase t = erase t' -> noCheckboxTextarea t = noCheckboxTextarea t'.
Proof. intros H. by rewrite <- (noCheckboxTextarea_erase t), H, noCheckboxTextarea_erase. Qed.

(** *** All forms of the page *)

Lemma load_calm {L} (step : Element * L -> Ref -> Element * L) sections acc :
  (forall acc s, erase (fst (step acc s)) = erase (fst acc)
                 ∧ pointwise calmer (fst acc) (fst (step acc s))) ->
  erase (fst (fold_left step sections acc)) = erase (fst acc)
  ∧ pointwise calmer (fst acc) (fst (fold_left step sections acc)).
Proof.
  intros Hstep. revert acc. induction sections as [|s sections IH]; intros acc; simpl.
  - split; [done|apply pointwise_refl, calmer_refl].
  - destruct (IH (step acc s)) as [E C], (Hstep acc s) as [E1 C1].
    split; [congruence|]. by eapply pointwise_trans; [apply calmer_trans|..].
Qed.

Lemma load_quiet {L} (step : Element * L -> Ref -> Element * L) sections acc s form :
  (forall acc s, erase (fst (step acc s)) = erase (fst acc)
                 ∧ pointwise calmer (fst acc) (fst (step acc s))) ->
  (forall acc s form, querySelectorAt sel_form s (fst acc) = Some form ->
                      quietAt form (fst (step acc s))) ->
  s ∈ sections -> querySelectorAt sel_form s (fst acc) = Some form ->
  quietAt form (fst (fold_left step sections acc)).
Proof.
  intros Hcalm Hquiet. revert acc.
  induction sections as [|s0 sections IH]; intros acc Hs Hform.
  - by apply elem_of_nil in Hs.
  - simpl. apply elem_of_cons in Hs as [->|Hs].
    + destruct (load_calm step sections (step acc s0) Hcalm) as [E C].
      apply (quietAt_preserved form (fst (step acc s0))); auto.
    + apply IH; [done|]. rewrite <- Hform.
      apply querySelectorAt_same; [done|]. apply Hcalm.
Qed.

Lemma variant2_initWrapper_calm form wrapper t :
  erase (fst (Variant2.initWrapper form wrapper t)) = erase t
  ∧ pointwise calmer t (fst (Variant2.initWrapper form wrapper t)).
Proof.
  assert (erase t = erase t ∧ pointwise calmer t t) as Hrefl
    by (split; [done|apply pointwise_refl, calmer_refl]).
  unfold Variant2.initWrapper.
  destruct (querySelectorAt sel_input (form ++ wrapper) t) as [i|]; [|done].
  destruct (hasAttribute "input-validation-checkbox" (the i t)); [|done].
  simpl. destruct (default false (checkedProperty (the i t))); [|done].
  set (t1 := mutate (onData (setAttribute "data-checked" (js "true"))) i t).
  assert (erase t1 = erase t ∧ pointwise calmer t t1) as [E1 C1].
  { split.
    - apply erase_mutate_onData. intros d. apply eraseData_setAttribute. by right.
    - apply pointwise_onData; [apply calmer_refl|]. intros d. by apply calmer_setAttribute. }
  destruct (querySelectorAt sel_checkbox (form ++ wrapper) t1) as [b|]; [|done].
  split.
  - rewrite <- E1. apply erase_mutate_onData. intros d.
    apply eraseData_classAdd, written_redirected.
  - eapply pointwise_trans; [apply calmer_trans|exact C1|].
    apply pointwise_onData; [apply calmer_refl|]. intros d. by apply calmer_classAdd.
Qed.

(** One form section of the second document: whether [validateForm]
    throws or not, the form of the section is quiet afterwards, and on a
    document without a textarea that declares the checkbox rule it does
    not throw. *)
Lemma variant2_initSection_calm s d ls :
  let r := Variant2.initSection s d ls in
  erase (fst (snd r)) = erase d
  ∧ pointwise calmer d (fst (snd r))
  ∧ (forall F, querySelectorAt sel_form s d = Some F -> quietAt F (fst (snd r)))
  ∧ (noCheckboxTextarea d = true -> fst r = Some tt).
Proof.
  assert (forall F ws acc,
            let step := fun '(document, listeners) wrapper =>
                          let '(document, added) := Variant2.initWrapper F wrapper document in
                          (document, listeners ++ added) in
            erase (fst (fold_left step ws acc)) = erase (fst acc)
            ∧ pointwise calmer (fst acc) (fst (fold_left step ws acc))) as Hinit.
  { intros F ws acc step. apply load_calm. intros [d0 ls0] w. unfold step.
    pose proof (variant2_initWrapper_calm F w d0) as H.
    by destruct (Variant2.initWrapper F w d0). }
  unfold Variant2.initSection.
  destruct (querySelectorAt sel_form s d) as [F|] eqn:HF; simpl;
    [|split; [done|]; split; [apply pointwise_refl, calmer_refl|]; by split].
  destruct (cleared_then_validated F d (fun f => Variant2.validateForm f false false)
              (Some true))
    as (E & C & Q); [intros e; apply variant2_validateForm_hidden..|].
  cbv zeta in *.
  match goal with |- context [call _ (Some true) F ?t] => set (d2 := t) in * end.
  assert (noCheckboxTextarea d = true -> is_Some (fst (call
            (fun f => Variant2.validateForm f false false) (Some true) F d2))) as Hsafe.
  { intros Hd. unfold call. destruct (deref F d2) as [f|] eqn:Hf; [|by eexists].
    assert (noCheckboxTextarea f = true) as Hn.
    { apply (noCheckboxTextarea_deref F d2); [|done].
      rewrite <- Hd. apply noCheckboxTextarea_same.
      destruct (cleared_quiet F d) as (E2 & _). exact E2. }
    rewrite (variant2_validateForm_safe f false false Hn). by eexists. }
  destruct (call _ (Some true) F d2) as [[v|] d3]; simpl in *.
  - match goal with |- context [fold_left ?f ?ws (d3, ls)] =>
      destruct (Hinit F ws (d3, ls)) as [E4 C4];
      destruct (fold_left f ws (d3, ls)) as [d4 ls4] end.
    simpl in *. split; [congruence|].
    split; [by eapply pointwise_trans; [apply calmer_trans|..]|].
    split; [|done]. intros ? [= <-]. by apply (quietAt_preserved F d3 d4).
  - split; [done|]. split; [done|]. split; [by intros ? [= <-]|].
    intros Hd. by destruct (Hsafe Hd).
Qed.

Lemma variant2_load sections d ls :
  let step := fun '(completion, (document, listeners)) section =>
                match completion : option unit with
                | None => (None, (document, listeners))
                | Some _ => Variant2.initSection section document listeners
                end in
  let r := fold_left step sections (Some tt, (d, ls)) in
  erase (fst (snd r)) = erase d
  ∧ pointwise calmer d (fst (snd r))
  ∧ (fst r = Some tt ->
     forall s F, s ∈ sections -> querySelectorAt sel_form s d = Some F ->
                 quietAt F (fst (snd r)))
  ∧ (noCheckboxTextarea d = true -> fst r = Some tt).
Proof.
  intros step.
  assert (forall l x, fold_left step l (None, x) = (None, x)) as Hnone.
  { induction l as [|s l IH]; intros [d0 ls0]; [done|]. simpl. apply IH. }
  revert d ls. induction sections as [|s0 sections IH]; intros d ls; simpl.
  - split; [done|]. split; [apply pointwise_refl, calmer_refl|].
    split; [by intros _ s F ?%elem_of_nil|done].
  - destruct (variant2_initSection_calm s0 d ls) as (E0 & C0 & Q0 & S0).
    destruct (Variant2.initSection s0 d ls) as [[[]|] [d0 ls0]]; simpl in *.
    + destruct (IH d0 ls0) as (E & C & Q & S).
      split; [congruence|]. split; [by eapply pointwise_trans; [apply calmer_trans|..]|].
      split.
      * intros Hret s F [->|Hs]%elem_of_cons HF.
        -- apply (quietAt_preserved F d0); auto.
        -- apply (Q Hret s F Hs). rewrite <- HF. by apply querySelectorAt_same.
      * intros Hd. apply S. rewrite <- Hd. by apply noCheckboxTextarea_same.
    + rewrite Hnone. simpl. split; [done|]. split; [done|]. split; [done|].
      intros Hd. by apply S0.
Qed.

(** X13.  When [validateForms] has run, no form of the page shows an error:
    in every form that it found, no element carries the class [is-error] and
    every error label has the style "display: none;", whatever the markup
    showed before and whatever the fields hold.  That holds in the first
    document of validateForm.ts and in the older revision, and in the
    second document when [validateForms] returns, which it does when no
    textarea declares the checkbox rule.  Whether it returns or throws, no
    element shows an error afterwards that it did not show before. *)
Theorem page_load_shows_no_error (document : Element) (section form : Ref) :
  section ∈ querySelectorAll sel_wForm document ->
  querySelectorAt sel_form section document = Some form ->
  quietAt form (fst (validateForms document))
  ∧ quietAt form (fst (Part000.validateForms document))
  ∧ (fst (Variant2.validateForms document) = Some tt ->
     quietAt form (fst (snd (Variant2.validateForms document))))
  ∧ (noCheckboxTextarea document = true ->
     fst (Variant2.validateForms document) = Some tt)
  ∧ pointwise calmer document (fst (snd (Variant2.validateForms document))).
Proof.
  intros Hs Hf. split; [|split].
  - unfold validateForms. apply (load_quiet _ _ (document, []) section form); [| |done|done].
    + intros [d ls] s. simpl.
      destruct (querySelectorAt sel_form s d) as [F|];
        [|split; [done|apply pointwise_refl, calmer_refl]].
      destruct (cleared_then_validated F d (fun f => validateForm f false false) true)
        as (E & C & _); [intros e; apply validateForm_hidden..|].
      cbv zeta in *. by destruct (call _ true F _) as [v d3].
    + intros [d ls] s F. simpl. intros ->.
      destruct (cleared_then_validated F d (fun f => validateForm f false false) true)
        as (_ & _ & Q); [intros e; apply validateForm_hidden..|].
      cbv zeta in *. by destruct (call _ true F _) as [v d3].
  - unfold Part000.validateForms.
    apply (load_quiet _ _ (document, []) section form); [| |done|done].
    + intros [d ls] s. simpl.
      destruct (querySelectorAt sel_form s d) as [F|];
        [|split; [done|apply pointwise_refl, calmer_refl]].
      destruct (cleared_then_validated F d (fun f => Part000.validateForm f false) true)
        as (E & C & _); [intros e; apply part000_validateForm_hidden..|].
      cbv zeta in *. by destruct (call _ true F _) as [v d3].
    + intros [d ls] s F. simpl. intros ->.
      destruct (cleared_then_validated F d (fun f => Part000.validateForm f false) true)
        as (_ & _ & Q); [intros e; apply part000_validateForm_hidden..|].
      cbv zeta in *. by destruct (call _ true F _) as [v d3].
  - destruct (variant2_load (querySelectorAll sel_wForm document) document [])
      as (_ & C & Q & S).
    split; [|split; [exact S|exact C]].
    intros Hret. by apply (Q Hret section form).
Qed.

Lemma page_load_witness :
  querySelectorAllAt sel_isError [0; 0] noisyPage = [[0; 0; 0; 0]]
  ∧ quietAt [0; 0] (fst (validateForms noisyPage))
  ∧ fst (Variant2.validateForms noisyPage) = Some tt
  ∧ quietAt [0; 0] (fst (snd (Variant2.validateForms noisyPage))).
Proof.
  assert ([0] ∈ querySelectorAll sel_wForm noisyPage) as H1
    by (vm_compute; apply list_elem_of_here).
  assert (querySelectorAt sel_form [0] noisyPage = Some [0; 0]) as H2 by (by vm_compute).
  assert (noCheckboxTextarea noisyPage = true) as H3 by (by vm_compute).
  pose proof (page_load_shows_no_error noisyPage [0] [0; 0] H1 H2) as (Q1 & _ & Q2 & S & _).
  refine (conj _ (conj Q1 (conj (S H3) (Q2 (S H3))))).
  by vm_compute.
Defined.

(** In the second document a textarea that declares the checkbox rule ends
    [validateForms] in the first form: the second form still shows the
    error its markup shows, and no listener is attached. *)
Lemma page_load_exception :
  fst (Variant2.validateForms brokenPage) = None
  ∧ querySelectorAllAt sel_isError [1; 0] (fst (snd (Variant2.validateForms brokenPage)))
    = [[1; 0; 0; 0]]
  ∧ snd (snd (Variant2.validateForms brokenPage)) = [].
Proof. by vm_compute. Qed.

(** ** The listeners *)

Lemma pairwiseApart_elem ws w w' :
  pairwiseApart ws = true -> w ∈ ws -> w' ∈ ws -> w ≠ w' ->
  ¬ w `prefix_of` w' ∧ ¬ w' `prefix_of` w.
Proof.
  induction ws as [|a ws IH]; simpl; intros Hws Hw Hw' Hne.
  - by apply elem_of_nil in Hw.
  - apply andb_true_iff in Hws as [H0 Hws]. rewrite forallb_forall in H0.
    assert (forall x, x ∈ ws -> ¬ a `prefix_of` x ∧ ¬ x `prefix_of` a) as Ha.
    { intros x Hx%list_elem_of_In%H0.
      by apply andb_true_iff in Hx as [?%negb_true_iff%bool_decide_eq_false
                                         ?%negb_true_iff%bool_decide_eq_false]. }
    apply elem_of_cons in Hw as [->|Hw], Hw' as [->|Hw']; [done|auto| |auto].
    destruct (Ha w Hw). done.
Qed.

Lemma stable_wrapper : stable sel_wrapper = true.
Proof. done. Qed.

Lemma stable_input : stable sel_input = true.
Proof. done. Qed.

Lemma stable_errorLabel : stable sel_errorLabel = true.
Proof. done. Qed.

Section Revalidation.
Variable verdict : Element -> bool.
Variable pass : Element -> bool * Element.
Hypothesis pass_verdict : forall w, fst (pass w) = verdict w.
Hypothesis pass_leaf : forall w, leafTexts w = true -> erase (snd (pass w)) = erase w.


End Revalidation.

Lemma pairwiseApart_prefix ws1 ws :
  ws1 `prefix_of` ws -> pairwiseApart ws = true -> pairwiseApart ws1 = true.
Proof.
  intros [k ->]. induction ws1 as [|a ws1 IH]; [done|]. simpl.
  intros [H0 Hws]%andb_true_iff. apply andb_true_intro. split; [|by apply IH].
  rewrite forallb_app in H0. by apply andb_true_iff in H0 as [H0 _].
Qed.

Section RevalidationOrThrow.
Variable pass : Element -> option bool * Element.
Hypothesis pass_leaf : forall w, leafTexts w = true -> erase (snd (pass w)) = erase w.

(** After a listener of the second document, ended by an exception or
    not, a wrapper is as the form had it or as one or two passes on it
    have left it. *)
Lemma revalidateOrThrow_final f w w' e' q :
  wellFormed f = true ->
  w ∈ querySelectorAll sel_wrapper f -> w' ∈ querySelectorAll sel_wrapper f ->
  deref w' f = Some e' ->
  exists e1 e2,
    erase e1 = erase e' ∧ (e1 = e' ∨ e1 = snd (pass e')) ∧ (e2 = e1 ∨ e2 = snd (pass e1))
    ∧ hasErrorClass (w' ++ q) (revalidateOrThrow pass w f) = hasErrorClass q e2
    ∧ labelStyle (w' ++ q) (revalidateOrThrow pass w f) = labelStyle q e2.
Proof.
  intros [Hleaf Hapart]%andb_true_iff Hw Hw' He'.
  pose proof Hw as (e & He%descendants_deref & _)%elem_of_querySelectorAll.
  assert (leafTexts e = true) as Hle by by apply (leafTexts_deref w f).
  unfold revalidateOrThrow, call. rewrite He.
  pose proof (pass_leaf e Hle) as Hpe. destruct (pass e) as [v e2] eqn:Hpass. simpl in Hpe.
  set (f1 := mutate (fun _ => e2) w f).
  assert (erase f1 = erase f) as Hf1.
  { apply erase_mutate. intros x Hx. congruence. }
  assert (querySelectorAll sel_wrapper f1 = querySelectorAll sel_wrapper f) as Hws
    by by apply querySelectorAll_same.
  assert (exists e1, deref w' f1 = Some e1 ∧ erase e1 = erase e'
                     ∧ (e1 = e' ∨ e1 = snd (pass e'))) as (e1 & H1 & H2 & H3).
  { destruct (decide (w = w')) as [<-|Hne].
    - exists e2. unfold f1. rewrite deref_mutate, He. simpl.
      assert (e' = e) as -> by congruence. rewrite Hpass. auto.
    - exists e'. destruct (pairwiseApart_elem _ w w' Hapart Hw Hw' Hne).
      unfold f1. rewrite deref_mutate_apart by done. auto. }
  exists e1.
  assert (forall t x, deref w' t = Some x ->
            hasErrorClass (w' ++ q) t = hasErrorClass q x
            ∧ labelStyle (w' ++ q) t = labelStyle q x) as Hat.
  { intros t x Ht. unfold hasErrorClass, labelStyle. by rewrite (the_app w' q t x). }
  destruct v as [v|]; [|exists e1; split; [done|]; split; [done|]; split; [by left|by apply Hat]].
  destruct (aggregateOrThrow_prefix pass f1) as (ws1 & st & Hp & -> & Hst).
  rewrite Hws in Hp.
  assert (exists e2', (e2' = e1 ∨ e2' = snd (pass e1))
            ∧ deref w' (snd (forEachWrapper (returning pass) ws1 (true, f1))) = Some e2')
    as (e2' & He2 & Hd).
  { destruct (decide (w' ∈ ws1)) as [Hin|Hout].
    - exists (snd (pass e1)). split; [by right|].
      rewrite (forEachWrapper_final (fun x => fst (returning pass x)) (returning pass)
                 (fun x => eq_refl) ws1 true f1 w') by (done || by eapply pairwiseApart_prefix).
      by rewrite H1.
    - exists e1. split; [by left|].
      rewrite (forEachWrapper_frame (fun x => fst (returning pass x)) (returning pass)
                 (fun x => eq_refl)); [done|].
      apply Forall_forall. intros x Hx.
      assert (x ∈ querySelectorAll sel_wrapper f) as Hxf
        by (destruct Hp as [k ->]; apply elem_of_app; by left).
      apply (pairwiseApart_elem _ x w' Hapart Hxf Hw'). by intros ->. }
  exists e2'. split; [done|]. split; [done|]. split; [done|].
  destruct Hst as [-> | ->]; [by apply Hat|].
  unfold hasErrorClass, labelStyle.
  rewrite (toggleSubmit_kept (contains "is-error")), (toggleSubmit_kept (getAttribute "style"));
    [by apply Hat|done|done|intros d; by apply contains_classAdd_ne
    |intros d; by apply contains_classRemove_ne].
Qed.

End RevalidationOrThrow.

Lemma onInput_revalidate w f :
  onInput w f = revalidate (fun x => validateInput x true false) w f.
Proof.
  unfold onInput, revalidate. destruct (call _ true w f) as [v f1].
  by rewrite validateForm_aggregate.
Qed.

Lemma part000_onInput_revalidate w f :
  Part000.onInput w f = revalidate (fun x => Part000.validateInput x true) w f.
Proof.
  unfold Part000.onInput, revalidate. destruct (call _ true w f) as [v f1].
  by rewrite part000_validateForm_aggregate.
Qed.

Lemma touched_same w w' : erase w = erase w' -> touched w = touched w'.
Proof.
  intros H. unfold touched. rewrite (querySelector_same sel_input w w') by done.
  destruct (querySelector sel_input w'); [|done].
  apply hasAttribute_same; [|done]. by intros [|].
Qed.









(** *** The second document: fields that are never touched *)

Lemma unshown_refl d : unshown d d.
Proof. by repeat split. Qed.

Lemma unshown_trans a b c : unshown a b -> unshown b c -> unshown a c.
Proof. intros (? & ? & ?) (? & ? & ?). repeat split; congruence. Qed.

Lemma unshown_validateCheckbox w i : pointwise unshown w (snd (Variant2.validateCheckbox w i)).
Proof.
  apply (pointwise_variant2_validateCheckbox unshown unshown_refl unshown_trans).
  - intros v d. by repeat split; unfold getAttribute; simpl; rewrite ?lookup_insert_ne.
  - intros d. repeat split. by apply contains_classAdd_ne.
  - intros d. repeat split. by apply contains_classRemove_ne.
Qed.

Lemma variant2_validateInput_closed w p :
  touched w = false ->
  labelStyle p (snd (Variant2.validateInput w true false)) = labelStyle p w
  ∧ hasErrorClass p (snd (Variant2.validateInput w true false)) = hasErrorClass p w.
Proof.
  unfold touched, Variant2.validateInput.
  destruct (querySelector sel_input w) as [i|]; [|done]. intros Ht.
  destruct (hasAttribute "input-validation-checkbox" (the i w)).
  - pose proof (unshown_validateCheckbox w i) as Hc.
    destruct (Variant2.validateCheckbox w i) as [[v|] w1]; simpl in Hc.
    + destruct (pointwise_the unshown w w1 i (unshown_refl _) Hc) as (Hi & _).
      destruct (pointwise_the unshown w w1 p (unshown_refl _) Hc) as (_ & Hp1 & Hp2).
      unfold hasAttribute, getAttribute in *. rewrite Hi, Ht. simpl.
      unfold labelStyle, hasErrorClass, getAttribute. by rewrite Hp1, Hp2.
    + destruct (pointwise_the unshown w w1 p (unshown_refl _) Hc) as (_ & Hp1 & Hp2).
      simpl. unfold labelStyle, hasErrorClass, getAttribute in *. by rewrite Hp1, Hp2.
  - by rewrite Ht.
Qed.

Lemma variant2_initWrapper_checkbox form wrapper document i l :
  querySelectorAt sel_input (form ++ wrapper) document = Some i ->
  hasAttribute "input-validation-checkbox" (the i document) = true ->
  l ∈ snd (Variant2.initWrapper form wrapper document) ->
  Variant2.eventType l = "click" ∨ Variant2.eventType l = "change".
Proof.
  unfold Variant2.initWrapper. intros -> ->. simpl.
  destruct (querySelectorAt Variant2.sel_checkboxLabel _ _); simpl; intros Hl;
    repeat (apply elem_of_cons in Hl as [->|Hl]; [simpl; auto|]); by apply elem_of_nil in Hl.
Qed.

(** X16.  In the second document, in a form whose wrappers are not nested
    and whose custom error text elements have no child elements, an
    [input], [blur] or [change] event changes the error display of no field
    that is untouched: what such a field showed before, it shows
    afterwards, whatever its rule now says and whether the listener ends
    with an exception or not.  [validateForms] gives a checkbox field the
    listeners [click] and [change] only, none that would mark it touched. *)
Theorem variant2_untouched_display_stays (f : Element) (w w' : Ref) (e' : Element) :
  wellFormed f = true ->
  w ∈ querySelectorAll sel_wrapper f -> w' ∈ querySelectorAll sel_wrapper f ->
  deref w' f = Some e' -> touched e' = false ->
  (forall q, labelStyle (w' ++ q) (Variant2.onInput w f) = labelStyle (w' ++ q) f
             ∧ hasErrorClass (w' ++ q) (Variant2.onInput w f) = hasErrorClass (w' ++ q) f)
  ∧ (forall form document i l,
       querySelectorAt sel_input (form ++ w') document = Some i ->
       hasAttribute "input-validation-checkbox" (the i document) = true ->
       l ∈ snd (Variant2.initWrapper form w' document) ->
       Variant2.eventType l = "click" ∨ Variant2.eventType l = "change").
Proof.
  intros Hwf Hw Hw' He' Ht.
  split; [|intros form document i l; apply variant2_initWrapper_checkbox].
  intros q. rewrite variant2_onInput_revalidate.
  destruct (revalidateOrThrow_final (fun x => Variant2.validateInput x true false)
              (fun x H => variant2_validateInput_erase x true false (or_introl H))
              f w w' e' q Hwf Hw Hw' He') as (e1 & e2 & H1 & H3 & H4 & -> & ->).
  assert (labelStyle (w' ++ q) f = labelStyle q e') as ->
    by (unfold labelStyle; by rewrite (the_app w' q f e')).
  assert (hasErrorClass (w' ++ q) f = hasErrorClass q e') as ->
    by (unfold hasErrorClass; by rewrite (the_app w' q f e')).
  assert (labelStyle q e1 = labelStyle q e' ∧ hasErrorClass q e1 = hasErrorClass q e')
    as [Hs1 Hc1].
  { destruct H3 as [->| ->]; [done|]. by apply variant2_validateInput_closed. }
  destruct H4 as [->| ->]; [done|]. rewrite <- Hs1, <- Hc1.
  apply variant2_validateInput_closed. by rewrite (touched_same e1 e').
Qed.

Lemma variant2_untouched_witness :
  Variant2.wrapperVerdict (checkboxWrapper true true) = true
  ∧ labelStyle ([0] ++ [1]) staleForm = Some (js "display: flex;")
  ∧ labelStyle ([0] ++ [1]) (Variant2.onInput [0] staleForm) = labelStyle ([0] ++ [1]) staleForm.
Proof.
  assert (wellFormed staleForm = true) as H1 by (by vm_compute).
  assert ([0] ∈ querySelectorAll sel_wrapper staleForm) as H2
    by (vm_compute; repeat constructor).
  assert (deref [0] staleForm = Some (checkboxWrapper true true)) as H3 by done.
  assert (touched (checkboxWrapper true true) = false) as H4 by (by vm_compute).
  refine (conj _ (conj _ (proj1 (proj1 (variant2_untouched_display_stays staleForm [0] [0] _
                                          H1 H2 H2 H3 H4) [1])))); by vm_compute.
Defined.

(** *** What the listeners leave alone *)

Section PointwiseListeners.
Variable R : Data -> Data -> Prop.
Hypothesis R_refl : forall d, R d d.
Hypothesis R_trans : forall a b c, R a b -> R b c -> R a c.
Hypothesis R_addDisabled : forall d, R d (classAdd "is-disabled" d).
Hypothesis R_removeDisabled : forall d, R d (classRemove "is-disabled" d).
Hypothesis R_addError : forall d, R d (classAdd "is-error" d).
Hypothesis R_removeError : forall d, R d (classRemove "is-error" d).
Hypothesis R_style : forall v d, R d (setAttribute "style" v d).
Hypothesis R_text : forall s d, R d (withText s d).

Lemma pointwise_onInput w f : pointwise R f (onInput w f).
Proof.
  unfold onInput.
  pose proof (pointwise_call R R_refl (fun x => validateInput x true false) true w f) as Hc.
  destruct (call _ true w f) as [v f1]. simpl in Hc.
  eapply pointwise_trans; [done|apply Hc|by apply pointwise_validateForm].
  intros e. by apply pointwise_validateInput.
Qed.

Lemma pointwise_onSubmit f : pointwise R f (snd (onSubmit f)).
Proof.
  unfold onSubmit. pose proof (pointwise_validateForm R R_refl R_trans R_addDisabled
    R_removeDisabled R_addError R_removeError R_style R_text f true true) as H.
  destruct (validateForm f true true) as [[] f1]; exact H.
Qed.

Variable sanitize : Data -> list N -> list N.
Hypothesis R_assign : forall s d d', assignValue sanitize s d = Some d' -> R d d'.

Lemma pointwise_onInputPhone w i f : pointwise R f (onInputPhone sanitize w i f).
Proof.
  unfold onInputPhone. cbv zeta.
  destruct (assignValue sanitize _ (the (w ++ i) f)) as [stored|] eqn:Hs;
    [|apply pointwise_refl; done].
  set (f0 := mutate _ (w ++ i) f).
  assert (pointwise R f f0) as H0 by (apply pointwise_onData_at; [done|by eapply R_assign]).
  change (pointwise R f (onInput w f0)).
  eapply pointwise_trans; [done|exact H0|apply pointwise_onInput].
Qed.

Lemma pointwise_dispatch l document :
  handler l ≠ MarkTouched -> pointwise R document (snd (dispatch sanitize l document)).
Proof.
  unfold dispatch. destruct (handler l) as [|F w i|F w|]; [done|..]; intros _.
  - apply (pointwise_call R R_refl). intros e. apply pointwise_onInputPhone.
  - apply (pointwise_call R R_refl). intros e. apply pointwise_onInput.
  - pose proof (pointwise_call R R_refl onSubmit noEffects (target l) document
                  pointwise_onSubmit) as H.
    by destruct (call onSubmit noEffects (target l) document).
Qed.

End PointwiseListeners.

(** X17.  A field is marked touched by its [focus] listener and by nothing
    else, and no listener takes the mark away: a listener other than [focus]
    leaves the attribute [data-touched] of every element as it is, and the
    [focus] listener sets it on its target and leaves it alone everywhere
    else. *)
Theorem touched_only_by_focus (sanitize : Data -> list N -> list N) (l : Listener)
    (document : Element) (q : Ref) :
  let after := snd (dispatch sanitize l document) in
  (handler l ≠ MarkTouched ->
   getAttribute "data-touched" (the q after) = getAttribute "data-touched" (the q document))
  ∧ (handler l = MarkTouched ->
     (q ≠ target l ->
      getAttribute "data-touched" (the q after) = getAttribute "data-touched" (the q document))
     ∧ (is_Some (deref (target l) document) ->
        getAttribute "data-touched" (the (target l) after) = Some (js "true")))
  ∧ (hasAttribute "data-touched" (the q document) = true ->
     hasAttribute "data-touched" (the q after) = true).
Proof.
  set (R := fun d d' : Data => getAttribute "data-touched" d' = getAttribute "data-touched" d).
  assert (handler l ≠ MarkTouched ->
          getAttribute "data-touched" (the q (snd (dispatch sanitize l document)))
          = getAttribute "data-touched" (the q document)) as Hother.
  { intros Hl. apply (pointwise_the R document _ q); [done|].
    apply pointwise_dispatch; try done; unfold R.
    - congruence.
    - intros v d. unfold getAttribute. simpl. by rewrite lookup_insert_ne.
    - intros v d d' Hd. by apply (assignValue_attribute sanitize v d d'). }
  assert (handler l = MarkTouched ->
          (q ≠ target l ->
           getAttribute "data-touched" (the q (snd (dispatch sanitize l document)))
           = getAttribute "data-touched" (the q document))
          ∧ (is_Some (deref (target l) document) ->
             getAttribute "data-touched" (the (target l) (snd (dispatch sanitize l document)))
             = Some (js "true"))) as Hfocus.
  { intros Hl. unfold dispatch. rewrite Hl. simpl. unfold onFocus. split.
    - intros Hq. by rewrite (the_mutate_other _ _ _ _ _ (actsAs_onData _)).
    - intros Hv. rewrite (the_mutate_here _ _ _ _ (actsAs_onData _)) by done.
      apply getAttribute_setAttribute. }
  cbv zeta. split; [done|]. split; [done|].
  unfold hasAttribute. fold (getAttribute "data-touched" (the q document)).
  fold (getAttribute "data-touched" (the q (snd (dispatch sanitize l document)))).
  assert (handler l = MarkTouched ∨ handler l ≠ MarkTouched) as [Hl|Hl]
    by (destruct (handler l); (by left) || (by right)).
  - destruct (Hfocus Hl) as [H1 H2]. destruct (decide (q = target l)) as [->|Hq].
    + intros Hs%bool_decide_eq_true. rewrite H2; [by apply bool_decide_eq_true|].
      unfold the in Hs. destruct (deref (target l) document); [eauto|].
      by destruct Hs.
    + by rewrite H1.
  - by rewrite Hother.
Qed.



(** *** The submit listener in the three revisions *)

Lemma guardSubmit_effects verdict pass f :
  (forall w, fst (pass w) = verdict w) -> (forall w, verdict (erase w) = verdict w) ->
  (forall w, fst (pass w) = true -> erase (snd (pass w)) = erase w) ->
  defaultPrevented (fst (guardSubmit pass f)) = negb (formVerdictOf verdict f)
  ∧ propagationStopped (fst (guardSubmit pass f)) = negb (formVerdictOf verdict f)
  ∧ scrolledIntoView (fst (guardSubmit pass f))
    = (if formVerdictOf verdict f then None
       else querySelector sel_isError (snd (guardSubmit pass f))).
Proof.
  intros H1 H2 H3. rewrite (guardSubmit_eq verdict pass H1 H2 H3).
  by destruct (formVerdictOf verdict f).
Qed.

Lemma formVerdictOf_unfailed_false f :
  formVerdictOf unfailed f = false -> formVerdictOf Variant2.wrapperVerdict f = false.
Proof.
  intros (w & Hw & Hv)%forallb_false. apply not_true_is_false. intros H.
  unfold formVerdictOf in H. rewrite forallb_forall in H.
  apply list_elem_of_In, H in Hw. unfold fieldVerdictOf, unfailed in *.
  destruct (deref w f); [|done]. by rewrite Hw, orb_true_r in Hv.
Qed.

(** X19.  In the first document of validateForm.ts and in the older
    revision, for every form, the submit listener cancels the submission
    exactly when the rule of some field of the form fails, the fields taken
    as they are before the listener runs; it then asks to scroll to the
    first element with the class [is-error], if there is one, and otherwise
    asks for nothing.  In the second document the listener cancels only when
    the rule of some field fails, and exactly then when no textarea
    declares the checkbox rule; when [validateForm] throws, the listener
    has called nothing on the event. *)
Theorem submit_cancelled_iff_invalid (form : Element) :
  (defaultPrevented (fst (onSubmit form)) = negb (formVerdict form)
   ∧ propagationStopped (fst (onSubmit form)) = negb (formVerdict form)
   ∧ scrolledIntoView (fst (onSubmit form))
     = (if formVerdict form then None else querySelector sel_isError (snd (onSubmit form))))
  ∧ (defaultPrevented (fst (Part000.onSubmit form))
     = negb (formVerdictOf Part000.wrapperVerdict form)
     ∧ propagationStopped (fst (Part000.onSubmit form))
       = negb (formVerdictOf Part000.wrapperVerdict form)
     ∧ scrolledIntoView (fst (Part000.onSubmit form))
       = (if formVerdictOf Part000.wrapperVerdict form then None
          else querySelector sel_isError (snd (Part000.onSubmit form))))
  ∧ ((defaultPrevented (fst (Variant2.onSubmit form)) = true ->
      formVerdictOf Variant2.wrapperVerdict form = false)
     ∧ (noCheckboxTextarea form = true ->
        defaultPrevented (fst (Variant2.onSubmit form))
        = negb (formVerdictOf Variant2.wrapperVerdict form))
     ∧ (fst (Variant2.validateForm form true true) = None ->
        fst (Variant2.onSubmit form) = noEffects)
     ∧ propagationStopped (fst (Variant2.onSubmit form))
       = defaultPrevented (fst (Variant2.onSubmit form))
     ∧ scrolledIntoView (fst (Variant2.onSubmit form))
       = (if defaultPrevented (fst (Variant2.onSubmit form))
          then querySelector sel_isError (snd (Variant2.onSubmit form)) else None)).
Proof.
  rewrite onSubmit_guardSubmit, part000_onSubmit_guardSubmit.
  split; [|split];
    [apply guardSubmit_effects;
       auto using validateInput_verdict, wrapperVerdict_erase, validateInput_erase_valid
    |apply guardSubmit_effects;
       auto using part000_validateInput_verdict, part000_wrapperVerdict_erase,
         part000_validateInput_erase_valid|].
  split; [|split; [|split; [|split]]].
  - unfold Variant2.onSubmit.
    destruct (Variant2.validateForm form true true) as [[v|] f1] eqn:Hv; [|done].
    destruct v; [done|]. intros _.
    destruct (variant2_validateForm_returns form true true false) as [H _];
      [by rewrite Hv|]. by apply formVerdictOf_unfailed_false.
  - intros Hn. unfold Variant2.onSubmit. rewrite variant2_validateForm_safe by done.
    by destruct (formVerdictOf _ _).
  - unfold Variant2.onSubmit.
    by destruct (Variant2.validateForm form true true) as [[v|] f1].
  - unfold Variant2.onSubmit.
    by destruct (Variant2.validateForm form true true) as [[[]|] f1].
  - unfold Variant2.onSubmit.
    by destruct (Variant2.validateForm form true true) as [[[]|] f1].
Qed.

Lemma submit_cancelled_witness :
  noCheckboxTextarea checkboxForm = true
  ∧ formVerdictOf Variant2.wrapperVerdict checkboxForm = false
  ∧ defaultPrevented (fst (Variant2.onSubmit checkboxForm))
    = negb (formVerdictOf Variant2.wrapperVerdict checkboxForm).
Proof.
  assert (noCheckboxTextarea checkboxForm = true) as H by (by vm_compute).
  refine (conj H (conj _
    (proj1 (proj2 (proj2 (proj2 (submit_cancelled_iff_invalid checkboxForm)))) H))).
  by vm_compute.
Defined.

(** In the second document a textarea that declares the checkbox rule lets
    a form with a failing field be submitted. *)
Lemma submit_exception :
  formVerdictOf Variant2.wrapperVerdict brokenForm = false
  ∧ fst (Variant2.validateForm brokenForm true true) = None
  ∧ fst (Variant2.onSubmit brokenForm) = noEffects.
Proof. by vm_compute. Qed.

(** *** The checkbox of the second document *)

Lemma matches_same sel e e' :
  stable sel = true -> erase e = erase e' ->
  matches sel (data e) = matches sel (data e') ∧ removed e = removed e'.
Proof.
  intros Hs H. split.
  - by rewrite <- (matches_erase sel (data e)), <- data_erase, H, data_erase, matches_erase.
  - by rewrite <- (removed_erase e), H, removed_erase.
Qed.

Lemma closestFrom_same sel n p t t' :
  stable sel = true -> erase t = erase t' ->
  closestFrom sel n p t = closestFrom sel n p t'.
Proof.
  intros Hs He. induction n as [|n IH].
  - simpl. by destruct (matches_same sel t t' Hs He) as [-> _].
  - cbn [closestFrom]. pose proof (deref_same (take (S n) p) t t' He) as H.
    destruct (deref (take (S n) p) t) as [e|], (deref (take (S n) p) t') as [e'|]; try done.
    injection H as H. destruct (matches_same sel e e' Hs H) as [-> ->]. by rewrite IH.
Qed.

Lemma querySelectorAt_valid sel l t q : querySelectorAt sel l t = Some q -> is_Some (deref q t).
Proof.
  unfold querySelectorAt. destruct (deref l t) as [e|] eqn:He; [|done].
  destruct (querySelector sel e) as [r|] eqn:Hr; [|done]. intros [= <-].
  rewrite deref_app, He. by eapply querySelector_valid.
Qed.

(** X20.  [validateCheckbox], given an input element, returns its checked
    state and mirrors it: afterwards the attribute [data-checked] of the
    input says "true" or "false" accordingly, and the checkbox box of the
    field wrapper around the input, when there is one, carries the class
    [w--redirected-checked] exactly when the input is checked.  Given any
    other element, a textarea for one, it throws and changes nothing. *)
Theorem variant2_checkbox_mirror (w : Element) (i : Ref) :
  is_Some (deref i w) ->
  let after := snd (Variant2.validateCheckbox w i) in
  (tagName (the i w) = "input" ->
   fst (Variant2.validateCheckbox w i) = Some (checked (the i w))
   ∧ checked (the i after) = checked (the i w)
   ∧ getAttribute "data-checked" (the i after)
     = Some (js (if checked (the i w) then "true" else "false"))
   ∧ (forall c b,
        closest sel_wrapper i w = Some c -> querySelectorAt sel_checkbox c w = Some b ->
        contains "w--redirected-checked" (the b after) = checked (the i w)))
  ∧ (tagName (the i w) ≠ "input" -> Variant2.validateCheckbox w i = (None, w)).
Proof.
  intros Hv. cbv zeta. split; [|intros Ht; unfold Variant2.validateCheckbox, checkedProperty;
                                 by rewrite bool_decide_eq_false_2].
  intros Htag.
  split; [rewrite variant2_validateCheckbox_fst; unfold checkedProperty;
          by rewrite bool_decide_eq_true_2|].
  unfold Variant2.validateCheckbox, checkedProperty. rewrite bool_decide_eq_true_2 by done.
  cbv zeta.
  set (v := checked (the i w)).
  set (w1 := mutate (onData (setAttribute "data-checked" (js (if v then "true" else "false"))))
                    i w).
  assert (erase w1 = erase w) as E1.
  { apply erase_mutate_onData. intros d. apply eraseData_setAttribute. by right. }
  assert (getAttribute "data-checked" (the i w1) = Some (js (if v then "true" else "false")))
    as Ha.
  { unfold w1. rewrite (the_mutate_here _ _ _ _ (actsAs_onData _)) by done.
    apply getAttribute_setAttribute. }
  assert (checked (the i w1) = v) as Hc1
    by (by apply (the_mutate_kept checked _ _ _ _ _ (actsAs_onData _))).
  unfold closest. rewrite (closestFrom_same sel_wrapper _ i w1 w) by done.
  destruct (closestFrom sel_wrapper (length i) i w) as [c|] eqn:Hc.
  - rewrite (querySelectorAt_same sel_checkbox c w1 w) by done.
    destruct (querySelectorAt sel_checkbox c w) as [b|] eqn:Hb.
    + simpl. unfold Variant2.updateCheckboxClasses. rewrite Ha.
      assert (is_Some (deref b w1)) as Hvb.
      { apply (valid_same b w); [done|]. by eapply querySelectorAt_valid. }
      destruct v.
      * rewrite bool_decide_eq_true_2 by done.
        rewrite !(the_mutate_kept checked _ _ _ _ _ (actsAs_onData _)) by done.
        rewrite (the_mutate_kept (getAttribute "data-checked") _ _ _ _ _ (actsAs_onData _))
          by done.
        repeat split; try done. intros c' b' [= <-] Hb'. rewrite Hb in Hb'. injection Hb' as <-.
        rewrite (the_mutate_here _ _ _ _ (actsAs_onData _)) by done.
        apply contains_classAdd.
      * rewrite bool_decide_eq_false_2 by done.
        rewrite !(the_mutate_kept checked _ _ _ _ _ (actsAs_onData _)) by done.
        rewrite (the_mutate_kept (getAttribute "data-checked") _ _ _ _ _ (actsAs_onData _))
          by done.
        repeat split; try done. intros c' b' [= <-] Hb'. rewrite Hb in Hb'. injection Hb' as <-.
        rewrite (the_mutate_here _ _ _ _ (actsAs_onData _)) by done.
        apply contains_classRemove.
    + simpl. repeat split; try done. intros c' b' [= <-] Hb'. congruence.
  - simpl. repeat split; try done.
Qed.

Lemma variant2_checkbox_mirror_witness :
  closest sel_wrapper [0; 1] (checkboxWrapper true false) = Some []
  ∧ querySelectorAt sel_checkbox [] (checkboxWrapper true false) = Some [0; 0]
  ∧ tagName (the [0; 1] (checkboxWrapper true false)) = "input"
  ∧ contains "w--redirected-checked" (the [0; 0] (checkboxWrapper true false)) = false
  ∧ contains "w--redirected-checked"
      (the [0; 0] (snd (Variant2.validateCheckbox (checkboxWrapper true false) [0; 1]))) = true.
Proof.
  assert (is_Some (deref [0; 1] (checkboxWrapper true false))) as H1 by (vm_compute; eauto).
  assert (closest sel_wrapper [0; 1] (checkboxWrapper true false) = Some []) as H2
    by (by vm_compute).
  assert (querySelectorAt sel_checkbox [] (checkboxWrapper true false) = Some [0; 0]) as H3
    by (by vm_compute).
  assert (tagName (the [0; 1] (checkboxWrapper true false)) = "input") as H4 by done.
  refine (conj H2 (conj H3 (conj H4 (conj _
    (proj2 (proj2 (proj2
       (proj1 (variant2_checkbox_mirror (checkboxWrapper true false) [0; 1] H1) H4)))
       [] [0; 0] H2 H3))))).
  by vm_compute.
Defined.

(** X21.  In the second document, a wrapper with a checkbox input in which
    no element has both classes [w-checkbox-input] and [checkbox]: neither
    [showError] nor [hideError] changes the class [is-error] of any element,
    so a failing field of that kind is marked nowhere. *)
Theorem variant2_error_class_needs_box (w : Element) (p q : Ref) :
  is_Some (querySelector Variant2.sel_checkboxInput w) ->
  querySelector Variant2.sel_checkboxBox w = None ->
  contains "is-error" (the q (Variant2.showError w p)) = contains "is-error" (the q w)
  ∧ contains "is-error" (the q (Variant2.hideError w p)) = contains "is-error" (the q w).
Proof.
  intros [x Hx] Hb. unfold Variant2.showError, Variant2.hideError. rewrite Hx, Hb. cbv zeta.
  destruct (querySelector sel_errorLabel w) as [l|]; [|done].
  rewrite !(the_mutate_kept (contains "is-error") _ _ _ _ _ (actsAs_onData _)) by done.
  split; [|done].
  destruct (querySelectorAt sel_errorText l w); [|done]. destruct (truthy _); [|done].
  by rewrite (the_mutate_kept (contains "is-error") _ _ _ _ _ (actsAs_setTextContent _)).
Qed.

Lemma variant2_error_class_needs_box_witness :
  Variant2.wrapperVerdict plainBox = false
  ∧ querySelectorAll sel_isError (snd (Variant2.validateInput plainBox true true)) = []
  ∧ contains "is-error" (the [1] (Variant2.showError plainBox [1]))
    = contains "is-error" (the [1] plainBox).
Proof.
  assert (is_Some (querySelector Variant2.sel_checkboxInput plainBox)) as H1
    by (vm_compute; eauto).
  assert (querySelector Variant2.sel_checkboxBox plainBox = None) as H2 by (by vm_compute).
  refine (conj _ (conj _ (proj1 (variant2_error_class_needs_box plainBox [1] [1] H1 H2))));
    by vm_compute.
Defined.

(** *** The listeners of the second document *)

Section PointwiseListeners2.
Variable R : Data -> Data -> Prop.
Hypothesis R_refl : forall d, R d d.
Hypothesis R_trans : forall a b c, R a b -> R b c -> R a c.
Hypothesis R_addDisabled : forall d, R d (classAdd "is-disabled" d).
Hypothesis R_removeDisabled : forall d, R d (classRemove "is-disabled" d).
Hypothesis R_addError : forall d, R d (classAdd "is-error" d).
Hypothesis R_removeError : forall d, R d (classRemove "is-error" d).
Hypothesis R_style : forall v d, R d (setAttribute "style" v d).
Hypothesis R_text : forall s d, R d (withText s d).
Hypothesis R_dataChecked : forall v d, R d (setAttribute "data-checked" v d).
Hypothesis R_addRedirected : forall d, R d (classAdd "w--redirected-checked" d).
Hypothesis R_removeRedirected : forall d, R d (classRemove "w--redirected-checked" d).
Variable sanitize : Data -> list N -> list N.
Hypothesis R_assign : forall s d d', assignValue sanitize s d = Some d' -> R d d'.

Let validated2 f se fo : pointwise R f (snd (Variant2.validateForm f se fo)) :=
  pointwise_variant2_validateForm R R_refl R_trans R_addDisabled R_removeDisabled R_addError
    R_removeError R_style R_text R_dataChecked R_addRedirected R_removeRedirected f se fo.

Let revalidated w f : pointwise R f (Variant2.onInput w f) :=
  pointwise_variant2_onInput R R_refl R_trans R_addDisabled R_removeDisabled R_addError
    R_removeError R_style R_text R_dataChecked R_addRedirected R_removeRedirected w f.

Lemma pointwise_variant2_onSubmit f : pointwise R f (snd (Variant2.onSubmit f)).
Proof.
  unfold Variant2.onSubmit. pose proof (validated2 f true true) as H.
  destruct (Variant2.validateForm f true true) as [[[]|] f1]; exact H.
Qed.

Lemma pointwise_variant2_onInputPhone w i f :
  pointwise R f (Variant2.onInputPhone sanitize w i f).
Proof.
  unfold Variant2.onInputPhone. cbv zeta.
  destruct (assignValue sanitize _ (the (w ++ i) f)) as [stored|] eqn:Hs;
    [|apply pointwise_refl; done].
  set (f0 := mutate _ (w ++ i) f).
  assert (pointwise R f f0) as H0 by (apply pointwise_onData_at; [done|by eapply R_assign]).
  eapply pointwise_trans; [done|exact H0|apply revalidated].
Qed.

Lemma pointwise_variant2_dispatch l document :
  Variant2.handler l ≠ Variant2.MarkTouched ->
  pointwise R document (snd (fst (Variant2.dispatch sanitize l document))).
Proof.
  unfold Variant2.dispatch. destruct (Variant2.handler l) as [|F w i|F w|F w|]; [done|..];
    intros _; simpl.
  - apply (pointwise_call R R_refl). intros e. apply pointwise_variant2_onInputPhone.
  - apply (pointwise_call R R_refl). intros e. apply revalidated.
  - by apply pointwise_refl.
  - pose proof (pointwise_call R R_refl Variant2.onSubmit noEffects (Variant2.target l) document
                  pointwise_variant2_onSubmit) as H.
    by destruct (call Variant2.onSubmit noEffects (Variant2.target l) document).
Qed.

Lemma pointwise_variant2_run task document : pointwise R document (Variant2.run task document).
Proof.
  destruct task as [F w]. simpl.
  apply (pointwise_call R R_refl). intros e. apply revalidated.
Qed.

End PointwiseListeners2.

(** X22.  In the second document too, only a [focus] listener marks a field
    touched: every other listener, and every callback that the [click]
    listener of a checkbox label has deferred, leaves the attribute
    [data-touched] of every element as it is. The [click] listener itself
    changes nothing in the document; it defers one callback, the
    re-validation that the [change] listener runs at once. *)
Theorem variant2_touched_only_by_focus (sanitize : Data -> list N -> list N)
    (l : Variant2.Listener) (task : Variant2.Task) (document : Element) (q : Ref) :
  (Variant2.handler l ≠ Variant2.MarkTouched ->
   getAttribute "data-touched" (the q (snd (fst (Variant2.dispatch sanitize l document))))
   = getAttribute "data-touched" (the q document))
  ∧ getAttribute "data-touched" (the q (Variant2.run task document))
    = getAttribute "data-touched" (the q document)
  ∧ (forall form wrapper,
       Variant2.handler l = Variant2.RevalidateLater form wrapper ->
       Variant2.dispatch sanitize l document
       = (noEffects, document, [Variant2.RevalidateTask form wrapper])
       ∧ Variant2.run (Variant2.RevalidateTask form wrapper) document
         = snd (fst (Variant2.dispatch sanitize
                       (Variant2.mkListener (Variant2.target l) "change"
                          (Variant2.Revalidate form wrapper)) document))).
Proof.
  set (R := fun d d' : Data => getAttribute "data-touched" d' = getAttribute "data-touched" d).
  assert (forall a v d, a ≠ "data-touched" -> R d (setAttribute a v d)) as Hset.
  { intros a v d Ha. unfold R, getAttribute. simpl. by rewrite lookup_insert_ne. }
  split; [|split].
  - intros Hl. apply (pointwise_the R document _ q); [done|].
    apply pointwise_variant2_dispatch; try done; try (intros v d; by apply Hset);
      try (intros v d d' Hd; by apply (assignValue_attribute sanitize v d d'));
      unfold R; congruence.
  - apply (pointwise_the R document _ q); [done|].
    apply pointwise_variant2_run; try done; try (intros v d; by apply Hset);
      unfold R; congruence.
  - intros form wrapper Hl. unfold Variant2.dispatch. rewrite Hl. simpl.
    split; [done|]. unfold call. destruct (deref form document); [|done].
    by destruct (Variant2.onInput wrapper e).
Qed.

(** *** The error display of the second document *)




Lemma stable_checkboxInput : stable Variant2.sel_checkboxInput = true.
Proof. done. Qed.

Lemma stable_checkboxBox : stable Variant2.sel_checkboxBox = true.
Proof. done. Qed.







(** ** Validating twice *)

















(** *** The first call of the listeners *)



Section Redundant.
Variable verdict : Element -> bool.
Variable pass : Element -> bool * Element.
Hypothesis pass_verdict : forall w, fst (pass w) = verdict w.
Hypothesis verdict_erase : forall w, verdict (erase w) = verdict w.
Hypothesis pass_leaf : forall w, leafTexts w = true -> erase (snd (pass w)) = erase w.
Hypothesis pass_settled :
  forall w, leafTexts w = true -> snd (pass (snd (pass w))) = snd (pass w).



End Redundant.



(** *** Validating a form twice *)






Section Settled.
Variable verdict : Element -> bool.
Variable pass : Element -> bool * Element.
Hypothesis pass_verdict : forall w, fst (pass w) = verdict w.
Hypothesis verdict_erase : forall w, verdict (erase w) = verdict w.
Hypothesis pass_valid : forall w, fst (pass w) = true -> erase (snd (pass w)) = erase w.
Hypothesis pass_leaf : forall w, leafTexts w = true -> erase (snd (pass w)) = erase w.
Hypothesis pass_settled :
  forall w, leafTexts w = true -> snd (pass (snd (pass w))) = snd (pass w).



End Settled.



(** ** The markup conditions are invariants *)

Lemma removed_mutate_onData g p t : removed (mutate (onData g) p t) = removed t.
Proof.
  destruct p as [|i p]; [by destruct t|]. simpl. by destruct (children t !! i), t.
Qed.

Lemma leafTexts_mutate_onData g p t :
  (forall d, getAttribute "input-error-text" (g d) = getAttribute "input-error-text" d) ->
  leafTexts (mutate (onData g) p t) = leafTexts t.
Proof.
  intros Hg. revert t. induction p as [|i p IH]; intros [d r cs]; simpl.
  - by rewrite Hg.
  - destruct (cs !! i) as [c|] eqn:Hc; [|done]. simpl.
    rewrite (forallb_insert_same removed cs i c) by (done || apply removed_mutate_onData).
    by rewrite (forallb_insert_same leafTexts cs i c) by (done || apply IH).
Qed.

Lemma below_insert_same sel k cs i c c' :
  cs !! i = Some c -> removed c' = removed c ->
  matches sel (data c') = matches sel (data c) ->
  querySelectorAll sel c' = querySelectorAll sel c ->
  map fst (filter (fun '(_, x) => matches sel (data x) = true) (below k (<[i := c']> cs)))
  = map fst (filter (fun '(_, x) => matches sel (data x) = true) (below k cs)).
Proof.
  intros Hc Hr Hm Hq. revert k i Hc. induction cs as [|a cs IH]; intros k [|i] Hc; try done.
  - simpl in Hc. injection Hc as ->. simpl. rewrite !filter_app, !map_app. f_equal.
    rewrite Hr. destruct (removed c); [done|].
    rewrite !filter_cons. simpl. rewrite Hm.
    assert (forall e : Element,
              map fst (filter (fun '(_, x) => matches sel (data x) = true)
                         (map (fun '(p, x) => (k :: p, x)) (descendants e)))
              = map (cons k) (querySelectorAll sel e)) as Hmap.
    { intros e. unfold querySelectorAll. generalize (descendants e). intros l.
      induction l as [|[p x] l IHl]; [done|]. simpl. rewrite !filter_cons. simpl.
      destruct (decide _); simpl; by rewrite IHl. }
    destruct (decide _); simpl; by rewrite !Hmap, Hq.
  - simpl. rewrite !filter_app, !map_app. f_equal. by apply IH.
Qed.

Lemma querySelectorAll_mutate_onData sel g p t :
  (forall d, matches sel (g d) = matches sel d) ->
  querySelectorAll sel (mutate (onData g) p t) = querySelectorAll sel t.
Proof.
  intros Hg. revert t. induction p as [|i p IH]; intros [d r cs].
  - done.
  - simpl. destruct (cs !! i) as [c|] eqn:Hc; [|done].
    unfold querySelectorAll. rewrite !descendants_unfold.
    apply (below_insert_same sel 0 cs i c); [done|apply removed_mutate_onData| |apply IH].
    destruct p as [|j p]; [destruct c; simpl; apply Hg|].
    simpl. by destruct (children c !! j), c.
Qed.

Lemma sameMarkup_refl f : leafTexts f = true -> sameMarkup f f.
Proof. by repeat split. Qed.

Lemma sameMarkup_trans a b c : sameMarkup a b -> sameMarkup b c -> sameMarkup a c.
Proof. intros (? & ? & ?) (? & ? & ?). repeat split; congruence. Qed.

Lemma sameMarkup_erase f f' : leafTexts f = true -> erase f' = erase f -> sameMarkup f f'.
Proof.
  intros Hf He.
  assert (querySelectorAll sel_wrapper f' = querySelectorAll sel_wrapper f) as Hq
    by by apply querySelectorAll_same.
  repeat split; [by rewrite (leafTexts_same f' f)|done|].
  unfold wellFormed. by rewrite Hq, (leafTexts_same f' f).
Qed.

Lemma sameMarkup_mutate_onData g p f :
  leafTexts f = true ->
  (forall d, getAttribute "input-error-text" (g d) = getAttribute "input-error-text" d) ->
  (forall d, classList (g d) = classList d) ->
  sameMarkup f (mutate (onData g) p f).
Proof.
  intros Hf Ha Hc.
  assert (querySelectorAll sel_wrapper (mutate (onData g) p f)
          = querySelectorAll sel_wrapper f) as Hq.
  { apply querySelectorAll_mutate_onData. intros d. unfold matches. simpl.
    unfold contains. by rewrite Hc. }
  pose proof (leafTexts_mutate_onData g p f Ha) as Hl.
  repeat split; [congruence|done|]. unfold wellFormed. by rewrite Hq, Hl.
Qed.

Lemma call_leaf {A} (f : Element -> A * Element) dflt p t :
  leafTexts t = true ->
  (forall e, leafTexts e = true -> erase (snd (f e)) = erase e) ->
  erase (snd (call f dflt p t)) = erase t.
Proof.
  intros Ht Hf. unfold call. destruct (deref p t) as [e|] eqn:He; [|done].
  specialize (Hf e (leafTexts_deref p t e Ht He)). destruct (f e) as [a e']. simpl in *.
  apply erase_mutate. intros e0 He0. congruence.
Qed.

Section MarkupInvariant.
Variable verdict : Element -> bool.
Variable pass : Element -> bool * Element.
Hypothesis pass_verdict : forall w, fst (pass w) = verdict w.
Hypothesis pass_leaf : forall w, leafTexts w = true -> erase (snd (pass w)) = erase w.

Lemma sameMarkup_aggregate f : leafTexts f = true -> sameMarkup f (snd (aggregate pass f)).
Proof.
  intros Hf. apply sameMarkup_erase; [done|].
  by apply (aggregate_erase verdict pass pass_verdict pass_leaf).
Qed.

Lemma sameMarkup_revalidate w f : leafTexts f = true -> sameMarkup f (revalidate pass w f).
Proof.
  intros Hf. unfold revalidate.
  pose proof (call_leaf pass true w f Hf pass_leaf) as Hc.
  destruct (call pass true w f) as [v f1]. simpl in Hc.
  apply sameMarkup_erase; [done|]. rewrite <- Hc.
  apply (aggregate_erase verdict pass pass_verdict pass_leaf). by rewrite (leafTexts_same f1 f).
Qed.

Lemma sameMarkup_guardSubmit f : leafTexts f = true -> sameMarkup f (snd (guardSubmit pass f)).
Proof.
  intros Hf. unfold guardSubmit. pose proof (sameMarkup_aggregate f Hf) as H.
  by destruct (aggregate pass f) as [[] f1].
Qed.

End MarkupInvariant.

Lemma assignValue_acts sanitize s d0 stored :
  assignValue sanitize s d0 = Some stored ->
  exists g : Data -> Data,
    stored = g d0 ∧ (forall d, classList (g d) = classList d)
    ∧ (forall d a, a ≠ "value" -> getAttribute a (g d) = getAttribute a d).
Proof.
  assert (forall v s', exists g : Data -> Data,
            setValue v (setAttribute "value" s' d0) = g d0
            ∧ (forall d, classList (g d) = classList d)
            ∧ (forall d a, a ≠ "value" -> getAttribute a (g d) = getAttribute a d)) as Hattr.
  { intros v s'. exists (fun d => setValue v (setAttribute "value" s' d)).
    repeat split. intros d a Ha. unfold getAttribute. simpl. by rewrite lookup_insert_ne. }
  unfold assignValue.
  destruct (bool_decide (tagName d0 = "textarea"));
    [intros [= <-]; by exists (setValue (normalizeNewlines s))|].
  destruct (bool_decide (tagName d0 = "input")); [|intros [= <-]; by exists (setValue s)].
  destruct (valueMode (type d0)).
  - intros [= <-]. by exists (setValue (sanitize d0 s)).
  - intros [= <-]. apply Hattr.
  - intros [= <-]. apply Hattr.
  - destruct (bool_decide _); [|done]. intros [= <-]. by exists (setValue []).
Qed.

Lemma sameMarkup_assign sanitize s p f stored :
  leafTexts f = true -> assignValue sanitize s (the p f) = Some stored ->
  sameMarkup f (mutate (onData (fun _ => stored)) p f).
Proof.
  intros Hf (g & -> & Hc & Ha)%assignValue_acts.
  rewrite (mutate_ext _ (onData g)).
  - apply sameMarkup_mutate_onData; [done| |done]. intros d. by apply Ha.
  - intros e He. unfold onData, the. by rewrite He.
Qed.

Lemma variant2_onInput_erase w f :
  leafTexts f = true -> erase (Variant2.onInput w f) = erase f.
Proof.
  intros Hf. unfold Variant2.onInput.
  pose proof (call_leaf (fun x => Variant2.validateInput x true false) (Some true) w f Hf
                (fun e He => variant2_validateInput_erase e true false (or_introl He))) as Hc.
  destruct (call _ (Some true) w f) as [[v|] f1]; simpl in Hc; [|done].
  rewrite <- Hc. apply variant2_validateForm_erase. by rewrite (leafTexts_same f1 f).
Qed.

(** X25.  The conditions on the markup under which the properties above hold
    are kept by everything the validator does: after any validation pass and
    after any listener, in any revision, whether it ends with an exception
    or not and whatever the value setter of the phone listener stores, the
    custom error texts of a form are still leaves, its field wrappers are
    the same elements, and they are nested or not as they were. *)
Theorem markup_conditions_stay (f : Element) :
  leafTexts f = true ->
  ((forall se fo, sameMarkup f (snd (validateForm f se fo)))
   ∧ (forall p, sameMarkup f (mutate onFocus p f))
   ∧ (forall w, sameMarkup f (onInput w f))
   ∧ (forall sanitize w i, sameMarkup f (onInputPhone sanitize w i f))
   ∧ sameMarkup f (snd (onSubmit f)))
  ∧ ((forall se, sameMarkup f (snd (Part000.validateForm f se)))
     ∧ (forall w, sameMarkup f (Part000.onInput w f))
     ∧ sameMarkup f (snd (Part000.onSubmit f)))
  ∧ ((forall se fo, sameMarkup f (snd (Variant2.validateForm f se fo)))
     ∧ (forall w, sameMarkup f (Variant2.onInput w f))
     ∧ (forall sanitize w i, sameMarkup f (Variant2.onInputPhone sanitize w i f))
     ∧ sameMarkup f (snd (Variant2.onSubmit f))).
Proof.
  intros Hf. split; [|split].
  - split; [|split; [|split; [|split]]].
    + intros se fo. rewrite validateForm_aggregate.
      apply (sameMarkup_aggregate wrapperVerdict);
        auto using validateInput_verdict, validateInput_erase.
    + intros p.
      change (mutate onFocus p f)
        with (mutate (onData (setAttribute "data-touched" (js "true"))) p f).
      apply sameMarkup_mutate_onData; [done| |done].
      intros d. unfold getAttribute. simpl. by rewrite lookup_insert_ne.
    + intros w. rewrite onInput_revalidate.
      apply (sameMarkup_revalidate wrapperVerdict);
        auto using validateInput_verdict, validateInput_erase.
    + intros sanitize w i. unfold onInputPhone. cbv zeta.
      destruct (assignValue sanitize _ (the (w ++ i) f)) as [stored|] eqn:Hs;
        [|by apply sameMarkup_refl].
      pose proof (sameMarkup_assign sanitize _ (w ++ i) f stored Hf Hs) as H0.
      set (f0 := mutate _ (w ++ i) f) in *.
      eapply sameMarkup_trans; [exact H0|].
      change (sameMarkup f0 (onInput w f0)). rewrite onInput_revalidate.
      apply (sameMarkup_revalidate wrapperVerdict);
        auto using validateInput_verdict, validateInput_erase. apply H0.
    + rewrite onSubmit_guardSubmit.
      apply (sameMarkup_guardSubmit wrapperVerdict);
        auto using validateInput_verdict, validateInput_erase.
  - split; [|split].
    + intros se. rewrite part000_validateForm_aggregate.
      apply (sameMarkup_aggregate Part000.wrapperVerdict);
        auto using part000_validateInput_verdict, part000_validateInput_erase.
    + intros w. rewrite part000_onInput_revalidate.
      apply (sameMarkup_revalidate Part000.wrapperVerdict);
        auto using part000_validateInput_verdict, part000_validateInput_erase.
    + rewrite part000_onSubmit_guardSubmit.
      apply (sameMarkup_guardSubmit Part000.wrapperVerdict);
        auto using part000_validateInput_verdict, part000_validateInput_erase.
  - split; [|split; [|split]].
    + intros se fo. apply sameMarkup_erase; [done|]. by apply variant2_validateForm_erase.
    + intros w. apply sameMarkup_erase; [done|]. by apply variant2_onInput_erase.
    + intros sanitize w i. unfold Variant2.onInputPhone. cbv zeta.
      destruct (assignValue sanitize _ (the (w ++ i) f)) as [stored|] eqn:Hs;
        [|by apply sameMarkup_refl].
      pose proof (sameMarkup_assign sanitize _ (w ++ i) f stored Hf Hs) as H0.
      set (f0 := mutate _ (w ++ i) f) in *.
      eapply sameMarkup_trans; [exact H0|].
      apply sameMarkup_erase; [apply H0|]. apply variant2_onInput_erase, H0.
    + apply sameMarkup_erase; [done|].
      assert (snd (Variant2.onSubmit f) = snd (Variant2.validateForm f true true)) as ->
        by (unfold Variant2.onSubmit;
            by destruct (Variant2.validateForm f true true) as [[[]|] f1]).
      by apply variant2_validateForm_erase.
Qed.

Lemma markup_conditions_witness :
  wellFormed mixedForm = true
  ∧ wellFormed (snd (onSubmit (onInput [0] (mutate onFocus [1; 0] mixedForm)))) = true.
Proof.
  assert (leafTexts mixedForm = true) as H0 by (by vm_compute).
  assert (wellFormed mixedForm = true) as H by (by vm_compute).
  pose proof (proj1 (proj2 (proj1 (markup_conditions_stay mixedForm H0))) [1; 0])
    as (L1 & _ & W1).
  pose proof (proj1 (proj2 (proj2 (proj1 (markup_conditions_stay _ L1)))) [0])
    as (L2 & _ & W2).
  pose proof (proj2 (proj2 (proj2 (proj2 (proj1 (markup_conditions_stay _ L2))))))
    as (_ & _ & W3).
  split; [done|]. congruence.
Defined.
